(** * Streaming chat client: frame decoder and event dispatcher

    A shallow embedding of [sendMessage] from
    [chat-frontend/ui/src/main.tsx].  The function posts the conversation
    to [/api/chat_stream], reads the response body chunk by chunk, cuts the
    decoded text into newline-terminated lines, parses every line as JSON
    and applies the matching effect to two pieces of React state: the
    message list ([messages]) and the status text ([current]).

    The JavaScript runtime the function relies on ([TextDecoder],
    [String.prototype.indexOf/slice/trim], [JSON.parse], [JSON.stringify],
    template-literal string conversion) is modelled from the WHATWG
    Encoding standard and ECMA-262, numbers included: a literal is
    rounded to the nearest double and printed with the digits of
    [Number::toString].  Resource limits of an engine (stack depth,
    memory) are not modelled; [console.error] and the scroll into view
    leave no trace in the state and are left out.

    React is modelled by the [useState] cells and by what it does with an
    updater that throws: the exception comes back at the next render and,
    as the tree has no error boundary, React unmounts it.  The JSX that
    displays the cells is not modelled. *)

From Stdlib Require Import List NArith ZArith Bool Ascii Lia Arith.
From Stdlib Require String.
Import String.StringSyntax.
Local Open Scope string_scope.
From Stdlib.Strings Require Import Byte.
From Equations Require Import Equations.
From Equations.Prop Require Import Logic.
Import ListNotations.

Set Implicit Arguments.
Local Open Scope N_scope.

(** ** JavaScript strings

    A JavaScript string is a sequence of UTF-16 code units. *)

Definition JSString := list N.

Definition str (s : String.string) : JSString :=
  map N_of_ascii (String.list_ascii_of_string s).

Fixpoint jsstring_eqb (a b : JSString) : bool :=
  match a, b with
  | [], [] => true
  | x :: a', y :: b' => (x =? y) && jsstring_eqb a' b'
  | _, _ => false
  end.

(** [!s] for a string: the empty string is the only falsy one. *)
Definition is_empty (s : JSString) : bool :=
  match s with [] => true | _ => false end.

Definition LF : N := 10.

(** [s.indexOf(c)] for a one-code-unit needle: the first position, or -1. *)
Fixpoint indexOf (s : JSString) (c : N) : Z :=
  match s with
  | [] => (-1)%Z
  | x :: s' =>
      if x =? c then 0%Z
      else let i := indexOf s' c in
           if (0 <=? i)%Z then (i + 1)%Z else (-1)%Z
  end.

(** [s.slice(start, end)]: negative positions count from the end, and
    both are clamped to the string. *)
Definition clamp_index (len k : Z) : Z :=
  if (k <? 0)%Z then Z.max (len + k) 0 else Z.min k len.

Definition slice (s : JSString) (start stop : Z) : JSString :=
  let len := Z.of_nat (length s) in
  let from := clamp_index len start in
  let to := clamp_index len stop in
  firstn (Z.to_nat (to - from)) (skipn (Z.to_nat from) s).

(** [s.slice(start)]. *)
Definition slice_from (s : JSString) (start : Z) : JSString :=
  slice s start (Z.of_nat (length s)).

(** WhiteSpace and LineTerminator code points of ECMA-262, the set
    [String.prototype.trim] strips. *)
Definition is_js_whitespace (c : N) : bool :=
  ((0x09 <=? c) && (c <=? 0x0D)) || (c =? 0x20) || (c =? 0xA0)
  || (c =? 0x1680) || ((0x2000 <=? c) && (c <=? 0x200A))
  || (c =? 0x2028) || (c =? 0x2029) || (c =? 0x202F) || (c =? 0x205F)
  || (c =? 0x3000) || (c =? 0xFEFF).

Fixpoint trimStart (s : JSString) : JSString :=
  match s with
  | c :: s' => if is_js_whitespace c then trimStart s' else s
  | [] => []
  end.

Definition trimEnd (s : JSString) : JSString := rev (trimStart (rev s)).

Definition trim (s : JSString) : JSString := trimEnd (trimStart s).

(** ** TextDecoder

    [new TextDecoder()] is the UTF-8 decoder of the WHATWG Encoding
    standard in replacement mode, with BOM removal.  Every call in the
    source passes [{ stream: true }], so the decoder is never flushed and
    its state survives from one chunk to the next. *)

Definition Chunk := list byte.

Record TextDecoder := mkDecoder {
  code_point : N;
  bytes_seen : N;
  bytes_needed : N;
  lower_boundary : N;
  upper_boundary : N;
  bom_seen : bool
}.

Definition new_TextDecoder : TextDecoder :=
  mkDecoder 0 0 0 0x80 0xBF false.

Definition in_range (lo hi b : N) : bool := (lo <=? b) && (b <=? hi).

(** The handler when no sequence is in progress. *)
Definition utf8_lead (d : TextDecoder) (b : N) : TextDecoder * list N :=
  if in_range 0x00 0x7F b then (d, [b])
  else if in_range 0xC2 0xDF b then
    (mkDecoder (N.land b 0x1F) d.(bytes_seen) 1
               d.(lower_boundary) d.(upper_boundary) d.(bom_seen), [])
  else if in_range 0xE0 0xEF b then
    (mkDecoder (N.land b 0xF) d.(bytes_seen) 2
               (if b =? 0xE0 then 0xA0 else d.(lower_boundary))
               (if b =? 0xED then 0x9F else d.(upper_boundary))
               d.(bom_seen), [])
  else if in_range 0xF0 0xF4 b then
    (mkDecoder (N.land b 0x7) d.(bytes_seen) 3
               (if b =? 0xF0 then 0x90 else d.(lower_boundary))
               (if b =? 0xF4 then 0x8F else d.(upper_boundary))
               d.(bom_seen), [])
  else (d, [0xFFFD]).

(** One step of the UTF-8 decoder on a byte: the new state and the code
    points emitted (U+FFFD for an error).  A byte that breaks a sequence
    is put back and handled again as a lead byte. *)
Definition utf8_handler (d : TextDecoder) (b : N) : TextDecoder * list N :=
  if d.(bytes_needed) =? 0 then utf8_lead d b
  else if negb (in_range d.(lower_boundary) d.(upper_boundary) b) then
    let d0 := mkDecoder 0 0 0 0x80 0xBF d.(bom_seen) in
    let '(d1, out) := utf8_lead d0 b in
    (d1, 0xFFFD :: out)
  else
    let cp := N.lor (N.shiftl d.(code_point) 6) (N.land b 0x3F) in
    let seen := d.(bytes_seen) + 1 in
    if negb (seen =? d.(bytes_needed)) then
      (mkDecoder cp seen d.(bytes_needed) 0x80 0xBF d.(bom_seen), [])
    else
      (mkDecoder 0 0 0 0x80 0xBF d.(bom_seen), [cp]).

(** Code point to UTF-16 code units. *)
Definition utf16_encode (cp : N) : JSString :=
  if cp <=? 0xFFFF then [cp]
  else let c := cp - 0x10000 in
       [0xD800 + N.shiftr c 10; 0xDC00 + N.land c 0x3FF].

(** Serialising the decoder's output: the first code point of the stream
    is dropped when it is the byte order mark. *)
Fixpoint serialize_output (seen : bool) (cps : list N) : bool * JSString :=
  match cps with
  | [] => (seen, [])
  | cp :: rest =>
      if negb seen && (cp =? 0xFEFF) then serialize_output true rest
      else let '(seen', out) := serialize_output true rest in
           (seen', utf16_encode cp ++ out)
  end.

Definition set_bom_seen (d : TextDecoder) (b : bool) : TextDecoder :=
  mkDecoder d.(code_point) d.(bytes_seen) d.(bytes_needed)
            d.(lower_boundary) d.(upper_boundary) b.

Definition decode_byte (d : TextDecoder) (b : byte) : TextDecoder * JSString :=
  let '(d1, cps) := utf8_handler d (Byte.to_N b) in
  let '(seen, out) := serialize_output d1.(bom_seen) cps in
  (set_bom_seen d1 seen, out).

(** [decoder.decode(value, { stream: true })]. *)
Fixpoint decode (d : TextDecoder) (value : Chunk) : TextDecoder * JSString :=
  match value with
  | [] => (d, [])
  | b :: rest =>
      let '(d1, out1) := decode_byte d b in
      let '(d2, out2) := decode d1 rest in
      (d2, out1 ++ out2)
  end.

(** ** JavaScript values

    The values [JSON.parse] can produce, plus [undefined], which a missing
    property reads as.  A finite Number is kept as its sign and the
    decimal digits [Number::toString] prints for it, which name the
    double: the fewest digits that read back as the same double.  Zero
    has no digits and keeps its sign.  [NaN] cannot come out of a JSON
    text and is left out. *)

Inductive Number :=
| mkNumber (num_neg : bool)
           (num_digits : list N)  (* most significant first, no zero at either end *)
           (num_point : Z)        (* value = 0.d1d2...dk * 10^num_point *)
| Infinity (num_neg : bool).

#[warnings="-register-all"]
Inductive JSValue :=
| JUndefined
| JNull
| JBool (b : bool)
| JNumber (n : Number)
| JString (s : JSString)
| JArray (elems : list JSValue)
| JObject (props : list (JSString * JSValue)).

(** Own properties of an object, in creation order.  [CreateDataProperty]
    on an existing key replaces the value and keeps the position. *)
Fixpoint create_data_property (props : list (JSString * JSValue))
         (k : JSString) (v : JSValue) : list (JSString * JSValue) :=
  match props with
  | [] => [(k, v)]
  | (k', v') :: rest =>
      if jsstring_eqb k' k then (k, v) :: rest
      else (k', v') :: create_data_property rest k v
  end.

Fixpoint get_own_property (props : list (JSString * JSValue)) (k : JSString)
  : option JSValue :=
  match props with
  | [] => None
  | (k', v) :: rest =>
      if jsstring_eqb k' k then Some v else get_own_property rest k
  end.

(** ** JSON.parse *)

Notation "x <- c1 ;; c2" :=
  (match c1 with Some x => c2 | None => None end)
  (at level 61, c1 at next level, right associativity).
Notation "' pat <- c1 ;; c2" :=
  (match c1 with Some pat => c2 | None => None end)
  (at level 61, pat pattern, c1 at next level, right associativity).

Definition is_json_ws (c : N) : bool :=
  (c =? 0x09) || (c =? 0x0A) || (c =? 0x0D) || (c =? 0x20).

Fixpoint skip_ws (s : JSString) : JSString :=
  match s with
  | c :: s' => if is_json_ws c then skip_ws s' else s
  | [] => []
  end.

Definition is_digit (c : N) : bool := in_range 0x30 0x39 c.

Definition hex_value (c : N) : option N :=
  if in_range 0x30 0x39 c then Some (c - 0x30)
  else if in_range 0x41 0x46 c then Some (c - 0x41 + 10)
  else if in_range 0x61 0x66 c then Some (c - 0x61 + 10)
  else None.

Definition hex4 (a b c d : N) : option N :=
  x <- hex_value a ;; y <- hex_value b ;;
  z <- hex_value c ;; w <- hex_value d ;;
  Some (x * 4096 + y * 256 + z * 16 + w).

(** The characters of a string literal after the opening quote, up to
    and including the closing quote.  [acc] holds the decoded code units
    in reverse. *)
Fixpoint parse_string_chars (s : JSString) (acc : JSString)
  : option (JSString * JSString) :=
  match s with
  | [] => None
  | c :: rest =>
      if c =? 0x22 then Some (rev acc, rest)
      else if c =? 0x5C then
        match rest with
        | [] => None
        | e :: rest' =>
            if e =? 0x22 then parse_string_chars rest' (0x22 :: acc)
            else if e =? 0x5C then parse_string_chars rest' (0x5C :: acc)
            else if e =? 0x2F then parse_string_chars rest' (0x2F :: acc)
            else if e =? 0x62 then parse_string_chars rest' (0x08 :: acc)
            else if e =? 0x66 then parse_string_chars rest' (0x0C :: acc)
            else if e =? 0x6E then parse_string_chars rest' (0x0A :: acc)
            else if e =? 0x72 then parse_string_chars rest' (0x0D :: acc)
            else if e =? 0x74 then parse_string_chars rest' (0x09 :: acc)
            else if e =? 0x75 then
              match rest' with
              | h1 :: h2 :: h3 :: h4 :: rest'' =>
                  u <- hex4 h1 h2 h3 h4 ;; parse_string_chars rest'' (u :: acc)
              | _ => None
              end
            else None
        end
      else if c <? 0x20 then None
      else parse_string_chars rest (c :: acc)
  end.

Definition parse_string (s : JSString) : option (JSString * JSString) :=
  match s with
  | c :: rest => if c =? 0x22 then parse_string_chars rest [] else None
  | [] => None
  end.

Fixpoint take_digits (s : JSString) : list N * JSString :=
  match s with
  | c :: s' =>
      if is_digit c then
        let '(ds, rest) := take_digits s' in (c - 0x30 :: ds, rest)
      else ([], s)
  | [] => ([], [])
  end.

Fixpoint strip_zeros (ds : list N) : list N :=
  match ds with
  | d :: ds' => if d =? 0 then strip_zeros ds' else ds
  | [] => []
  end.

Definition digits_to_Z (ds : list N) : Z :=
  fold_left (fun acc d => (acc * 10 + Z.of_N d)%Z) ds 0%Z.

Fixpoint uint_digits (u : Decimal.uint) : list N :=
  match u with
  | Decimal.Nil => []
  | Decimal.D0 u' => 0 :: uint_digits u'
  | Decimal.D1 u' => 1 :: uint_digits u'
  | Decimal.D2 u' => 2 :: uint_digits u'
  | Decimal.D3 u' => 3 :: uint_digits u'
  | Decimal.D4 u' => 4 :: uint_digits u'
  | Decimal.D5 u' => 5 :: uint_digits u'
  | Decimal.D6 u' => 6 :: uint_digits u'
  | Decimal.D7 u' => 7 :: uint_digits u'
  | Decimal.D8 u' => 8 :: uint_digits u'
  | Decimal.D9 u' => 9 :: uint_digits u'
  end.

(** *** Doubles

    The Number value of a literal is the IEEE 754 binary64 value nearest
    to it, ties to even.  The arithmetic is exact, on positive rationals
    [a/b]. *)

Section Doubles.

Local Open Scope Z_scope.

(** [a/b] times [base^k]. *)
Definition scale (base : Z) (a b k : Z) : Z * Z :=
  if 0 <=? k then (a * base ^ k, b) else (a, b * base ^ (- k)).

(** [a/b] rounded to the nearest integer, ties to the even one. *)
Definition round_half_even (a b : Z) : Z :=
  let q := a / b in
  match 2 * (a mod b) ?= b with
  | Lt => q
  | Gt => q + 1
  | Eq => if Z.even q then q else q + 1
  end.

(** [base^k <= a/b]. *)
Definition reaches (base : Z) (a b k : Z) : bool :=
  let '(c, d) := scale base 1 1 k in c * b <=? d * a.

(** The largest [k] with [base^k <= a/b], searched from an estimate that
    is off by one at most. *)
Fixpoint settle (fuel : nat) (base a b k : Z) : Z :=
  match fuel with
  | O => k
  | S fuel' =>
      if reaches base a b (k + 1) then settle fuel' base a b (k + 1)
      else if reaches base a b k then k
      else settle fuel' base a b (k - 1)
  end.

Definition floor_log2 (a b : Z) : Z :=
  settle 4 2 a b (Z.log2 a - Z.log2 b).

Definition floor_log10 (a b : Z) : Z :=
  settle 4 10 a b ((Z.log2 a - Z.log2 b) * 1233 / 4096).

(** A finite double is [m * 2^e] with [m < 2^53] and
    [-1074 <= e <= 971]; it is normal when [2^52 <= m]. *)
Inductive Double :=
| Finite (m e : Z)
| Overflow.

(** The double nearest to [a/b]. *)
Definition to_double (a b : Z) : Double :=
  let e := Z.max (floor_log2 a b - 52) (-1074) in
  let '(c, d) := scale 2 a b (- e) in
  let m := round_half_even c d in
  let '(m, e) := if m =? 2 ^ 53 then (2 ^ 52, e + 1) else (m, e) in
  if 971 <? e then Overflow else Finite m e.

Definition double_eqb (x y : Double) : bool :=
  match x, y with
  | Finite m e, Finite m' e' => (m =? m') && (e =? e')
  | Overflow, Overflow => true
  | _, _ => false
  end.

(** The decimal [s * 10^p] as significant digits and position of the
    point. *)
Definition decimal_digits (s p : Z) : list N * Z :=
  let ds := uint_digits (N.to_uint (Z.to_N s)) in
  (rev (strip_zeros (rev ds)), p + Z.of_nat (List.length ds)).

(** The two decimals of [k] digits next to [m * 2^e], for a value whose
    first digit stands at [10^(n-1)]: the one that reads back as the same
    double, the nearer one if both do, none if neither does. *)
Definition candidates (m e n k : Z) : option (list N * Z) :=
  let p := n - k in
  let '(a, b) := scale 2 m 1 e in
  let '(c, d) := scale 10 a b (- p) in
  let lo := c / d in
  let hi := lo + 1 in
  let reads s := let '(x, y) := scale 10 s 1 p in
                 double_eqb (to_double x y) (Finite m e) in
  let lower := match 2 * (c mod d) ?= d with
               | Lt => true
               | Gt => false
               | Eq => Z.even lo
               end in
  match reads lo, reads hi with
  | true, true => Some (decimal_digits (if lower then lo else hi) p)
  | true, false => Some (decimal_digits lo p)
  | false, true => Some (decimal_digits hi p)
  | false, false => None
  end.

(** The search for the shortest decimal, from [k] digits on; seventeen
    digits name every double. *)
Fixpoint shortest (fuel : nat) (m e n k : Z) : list N * Z :=
  match fuel with
  | O => let '(a, b) := scale 2 m 1 e in
         let '(c, d) := scale 10 a b (- (n - k)) in
         decimal_digits (round_half_even c d) (n - k)
  | S fuel' =>
      match candidates m e n k with
      | Some r => r
      | None => shortest fuel' m e n (k + 1)
      end
  end.

(** The digits [Number::toString] prints for [m * 2^e]: as few as read
    back as the same double, and the decimal nearest to it among those. *)
Definition double_digits (m e : Z) : list N * Z :=
  let '(a, b) := scale 2 m 1 e in
  shortest 16 m e (floor_log10 a b + 1) 1.

(** The Number value of the literal with integer digits [int], fraction
    digits [frac] and exponent [exp].  A literal above [10^310] is beyond
    every double and one below [10^-330] is nearer to zero than to any
    other; they are settled without the arithmetic. *)
Definition make_number (neg : bool) (int frac : list N) (exp : Z) : Number :=
  let all := int ++ frac in
  let sig := strip_zeros all in
  let lead := Z.of_nat (List.length all - List.length sig) in
  let digits := rev (strip_zeros (rev sig)) in
  let n := Z.of_nat (List.length int) + exp - lead in
  match digits with
  | [] => mkNumber neg [] 0
  | _ =>
      if 310 <? n then Infinity neg
      else if n <? -330 then mkNumber neg [] 0
      else
        let '(a, b) := scale 10 (digits_to_Z digits) 1
                             (n - Z.of_nat (List.length digits)) in
        match to_double a b with
        | Overflow => Infinity neg
        | Finite 0 _ => mkNumber neg [] 0
        | Finite m e => let '(ds, n') := double_digits m e in mkNumber neg ds n'
        end
  end.

End Doubles.

(** A number literal: optional minus, integer part without a leading
    zero, optional fraction, optional exponent. *)
Definition parse_int_part (s : JSString) : option (list N * JSString) :=
  match s with
  | c :: rest =>
      if c =? 0x30 then Some ([0], rest)
      else if is_digit c then Some (take_digits s)
      else None
  | [] => None
  end.

Definition parse_frac_part (s : JSString) : option (list N * JSString) :=
  match s with
  | c :: rest =>
      if c =? 0x2E then
        match take_digits rest with
        | ([], _) => None
        | r => Some r
        end
      else Some ([], s)
  | [] => Some ([], s)
  end.

Definition parse_exp_digits (neg : bool) (s : JSString) : option (Z * JSString) :=
  match take_digits s with
  | ([], _) => None
  | (ds, rest) =>
      Some ((if neg then - digits_to_Z ds else digits_to_Z ds)%Z, rest)
  end.

Definition parse_exp_part (s : JSString) : option (Z * JSString) :=
  match s with
  | c :: rest =>
      if (c =? 0x65) || (c =? 0x45) then
        match rest with
        | sign :: rest' =>
            if sign =? 0x2B then parse_exp_digits false rest'
            else if sign =? 0x2D then parse_exp_digits true rest'
            else parse_exp_digits false rest
        | [] => None
        end
      else Some (0%Z, s)
  | [] => Some (0%Z, s)
  end.

Definition parse_number (s : JSString) : option (Number * JSString) :=
  let '(neg, s1) := match s with
                    | c :: rest => if c =? 0x2D then (true, rest) else (false, s)
                    | [] => (false, s)
                    end in
  '(int, s2) <- parse_int_part s1 ;;
  '(frac, s3) <- parse_frac_part s2 ;;
  '(exp, s4) <- parse_exp_part s3 ;;
  Some (make_number neg int frac exp, s4).

Definition expect_prefix (lit : JSString) (s : JSString) : option JSString :=
  if jsstring_eqb (firstn (List.length lit) s) lit
  then Some (skipn (List.length lit) s) else None.

(** Recursive descent over the JSON grammar: a value, the elements of an
    array after its opening bracket, the members of an object after its
    opening brace.  The three bodies take the parsers they call as
    arguments; [parse_value], [parse_elements] and [parse_members] tie
    them together, each call spending one unit of [fuel].  [JSON_parse]
    supplies more fuel than any text can use ([JSON_parse_fuel]). *)
Definition ValueParser := JSString -> option (JSValue * JSString).
Definition ElementsParser :=
  list JSValue -> JSString -> option (list JSValue * JSString).
Definition MembersParser :=
  list (JSString * JSValue) -> JSString
  -> option (list (JSString * JSValue) * JSString).

Definition value_body (elements : ElementsParser) (members : MembersParser)
  : ValueParser :=
  fun s =>
    match s with
    | [] => None
    | c :: rest =>
        if c =? 0x7B then                               (* { *)
          match skip_ws rest with
          | [] => None
          | c' :: rest' =>
              if c' =? 0x7D then Some (JObject [], rest')
              else '(props, r) <- members [] (c' :: rest') ;;
                   Some (JObject props, r)
          end
        else if c =? 0x5B then                          (* [ *)
          match skip_ws rest with
          | [] => None
          | c' :: rest' =>
              if c' =? 0x5D then Some (JArray [], rest')
              else '(elems, r) <- elements [] (c' :: rest') ;;
                   Some (JArray elems, r)
          end
        else if c =? 0x22 then
          '(lit, r) <- parse_string s ;; Some (JString lit, r)
        else if c =? 0x74 then
          r <- expect_prefix (str "true") s ;; Some (JBool true, r)
        else if c =? 0x66 then
          r <- expect_prefix (str "false") s ;; Some (JBool false, r)
        else if c =? 0x6E then
          r <- expect_prefix (str "null") s ;; Some (JNull, r)
        else '(n, r) <- parse_number s ;; Some (JNumber n, r)
    end.

Definition elements_body (value : ValueParser) (elements : ElementsParser)
  : ElementsParser :=
  fun acc s =>
    '(v, r) <- value s ;;
    match skip_ws r with
    | [] => None
    | c :: r' =>
        if c =? 0x2C then elements (v :: acc) (skip_ws r')
        else if c =? 0x5D then Some (rev (v :: acc), r')
        else None
    end.

Definition members_body (value : ValueParser) (members : MembersParser)
  : MembersParser :=
  fun acc s =>
    '(k, r) <- parse_string s ;;
    match skip_ws r with
    | [] => None
    | c :: r1 =>
        if c =? 0x3A then
          '(v, r2) <- value (skip_ws r1) ;;
          let acc' := create_data_property acc k v in
          match skip_ws r2 with
          | [] => None
          | c' :: r3 =>
              if c' =? 0x2C then members acc' (skip_ws r3)
              else if c' =? 0x7D then Some (acc', r3)
              else None
          end
        else None
    end.

Fixpoint parse_value (fuel : nat) (s : JSString) : option (JSValue * JSString) :=
  match fuel with
  | O => None
  | S fuel' =>
      value_body (fun acc x => parse_elements fuel' acc x)
                 (fun acc x => parse_members fuel' acc x) s
  end

with parse_elements (fuel : nat) (acc : list JSValue) (s : JSString)
  : option (list JSValue * JSString) :=
  match fuel with
  | O => None
  | S fuel' =>
      elements_body (fun x => parse_value fuel' x)
                    (fun acc' x => parse_elements fuel' acc' x) acc s
  end

with parse_members (fuel : nat) (acc : list (JSString * JSValue)) (s : JSString)
  : option (list (JSString * JSValue) * JSString) :=
  match fuel with
  | O => None
  | S fuel' =>
      members_body (fun x => parse_value fuel' x)
                   (fun acc' x => parse_members fuel' acc' x) acc s
  end.

Definition parse_fuel (text : JSString) : nat := 2 * List.length text + 2.

(** [JSON.parse(text)]; [None] stands for the SyntaxError it throws. *)
Definition JSON_parse (text : JSString) : option JSValue :=
  '(v, r) <- parse_value (parse_fuel text) (skip_ws text) ;;
  match skip_ws r with
  | [] => Some v
  | _ => None
  end.

(** ** String conversion *)

Definition digit_chars (ds : list N) : JSString := map (fun d => 0x30 + d) ds.

Definition decimal_string (n : N) : JSString :=
  digit_chars (uint_digits (N.to_uint n)).

Definition zeros (n : Z) : JSString := repeat 0x30 (Z.to_nat n).

(** [Number::toString(x)] in radix 10. *)
Definition number_to_string (x : Number) : JSString :=
  match x with
  | Infinity neg => if neg then str "-Infinity" else str "Infinity"
  | mkNumber _ [] _ => str "0"
  | mkNumber neg (d :: ds) n =>
      let digits := d :: ds in
      let k := Z.of_nat (List.length digits) in
      let body :=
        if ((k <=? n) && (n <=? 21))%Z then
          digit_chars digits ++ zeros (n - k)
        else if ((0 <? n) && (n <=? 21))%Z then
          digit_chars (firstn (Z.to_nat n) digits) ++ str "."
            ++ digit_chars (skipn (Z.to_nat n) digits)
        else if ((-6 <? n) && (n <=? 0))%Z then
          str "0." ++ zeros (- n) ++ digit_chars digits
        else
          let e := (n - 1)%Z in
          let sign := if (e <? 0)%Z then str "-" else str "+" in
          let es := decimal_string (Z.abs_N e) in
          match ds with
          | [] => digit_chars [d] ++ str "e" ++ sign ++ es
          | _ => digit_chars [d] ++ str "." ++ digit_chars ds
                   ++ str "e" ++ sign ++ es
          end in
      if neg then str "-" ++ body else body
  end.

Fixpoint join (sep : JSString) (parts : list JSString) : JSString :=
  match parts with
  | [] => []
  | [p] => p
  | p :: rest => p ++ sep ++ join sep rest
  end.

Fixpoint sequence {A} (l : list (option A)) : option (list A) :=
  match l with
  | [] => Some []
  | x :: rest => y <- x ;; ys <- sequence rest ;; Some (y :: ys)
  end.

(** [ToString(v)], as a template literal applies it; [None] stands for
    the TypeError thrown on an object whose own [toString] property (a
    parsed value, never callable) hides [Object.prototype.toString]. *)
Fixpoint ToString (v : JSValue) : option JSString :=
  match v with
  | JUndefined => Some (str "undefined")
  | JNull => Some (str "null")
  | JBool true => Some (str "true")
  | JBool false => Some (str "false")
  | JNumber n => Some (number_to_string n)
  | JString s => Some s
  | JArray elems =>
      parts <- sequence (map (fun e => match e with
                                       | JUndefined | JNull => Some []
                                       | _ => ToString e
                                       end) elems) ;;
      Some (join (str ",") parts)
  | JObject props =>
      match get_own_property props (str "toString") with
      | Some _ => None
      | None => Some (str "[object Object]")
      end
  end.

(** ** JSON.stringify *)

Definition hex_digit (n : N) : N :=
  if n <? 10 then 0x30 + n else 0x61 + (n - 10).

Definition unicode_escape (c : N) : JSString :=
  [0x5C; 0x75; hex_digit (N.shiftr c 12 mod 16); hex_digit (N.shiftr c 8 mod 16);
   hex_digit (N.shiftr c 4 mod 16); hex_digit (c mod 16)].

Definition quote_code_unit (c : N) : JSString :=
  if c =? 0x08 then [0x5C; 0x62]
  else if c =? 0x09 then [0x5C; 0x74]
  else if c =? 0x0A then [0x5C; 0x6E]
  else if c =? 0x0C then [0x5C; 0x66]
  else if c =? 0x0D then [0x5C; 0x72]
  else if c =? 0x22 then [0x5C; 0x22]
  else if c =? 0x5C then [0x5C; 0x5C]
  else if c <? 0x20 then unicode_escape c
  else [c].

Definition is_high_surrogate (c : N) : bool := in_range 0xD800 0xDBFF c.
Definition is_low_surrogate (c : N) : bool := in_range 0xDC00 0xDFFF c.

Fixpoint quote_chars (s : JSString) : JSString :=
  match s with
  | [] => []
  | c :: rest =>
      if is_high_surrogate c then
        match rest with
        | c2 :: rest' =>
            if is_low_surrogate c2 then c :: c2 :: quote_chars rest'
            else unicode_escape c ++ quote_chars rest
        | [] => unicode_escape c
        end
      else if is_low_surrogate c then unicode_escape c ++ quote_chars rest
      else quote_code_unit c ++ quote_chars rest
  end.

(** [QuoteJSONString]. *)
Definition quote (s : JSString) : JSString := [0x22] ++ quote_chars s ++ [0x22].

(** A property key that is an array index: the canonical decimal text of
    an integer below 2^32 - 1. *)
Definition array_index (k : JSString) : option N :=
  match k with
  | [] => None
  | c :: rest =>
      if forallb is_digit k && (negb (c =? 0x30) || is_empty rest)
         && (List.length k <=? 10)%nat then
        let n := Z.to_N (digits_to_Z (map (fun c => c - 0x30) k)) in
        if n <? 4294967295 then Some n else None
      else None
  end.

Fixpoint insert_by_index {A} (i : N) (x : A) (l : list (N * A)) : list (N * A) :=
  match l with
  | [] => [(i, x)]
  | (j, y) :: rest =>
      if i <? j then (i, x) :: l else (j, y) :: insert_by_index i x rest
  end.

(** [OrdinaryOwnPropertyKeys] order: array indices ascending, then the
    other keys in creation order. *)
Definition own_properties {A} (props : list (JSString * A))
  : list (JSString * A) :=
  let indexed :=
    fold_left (fun acc kv => match array_index (fst kv) with
                             | Some i => insert_by_index i kv acc
                             | None => acc
                             end) props [] in
  map snd indexed
  ++ filter (fun kv => match array_index (fst kv) with
                       | Some _ => false
                       | None => true
                       end) props.

(** [JSON.stringify(v)] without replacer or indentation; [None] stands
    for the [undefined] it returns on [undefined]. *)
Fixpoint JSON_stringify (v : JSValue) : option JSString :=
  match v with
  | JUndefined => None
  | JNull => Some (str "null")
  | JBool true => Some (str "true")
  | JBool false => Some (str "false")
  | JNumber (Infinity _) => Some (str "null")
  | JNumber n => Some (number_to_string n)
  | JString s => Some (quote s)
  | JArray elems =>
      let parts := map (fun e => match JSON_stringify e with
                                 | Some t => t
                                 | None => str "null"
                                 end) elems in
      Some (str "[" ++ join (str ",") parts ++ str "]")
  | JObject props =>
      let render := fix render (l : list (JSString * JSValue))
          : list (JSString * option JSString) :=
        match l with
        | [] => []
        | (k, e) :: rest => (k, JSON_stringify e) :: render rest
        end in
      let member := fun kt : JSString * option JSString =>
        match snd kt with
        | Some t => [quote (fst kt) ++ str ":" ++ t]
        | None => []
        end in
      Some (str "{"
              ++ join (str ",") (flat_map member (own_properties (render props)))
              ++ str "}")
  end.

(** ** Application state *)

Inductive Provider := gpt | gemini.

Inductive Role := system | user | assistant.

Record ChatMessage := mkMessage {
  role : Role;
  content : JSString
}.

(** The [useState] cells of [App].  [current] is declared a string, but
    [setCurrent(evt.stage)] stores whatever value the event carries. *)
Record AppState := mkApp {
  provider : Provider;
  messages : list ChatMessage;
  input : JSString;
  loading : bool;
  current : JSValue
}.

Definition setMessages (f : list ChatMessage -> list ChatMessage) (st : AppState) :=
  mkApp st.(provider) (f st.(messages)) st.(input) st.(loading) st.(current).

Definition setInput (v : JSString) (st : AppState) :=
  mkApp st.(provider) st.(messages) v st.(loading) st.(current).

Definition setLoading (v : bool) (st : AppState) :=
  mkApp st.(provider) st.(messages) st.(input) v st.(current).

Definition setCurrent (v : JSValue) (st : AppState) :=
  mkApp st.(provider) st.(messages) st.(input) st.(loading) v.

(** ** Event dispatcher *)

(** [evt.k] for the property names the source reads ([type], [stage],
    [turn], [name], [message], [error]); none of them is defined on a
    built-in prototype.  [None] stands for the TypeError of reading a
    property of [null] or [undefined]. *)
Definition Get (v : JSValue) (k : JSString) : option JSValue :=
  match v with
  | JUndefined | JNull => None
  | JObject props =>
      match get_own_property props k with
      | Some x => Some x
      | None => Some JUndefined
      end
  | _ => Some JUndefined
  end.

(** [v === 'lit']. *)
Definition strict_eq_str (v : JSValue) (lit : JSString) : bool :=
  match v with
  | JString s => jsstring_eqb s lit
  | _ => false
  end.

Definition is_undefined (v : JSValue) : bool :=
  match v with JUndefined => true | _ => false end.

(** [x || ''] for [x] a string or [undefined]. *)
Definition or_empty (x : option JSString) : JSString :=
  match x with
  | Some s => if is_empty s then [] else s
  | None => []
  end.

(** ** The page

    React keeps the cells while the component is mounted.  A setter puts
    its update in the queue of the cell and React runs the queue, in call
    order, when it renders next; the model runs an update when the setter
    is called, which builds the same cells.  When an updater function
    throws, the render throws; the tree has no error boundary, so React
    unmounts it, and the setters called afterwards do nothing.  The cells
    of an unmounted page are no longer shown; the model leaves them as
    they were before the update that threw. *)

Record Page := mkPage {
  cells : AppState;
  mounted : bool
}.

(** A setter called with an updater; [None] stands for an exception
    thrown by the updater. *)
Definition update (f : AppState -> option AppState) (p : Page) : Page :=
  if p.(mounted) then
    match f p.(cells) with
    | Some st => mkPage st true
    | None => mkPage p.(cells) false
    end
  else p.

(** A setter called with a value, or with an updater that cannot
    throw. *)
Definition call (f : AppState -> AppState) (p : Page) : Page :=
  update (fun st => Some (f st)) p.

(** The body of the inner [try] once the line has parsed.  [None] stands
    for a TypeError thrown in the block itself, which the [catch] logs:
    the status labels are evaluated before [setCurrent] is called, so
    such a throw leaves the page as it was.  In the [error] branch the
    template literal stands inside the updater given to [setMessages]:
    it is evaluated when React runs the update, outside the [try], and
    [setCurrent('Error')] has been called by then. *)
Definition dispatch (p : Page) (evt : JSValue) : option Page :=
  type <- Get evt (str "type") ;;
  if strict_eq_str type (str "stage") then
    stage <- Get evt (str "stage") ;;
    label <-
      (if strict_eq_str stage (str "registry_loaded") then
         Some (JString (str "Loaded tool registry"))
       else if strict_eq_str stage (str "model_invoked") then
         turn <- Get evt (str "turn") ;;
         suffix <- (if negb (is_undefined turn) then
                      t <- ToString turn ;; Some (str " (turn " ++ t ++ str ")")
                    else Some []) ;;
         Some (JString (str "Invoking model" ++ suffix))
       else Some stage) ;;
    Some (call (setCurrent label) p)
  else if strict_eq_str type (str "tool_call") then
    name <- Get evt (str "name") ;;
    t <- ToString name ;;
    Some (call (setCurrent (JString (str "Calling " ++ t))) p)
  else if strict_eq_str type (str "tool_result") then
    name <- Get evt (str "name") ;;
    t <- ToString name ;;
    Some (call (setCurrent (JString (t ++ str " done"))) p)
  else if strict_eq_str type (str "final") then
    message <- Get evt (str "message") ;;
    let messageContent :=
      match message with
      | JString s => Some s
      | _ => JSON_stringify message
      end in
    Some (call (setCurrent (JString (str "Completed")))
            (call (setMessages
                     (fun m => m ++ [mkMessage assistant (or_empty messageContent)]))
                  p))
  else if strict_eq_str type (str "error") then
    Some (call (setCurrent (JString (str "Error")))
            (update (fun st =>
                       error <- Get evt (str "error") ;;
                       t <- ToString error ;;
                       Some (setMessages
                               (fun m => m ++ [mkMessage assistant (str "Error: " ++ t)])
                               st))
                    p))
  else Some p.

(** One non-empty line: [JSON.parse] and [dispatch] inside [try], with a
    [catch] that only logs. *)
Definition handle_line_on (p : Page) (line : JSString) : Page :=
  match JSON_parse line with
  | Some evt =>
      match dispatch p evt with
      | Some p' => p'
      | None => p
      end
  | None => p
  end.

(** The cells after one line that reaches a mounted page. *)
Definition handle_line (st : AppState) (line : JSString) : AppState :=
  (handle_line_on (mkPage st true) line).(cells).

(** ** The network

    What one [fetch] of [/api/chat_stream] can give: a rejected promise, a
    response without a body, or a body stream that delivers chunks and
    then either closes or fails.  The HTTP status is not looked at. *)

Record JSError := mkError {
  err_name : JSString;
  err_message : JSString
}.

Inductive StreamEnd :=
| Done
| ReadError (e : JSError).

Inductive Response :=
| FetchRejected (e : JSError)
| NoBody
| Body (chunks : list Chunk) (fin : StreamEnd).

(** ** Frame decoder *)

Lemma indexOf_bound (s : JSString) (c : N) :
  (indexOf s c < Z.of_nat (List.length s))%Z.
Proof.
  induction s as [|x s IH]; simpl; [lia|].
  destruct (x =? c); [lia|].
  destruct (0 <=? indexOf s c)%Z; lia.
Qed.

Lemma slice_from_length (s : JSString) (k : Z) :
  (0 <= k)%Z ->
  List.length (slice_from s k) = (List.length s - Z.to_nat k)%nat.
Proof.
  intros Hk. unfold slice_from, slice, clamp_index.
  destruct (k <? 0)%Z eqn:E; [lia|].
  destruct (Z.of_nat (List.length s) <? 0)%Z eqn:E'; [lia|].
  rewrite length_firstn, length_skipn. lia.
Qed.

Lemma drain_decreases (buffer : JSString) (idx : Z) :
  indexOf buffer LF = idx -> (0 <=? idx)%Z = true ->
  (List.length (slice_from buffer (idx + 1)) < List.length buffer)%nat.
Proof.
  intros <- Hge. apply Z.leb_le in Hge.
  pose proof (indexOf_bound buffer LF).
  rewrite slice_from_length by lia. lia.
Qed.

Section FrameDecoder.

(** The loops are written over the consumer of the lines: [sendMessage]
    runs them with [handle_line_on] on the page. *)
Variable St : Type.
Variable on_line : St -> JSString -> St.

(** The inner loop:
    [while ((idx = buffer.indexOf('\n')) >= 0) { ... }]. *)
Equations drain (st : St) (buffer : JSString) : St * JSString
  by wf (List.length buffer) lt :=
  drain st buffer with inspect (indexOf buffer LF) := {
    | exist _ idx Hidx with inspect (0 <=? idx)%Z := {
      | exist _ true Hge with is_empty (trim (slice buffer 0 idx)) := {
        | true => drain st (slice_from buffer (idx + 1))
        | false => drain (on_line st (trim (slice buffer 0 idx)))
                         (slice_from buffer (idx + 1)) }
      | exist _ false _ => (st, buffer) } }.
Next Obligation. eapply drain_decreases; eauto. Qed.
Next Obligation. eapply drain_decreases; eauto. Qed.

(** The outer loop: [while (true) { const { value, done } = await
    reader.read(); if (done) break; ... }].  The reads of one response
    are the chunks it delivers, followed by the end of the stream or by
    a rejected read.  The result carries the exception that left the
    loop, if any. *)
Fixpoint read_loop (chunks : list Chunk) (fin : StreamEnd)
         (decoder : TextDecoder) (buffer : JSString) (st : St)
  : St * option JSError :=
  match chunks with
  | [] =>
      match fin with
      | Done => (st, None)
      | ReadError e => (st, Some e)
      end
  | value :: rest =>
      let '(decoder', text) := decode decoder value in
      let '(st', buffer') := drain st (buffer ++ text) in
      read_loop rest fin decoder' buffer' st'
  end.

End FrameDecoder.

(** The lines the frame decoder hands to its consumer, in order. *)
Definition frame_lines (chunks : list Chunk) : list JSString :=
  fst (read_loop (fun acc line => acc ++ [line]) chunks Done new_TextDecoder [] []).

(** ** sendMessage *)

(** [Error.prototype.toString]. *)
Definition Error_toString (e : JSError) : JSString :=
  if is_empty e.(err_name) then e.(err_message)
  else if is_empty e.(err_message) then e.(err_name)
  else e.(err_name) ++ str ": " ++ e.(err_message).

(** [`${e?.message || e}`] for a thrown error object. *)
Definition failure_text (e : JSError) : JSString :=
  if is_empty e.(err_message) then Error_toString e else e.(err_message).

(** One call of [sendMessage] against the response the network gives.
    The request body and the scroll into view have no effect on the
    state and are left out. *)
Definition sendMessage_on (p : Page) (res : Response) : Page :=
  let st := p.(cells) in
  if is_empty (trim st.(input)) then p
  else
    let nextMessages := st.(messages) ++ [mkMessage user st.(input)] in
    let p := call (setMessages (fun _ => nextMessages)) p in
    let p := call (setInput []) p in
    let p := call (setLoading true) p in
    let '(p, thrown) :=
      let p := call (setCurrent (JString (str "Queued"))) p in
      match res with
      | FetchRejected e => (p, Some e)
      | NoBody => (p, Some (mkError (str "Error") (str "No stream")))
      | Body chunks fin =>
          read_loop handle_line_on chunks fin new_TextDecoder [] p
      end in
    let p :=
      match thrown with
      | Some e =>
          call (setMessages (fun m => m ++ [mkMessage assistant
                                              (str "Error: " ++ failure_text e)])) p
      | None => p
      end in
    call (setLoading false) p.

(** The cells after a cycle; the handler runs on a mounted page. *)
Definition sendMessage (st : AppState) (res : Response) : AppState :=
  (sendMessage_on (mkPage st true) res).(cells).

(** Whether the page is still mounted after the cycle. *)
Definition survives (st : AppState) (res : Response) : bool :=
  (sendMessage_on (mkPage st true) res).(mounted).

(** ** Reference description of the line framing

    [cut s] gives the newline-terminated segments of [s], in order, and
    the unterminated rest; [complete_lines] trims them and drops the empty
    ones, as the inner loop does before it dispatches. *)

Fixpoint cut (s : JSString) : list JSString * JSString :=
  match s with
  | [] => ([], [])
  | c :: s' =>
      let '(ls, r) := cut s' in
      if c =? LF then ([] :: ls, r)
      else match ls with
           | [] => ([], c :: r)
           | l :: ls' => ((c :: l) :: ls', r)
           end
  end.

Definition complete_lines (s : JSString) : list JSString :=
  filter (fun l => negb (is_empty l)) (map trim (fst (cut s))).

(** The text a fresh decoder produces for a whole byte stream. *)
Definition decoded_text (bytes : Chunk) : JSString :=
  snd (decode new_TextDecoder bytes).

(** The dispatcher run over a sequence of lines that reach a mounted
    page: the cells it leaves. *)
Definition process_lines (lines : list JSString) (st : AppState) : AppState :=
  (fold_left handle_line_on lines (mkPage st true)).(cells).

(** The state [sendMessage] has built when it starts to read: the user
    message appended, the input cleared, the busy flag set and the status
    at "Queued". *)
Definition queued (st : AppState) : AppState :=
  setCurrent (JString (str "Queued"))
    (setLoading true
       (setInput []
          (setMessages (fun _ => st.(messages) ++ [mkMessage user st.(input)]) st))).

(** The [catch] clause of [sendMessage]. *)
Definition on_failure (e : JSError) (st : AppState) : AppState :=
  setMessages (fun m => m ++ [mkMessage assistant (str "Error: " ++ failure_text e)]) st.

(** The exception, if any, that ends the cycle on a response. *)
Definition thrown (res : Response) : option JSError :=
  match res with
  | FetchRejected e => Some e
  | NoBody => Some (mkError (str "Error") (str "No stream"))
  | Body _ Done => None
  | Body _ (ReadError e) => Some e
  end.

(** The lines of a response that reach the dispatcher. *)
Definition lines_of (res : Response) : list JSString :=
  match res with
  | Body chunks _ => frame_lines chunks
  | _ => []
  end.

(** A terminal event is one the dispatcher takes for [final] or [error]. *)
Definition is_terminal_event (evt : JSValue) : bool :=
  match Get evt (str "type") with
  | Some type => strict_eq_str type (str "final") || strict_eq_str type (str "error")
  | None => false
  end.

Definition is_terminal_line (line : JSString) : bool :=
  match JSON_parse line with
  | Some evt => is_terminal_event evt
  | None => false
  end.

(** The messages a cycle added after the user's own, and their number:
    every one of them comes from a [final] event, an [error] event or the
    [catch] clause. *)
Definition appended (st : AppState) (res : Response) : list ChatMessage :=
  skipn (List.length st.(messages) + 1) (sendMessage st res).(messages).

Definition terminal_appends (st : AppState) (res : Response) : nat :=
  List.length (appended st res).

(** The terminal events of a response: its [final] and [error] lines,
    and the failure of the transport. *)
Definition terminal_events (res : Response) : nat :=
  List.length (filter is_terminal_line (lines_of res))
  + match thrown res with Some _ => 1 | None => 0 end.

(** The status after each line of a sequence. *)
Fixpoint page_trace (lines : list JSString) (p : Page) : list JSValue :=
  match lines with
  | [] => []
  | line :: rest =>
      let p' := handle_line_on p line in
      p'.(cells).(current) :: page_trace rest p'
  end.

Definition status_trace (lines : list JSString) (st : AppState) : list JSValue :=
  page_trace lines (mkPage st true).

(** An [error] event whose value has no string form: the updater that
    builds its message throws. *)
Definition unmounts (evt : JSValue) : bool :=
  match Get evt (str "type") with
  | Some type =>
      strict_eq_str type (str "error")
      && match (error <- Get evt (str "error") ;; ToString error) with
         | Some _ => false
         | None => true
         end
  | None => false
  end.

Definition breaks_page (line : JSString) : bool :=
  match JSON_parse line with
  | Some evt => unmounts evt
  | None => false
  end.

(** The lines of a sequence up to the first that breaks the page. *)
Fixpoint live (lines : list JSString) : list JSString :=
  match lines with
  | [] => []
  | line :: rest => if breaks_page line then [] else line :: live rest
  end.

Definition harmless (lines : list JSString) : bool :=
  forallb (fun line => negb (breaks_page line)) lines.

(** The states a decoder can be in: idle, or inside a sequence whose
    code point, once complete, is at least U+0080. *)
Definition decoder_ok (d : TextDecoder) : Prop :=
  d.(upper_boundary) <= 0xBF
  /\ ((d.(bytes_needed) = 0 /\ d.(bytes_seen) = 0)
      \/ (d.(bytes_needed) <> 0
          /\ (d.(code_point) <> 0
              \/ (d.(bytes_seen) + 1 <> d.(bytes_needed)
                  /\ 0x90 <= d.(lower_boundary))))).

(** ** Protocol lines used in the scenarios *)

Definition dquote : JSString := [0x22].

(** A JSON string literal without escapes. *)
Definition jq (s : String.string) : JSString := dquote ++ str s ++ dquote.

Definition jmember (k : String.string) (v : JSString) : JSString :=
  jq k ++ str ":" ++ v.

Definition jobject (members : list JSString) : JSString :=
  str "{" ++ join (str ",") members ++ str "}".

(** The bytes of an ASCII text. *)
Definition ascii_bytes (s : JSString) : Chunk :=
  map (fun c => match Byte.of_N c with Some b => b | None => x00 end) s.

(** The wire form of a sequence of lines: each followed by a newline. *)
Definition wire (lines : list JSString) : Chunk :=
  concat (map (fun l => ascii_bytes (l ++ [LF])) lines).

Definition line_registry_loaded : JSString :=
  jobject [jmember "type" (jq "stage"); jmember "stage" (jq "registry_loaded")].

Definition line_tool_call : JSString :=
  jobject [jmember "type" (jq "tool_call"); jmember "name" (jq "search")].

Definition line_tool_result : JSString :=
  jobject [jmember "type" (jq "tool_result"); jmember "name" (jq "search")].

Definition line_final : JSString :=
  jobject [jmember "type" (jq "final"); jmember "message" (jq "Paris is the capital.")].

Definition line_error : JSString :=
  jobject [jmember "type" (jq "error"); jmember "error" (jq "rate limited")].

Definition line_model_invoked (turn : String.string) : JSString :=
  jobject [jmember "type" (jq "stage"); jmember "stage" (jq "model_invoked");
           jmember "turn" (str turn)].

Definition scenario_lines : list JSString :=
  [line_registry_loaded; line_tool_call; line_tool_result; line_final].

(** A line that carries a [stage] event for [model_invoked] with a turn
    number, and the label the dispatcher builds for it. *)
Definition model_invoked_line (line : JSString) (turn : Number) : Prop :=
  exists evt,
    JSON_parse line = Some evt
    /\ Get evt (str "type") = Some (JString (str "stage"))
    /\ Get evt (str "stage") = Some (JString (str "model_invoked"))
    /\ Get evt (str "turn") = Some (JNumber turn).

Definition turn_label (turn : Number) : JSValue :=
  JString (str "Invoking model (turn " ++ number_to_string turn ++ str ")").

(** A state to start a cycle from: nothing said yet, [text] typed in. *)
Definition fresh (text : String.string) : AppState :=
  mkApp gpt [] (str text) false (JString []).

Definition scenario_state : AppState := fresh "What is the capital of France?".

(** The scenario's bytes in two chunks, cut inside the second line. *)
Definition scenario_chunks : list Chunk :=
  [firstn 50 (wire scenario_lines); skipn 50 (wire scenario_lines)].

(** A final event that carries an object. *)
Definition line_final_object : JSString :=
  jobject [jmember "type" (jq "final");
           jmember "message" (jobject [jmember "city" (jq "Paris");
                                       jmember "rank" (str "1")])].

(** An error event whose value is an object with a [toString] property
    of its own. *)
Definition line_error_object : JSString :=
  jobject [jmember "type" (jq "error");
           jmember "error" (jobject [jmember "toString" (str "1")])].

Definition is_structured (v : JSValue) : bool :=
  match v with
  | JObject _ | JArray _ => true
  | _ => false
  end.

(** ** Values that read back

    The values [JSON.stringify] writes so that [JSON.parse] gives them
    back as they are: no [undefined] inside, object keys distinct and
    none an array index (those are written first, whatever the order of
    creation), and every number the value of its own text, which leaves
    out the infinities and minus zero. *)

Definition number_eqb (a b : Number) : bool :=
  match a, b with
  | mkNumber n1 d1 p1, mkNumber n2 d2 p2 =>
      Bool.eqb n1 n2 && jsstring_eqb d1 d2 && (p1 =? p2)%Z
  | Infinity n1, Infinity n2 => Bool.eqb n1 n2
  | _, _ => false
  end.

Definition reads_back (n : Number) : bool :=
  match parse_number (number_to_string n) with
  | Some (n', []) => number_eqb n n'
  | _ => false
  end.

Definition has_key {A} (props : list (JSString * A)) (k : JSString) : bool :=
  existsb (fun kv => jsstring_eqb (fst kv) k) props.

Fixpoint distinct_keys {A} (props : list (JSString * A)) : bool :=
  match props with
  | [] => true
  | (k, _) :: rest => negb (has_key rest k) && distinct_keys rest
  end.

Definition is_index (k : JSString) : bool :=
  match array_index k with
  | Some _ => true
  | None => false
  end.

Fixpoint plain (v : JSValue) : bool :=
  match v with
  | JUndefined => false
  | JNumber n => reads_back n
  | JArray elems => forallb plain elems
  | JObject props =>
      (fix all (l : list (JSString * JSValue)) : bool :=
         match l with
         | [] => true
         | (k, e) :: rest => negb (is_index k) && plain e && all rest
         end) props
      && distinct_keys props
  | _ => true
  end.

(** The text of a value inside an array or an object. *)
Definition ser (v : JSValue) : JSString :=
  match JSON_stringify v with
  | Some t => t
  | None => str "null"
  end.

Definition member_text (kv : JSString * JSValue) : JSString :=
  quote (fst kv) ++ str ":" ++ ser (snd kv).

(** The parser calls one value takes. *)
Fixpoint need (v : JSValue) : nat :=
  match v with
  | JArray elems =>
      S (S ((fix sum (l : list JSValue) : nat :=
               match l with
               | [] => O
               | e :: rest => S (need e + sum rest)
               end) elems))
  | JObject props =>
      S (S ((fix sum (l : list (JSString * JSValue)) : nat :=
               match l with
               | [] => O
               | (_, e) :: rest => S (need e + sum rest)
               end) props))
  | _ => 1%nat
  end.

Definition need_all (elems : list JSValue) : nat :=
  fold_right (fun e n => S (need e + n)) O elems.

Definition need_props (props : list (JSString * JSValue)) : nat :=
  fold_right (fun kv n => S (need (snd kv) + n)) O props.

Definition plain_props (props : list (JSString * JSValue)) : bool :=
  forallb (fun kv => negb (is_index (fst kv)) && plain (snd kv)) props.

(** What may follow a value in a JSON text: nothing, a comma, or a
    closing bracket or brace. *)
Definition delimited (rest : JSString) : Prop :=
  match rest with
  | [] => True
  | c :: _ => c = 0x2C \/ c = 0x5D \/ c = 0x7D
  end.

(** What ends a number literal. *)
Definition ends_number (rest : JSString) : Prop :=
  match rest with
  | [] => True
  | c :: _ => is_digit c = false /\ (c =? 0x2E) = false
              /\ (c =? 0x65) = false /\ (c =? 0x45) = false
  end.

(** The text of one member, as [JSON.stringify] builds it. *)
Definition render_member (kt : JSString * option JSString) : list JSString :=
  match snd kt with
  | Some t => [quote (fst kt) ++ str ":" ++ t]
  | None => []
  end.

(** The first character of the text of a value: never white space, and
    never a closing bracket or brace. *)
Definition opens_value (c : N) : Prop :=
  is_json_ws c = false /\ (c =? 0x5D) = false /\ (c =? 0x7D) = false.

Definition network_error : JSError :=
  mkError (str "TypeError") (str "network error").

(** ** Vocabulary of the further properties *)

(** A text made of white space only. *)
Definition all_whitespace (s : JSString) : Prop :=
  Forall (fun c => is_js_whitespace c = true) s.

(** The JSON text of an object whose values are strings, as
    [JSON.stringify] writes it. *)
Definition string_member (kv : JSString * JSString) : JSString :=
  quote (fst kv) ++ str ":" ++ quote (snd kv).

Definition string_object (fields : list (JSString * JSString)) : JSString :=
  str "{" ++ join (str ",") (map string_member fields) ++ str "}".

(** The line of an event with one text field, as [JSON.stringify] writes
    it: [{"type":<type>,"<field>":<text>}], the text quoted and escaped. *)
Definition event_line (type field : String.string) (text : JSString) : JSString :=
  string_object [(str "type", str type); (str field, text)].

(** An ASCII text without a newline. *)
Definition plain_line (l : JSString) : Prop :=
  Forall (fun c => c < 128 /\ c <> LF) l.

Definition CR : N := 13.

(** A byte stream with a carriage return put before every newline, and
    the same for a text. *)
Definition crlf (bytes : Chunk) : Chunk :=
  flat_map (fun b => if Byte.eqb b x0a then [x0d; x0a] else [b]) bytes.

Definition with_cr (text : JSString) : JSString :=
  flat_map (fun c => if c =? LF then [CR; LF] else [c]) text.

(** A decoder whose continuation bytes start at 0x80 or above. *)
Definition decoder_high (d : TextDecoder) : Prop :=
  decoder_ok d /\ 0x80 <= d.(lower_boundary).

(** A status React can show as the text of an element: a string or a
    number, nothing for a boolean, [null] or [undefined], the members of
    an array.  It refuses an object, and the render throws. *)
Fixpoint displayable (v : JSValue) : bool :=
  match v with
  | JObject _ => false
  | JArray elems => forallb displayable elems
  | _ => true
  end.

(** A response that leaves the page standing: none of its lines is an
    [error] event whose value has no string form, and every status its
    lines write can be shown. *)
Definition keeps_page (st : AppState) (res : Response) : bool :=
  harmless (lines_of res)
  && forallb displayable (status_trace (lines_of res) st).


(** * The non-streaming chat client

    [sendMessage] of [newchat-frontend/ui/src/main.tsx]: one POST to
    [/api/chat], one JSON body, one reply. *)

Module NewChat.

(** [content] is declared a string; [data.message || ''] stores whatever
    truthy value the body carries. *)
Record ChatMessage := mkMessage {
  role : Role;
  content : JSValue
}.

Record AppState := mkApp {
  provider : Provider;
  messages : list ChatMessage;
  input : JSString;
  loading : bool
}.

Definition setMessages (f : list ChatMessage -> list ChatMessage) (st : AppState) :=
  mkApp st.(provider) (f st.(messages)) st.(input) st.(loading).

Definition setInput (v : JSString) (st : AppState) :=
  mkApp st.(provider) st.(messages) v st.(loading).

Definition setLoading (v : bool) (st : AppState) :=
  mkApp st.(provider) st.(messages) st.(input) v.

(** [ToBoolean] on the values JSON can carry. *)
Definition is_truthy (v : JSValue) : bool :=
  match v with
  | JUndefined | JNull => false
  | JBool b => b
  | JNumber (mkNumber _ [] _) => false
  | JNumber _ => true
  | JString s => negb (is_empty s)
  | JArray _ | JObject _ => true
  end.

(** The page: the cells, and whether the component is still mounted.
    An updater that throws makes the next render throw, and React
    unmounts the tree; setters called afterwards do nothing. *)
Record Page := mkPage {
  cells : AppState;
  mounted : bool
}.

Definition update (f : AppState -> option AppState) (p : Page) : Page :=
  if p.(mounted) then
    match f p.(cells) with
    | Some st => mkPage st true
    | None => mkPage p.(cells) false
    end
  else p.

Definition call (f : AppState -> AppState) (p : Page) : Page :=
  update (fun st => Some (f st)) p.

(** What [res.json()] gives: a rejection (the body is not JSON, or the
    read fails) or the parsed value. *)
Inductive JsonBody :=
| JsonRejected (e : JSError)
| JsonResolved (data : JSValue).

(** What the [fetch] gives: a rejection, or a response with its [ok] flag
    and its body. *)
Inductive Reply :=
| Rejected (e : JSError)
| Responded (ok : bool) (body : JsonBody).

(** The updater of the [ok] branch: [data.message || ''] is evaluated
    when React runs it.  [data.message] and [data.detail] are read with
    [Get]; neither name is defined on a built-in prototype. *)
Definition reply_of (data : JSValue) (m : list ChatMessage)
  : option (list ChatMessage) :=
  message <- Get data (str "message") ;;
  Some (m ++ [mkMessage assistant (if is_truthy message then message else JString [])]).

(** The updater of the other branch, with its template literal. *)
Definition refusal_of (data : JSValue) (m : list ChatMessage)
  : option (list ChatMessage) :=
  detail <- Get data (str "detail") ;;
  t <- ToString (if is_truthy detail then detail else JString (str "unknown")) ;;
  Some (m ++ [mkMessage assistant (JString (str "Error: " ++ t))]).

(** [setMessages] called with an updater that can throw. *)
Definition updateMessages (f : list ChatMessage -> option (list ChatMessage))
  : Page -> Page :=
  update (fun st => ms <- f st.(messages) ;; Some (setMessages (fun _ => ms) st)).

(** The [catch] clause. *)
Definition on_failure (e : JSError) (p : Page) : Page :=
  call (setMessages
          (fun m => m ++ [mkMessage assistant
                            (JString (str "Error: " ++ failure_text e))])) p.

(** One call of [sendMessage], from a mounted page, against what the
    network gives.  The [try] block itself throws only when [fetch] or
    [res.json()] rejects. *)
Definition sendMessage (st : AppState) (res : Reply) : Page :=
  let p := mkPage st true in
  if is_empty (trim st.(input)) then p
  else
    let nextMessages := st.(messages) ++ [mkMessage user (JString st.(input))] in
    let p := call (setMessages (fun _ => nextMessages)) p in
    let p := call (setInput []) p in
    let p := call (setLoading true) p in
    let p :=
      match res with
      | Rejected e => on_failure e p
      | Responded ok body =>
          match body with
          | JsonRejected e => on_failure e p
          | JsonResolved data =>
              if ok then updateMessages (reply_of data) p
              else updateMessages (refusal_of data) p
          end
      end in
    call (setLoading false) p.

(** A reply that reports a failure: no response, no JSON body, or a
    status that is not a success. *)
Definition failed (res : Reply) : Prop :=
  match res with
  | Rejected _ => True
  | Responded _ (JsonRejected _) => True
  | Responded ok (JsonResolved _) => ok = false
  end.

(** A reply whose updater throws: the body is [null], or the [detail] of
    a refusal has no string form. *)
Definition breaks_page (res : Reply) : bool :=
  match res with
  | Responded ok (JsonResolved data) =>
      match (if ok then reply_of data [] else refusal_of data []) with
      | Some _ => false
      | None => true
      end
  | _ => false
  end.

(** A reply that leaves the page standing: its updater does not throw,
    and the content it appends is one React can show. *)
Definition keeps_page (res : Reply) : bool :=
  negb (breaks_page res)
  && match res with
     | Responded true (JsonResolved data) =>
         match Get data (str "message") with
         | Some message => displayable message
         | None => true
         end
     | _ => true
     end.

End NewChat.

(** * The todo application

    [frontend/src/ui/App.tsx]: the token kept in [localStorage], the login
    form and the todo list.  Bodies of responses are taken at the types
    the component declares for them ([Todo], [Todo[]], a token string),
    and for [toggle], whose updater reads the body, also [null]; ids are
    the integers of the [SERIAL] column of [db/init.sql]. *)

Module Todos.

Record Todo := mkTodo {
  id : Z;
  title : JSString;
  isDone : bool;
  createdAt : JSString
}.

(** ** useToken *)

(** [localStorage]: a string, or nothing, under every key. *)
Definition Storage := JSString -> option JSString.

Definition getItem (s : Storage) (k : JSString) : option JSString := s k.

Definition setItem (s : Storage) (k v : JSString) : Storage :=
  fun k' => if jsstring_eqb k' k then Some v else s k'.

Definition removeItem (s : Storage) (k : JSString) : Storage :=
  fun k' => if jsstring_eqb k' k then None else s k'.

(** The browser's storage and the [token] cell of [useToken]; [None] is
    [null]. *)
Record Session := mkSession {
  localStorage : Storage;
  token : option JSString
}.

(** The first render: [useState(() => localStorage.getItem('token'))]. *)
Definition useToken (s : Storage) : Session :=
  mkSession s (getItem s (str "token")).

(** [save], the [setToken] that [useToken] returns. *)
Definition save (t : option JSString) (se : Session) : Session :=
  match t with
  | Some v =>
      if negb (is_empty v)
      then mkSession (setItem se.(localStorage) (str "token") v) t
      else mkSession (removeItem se.(localStorage) (str "token")) t
  | None => mkSession (removeItem se.(localStorage) (str "token")) t
  end.

(** What [App] renders: [token ? <TodoPage token=.../> : <LoginPage/>]. *)
Inductive Page :=
| LoginPage
| TodoPage (token : JSString).

Definition App (se : Session) : Page :=
  match se.(token) with
  | Some v => if negb (is_empty v) then TodoPage v else LoginPage
  | None => LoginPage
  end.

(** ** Responses *)

Inductive JsonBody (A : Type) :=
| JsonRejected (e : JSError)
| JsonResolved (data : A).

Inductive Reply (A : Type) :=
| Rejected (e : JSError)
| Responded (ok : bool) (body : JsonBody A).

Arguments JsonRejected {A} e.
Arguments JsonResolved {A} data.
Arguments Rejected {A} e.
Arguments Responded {A} ok body.

(** ** LoginPage *)

Record LoginState := mkLogin {
  email : JSString;
  password : JSString;
  login_loading : bool;
  error : option JSString
}.

(** The [catch] clause: [setError(err.message || 'Login failed')]. *)
Definition login_error (err : JSError) : JSString :=
  if is_empty err.(err_message) then str "Login failed" else err.(err_message).

(** [handleSubmit] with [onLogin] bound to [save], as [App] binds it.  The
    body of the response is [data.token], absent or a string. *)
Definition handleSubmit (lp : LoginState) (se : Session)
           (res : Reply (option JSString)) : LoginState * Session :=
  let lp := mkLogin lp.(email) lp.(password) true lp.(error) in
  let lp := mkLogin lp.(email) lp.(password) lp.(login_loading) None in
  let caught err :=
    (mkLogin lp.(email) lp.(password) lp.(login_loading) (Some (login_error err)), se) in
  let '(lp, se) :=
    match res with
    | Rejected e => caught e
    | Responded ok body =>
        if negb ok then caught (mkError (str "Error") (str "Invalid credentials"))
        else match body with
             | JsonRejected e => caught e
             | JsonResolved data_token => (lp, save data_token se)
             end
    end in
  (mkLogin lp.(email) lp.(password) false lp.(error), se).

(** ** TodoPage *)

Record TodoState := mkTodos {
  todos : list Todo;
  new_title : JSString;
  loading : bool
}.

(** [loadTodos]: a rejected fetch or an unreadable body leaves the
    function through the exception, before [setLoading(false)]. *)
Definition loadTodos (st : TodoState) (res : Reply (list Todo)) : TodoState :=
  match res with
  | Rejected _ => st
  | Responded ok body =>
      if ok then
        match body with
        | JsonRejected _ => st
        | JsonResolved data => mkTodos data st.(new_title) false
        end
      else mkTodos st.(todos) st.(new_title) false
  end.


(** [toggle(todo)]; [todo] only goes into the request.  The body is a
    todo, or [null]: then [updated.id] throws inside the updater, the
    next render throws with it and React unmounts the page, which a
    result of [None] stands for. *)
Definition toggle (st : TodoState) (todo : Todo) (res : Reply (option Todo))
  : option TodoState :=
  match res with
  | Responded true (JsonResolved (Some updated)) =>
      Some (mkTodos (map (fun t => if (t.(id) =? updated.(id))%Z then updated else t)
                         st.(todos))
                    st.(new_title) st.(loading))
  | Responded true (JsonResolved None) => None
  | _ => Some st
  end.

(** The todo a server that honours the PATCH sends back. *)
Definition flipped (t : Todo) : Todo :=
  mkTodo t.(id) t.(title) (negb t.(isDone)) t.(createdAt).

(** The cells of [TodoPage] at its first render. *)
Definition mounted : TodoState := mkTodos [] [] true.

(** What the list area shows: "Loading...", "No items yet." or the
    items. *)
Inductive ListView :=
| ShowLoading
| ShowNoItems
| ShowItems (items : list Todo).

Definition list_view (st : TodoState) : ListView :=
  if st.(loading) then ShowLoading
  else match st.(todos) with
       | [] => ShowNoItems
       | items => ShowItems items
       end.

(** A reply that does not log in. *)
Definition login_refused (res : Reply (option JSString)) : Prop :=
  match res with
  | Responded true (JsonResolved _) => False
  | _ => True
  end.

End Todos.

(** ** Vocabulary of the lemmas *)

(** What one dispatched event does to a mounted page. *)
Inductive effect (st : AppState) (evt : JSValue) : Page -> Prop :=
| effect_none :
    is_terminal_event evt = false -> unmounts evt = false ->
    effect st evt (mkPage st true)
| effect_status label :
    is_terminal_event evt = false -> unmounts evt = false ->
    effect st evt (mkPage (setCurrent label st) true)
| effect_terminal text label :
    is_terminal_event evt = true -> unmounts evt = false ->
    effect st evt
      (mkPage (setCurrent (JString label)
                 (setMessages (fun m => m ++ [mkMessage assistant text]) st))
              true)
| effect_unmount :
    is_terminal_event evt = true -> unmounts evt = true ->
    effect st evt (mkPage st false).

Definition is_assistant (m : ChatMessage) : Prop := m.(role) = assistant.

(** What a parser leaves is never longer than what it was given. *)
Definition value_shrinks (p : ValueParser) : Prop :=
  forall s v r, p s = Some (v, r) -> (List.length r <= List.length s)%nat.
Definition elements_shrink (p : ElementsParser) : Prop :=
  forall acc s l r, p acc s = Some (l, r) -> (List.length r <= List.length s)%nat.
Definition members_shrink (p : MembersParser) : Prop :=
  forall acc s l r, p acc s = Some (l, r) -> (List.length r <= List.length s)%nat.

(** ** Lemmas on strings *)

Lemma jsstring_eqb_eq (a b : JSString) : jsstring_eqb a b = true <-> a = b.
Proof.
  revert b; induction a as [|x a IH]; intros [|y b]; simpl;
    try (split; (discriminate || reflexivity)).
  rewrite andb_true_iff, N.eqb_eq, IH.
  split; [intros [-> ->]; reflexivity | intros E; injection E; auto].
Qed.

Lemma jsstring_eqb_refl (a : JSString) : jsstring_eqb a a = true.
Proof. apply jsstring_eqb_eq; reflexivity. Qed.

Ltac nonneg_ltb :=
  repeat match goal with
         | |- context [(?a <? 0)%Z] =>
             replace (a <? 0)%Z with false by (symmetry; apply Z.ltb_ge; lia)
         end; cbv iota.

Lemma slice_0_cons (x : N) (s : JSString) (i : Z) :
  (0 <= i)%Z -> slice (x :: s) 0 (i + 1) = x :: slice s 0 i.
Proof.
  intros Hi. unfold slice, clamp_index. simpl List.length. nonneg_ltb.
  replace (Z.min 0 (Z.of_nat (Datatypes.S (List.length s)))) with 0%Z by lia.
  replace (Z.min 0 (Z.of_nat (List.length s))) with 0%Z by lia.
  replace (Z.to_nat (Z.min (i + 1) (Z.of_nat (Datatypes.S (List.length s))) - 0))
    with (Datatypes.S (Z.to_nat (Z.min i (Z.of_nat (List.length s)) - 0))) by lia.
  reflexivity.
Qed.

Lemma slice_0_0 (s : JSString) : slice s 0 0 = [].
Proof.
  unfold slice, clamp_index. nonneg_ltb.
  replace (Z.min 0 (Z.of_nat (List.length s))) with 0%Z by lia.
  reflexivity.
Qed.

Lemma slice_from_0 (s : JSString) : slice_from s 0 = s.
Proof.
  unfold slice_from, slice, clamp_index. nonneg_ltb.
  replace (Z.min 0 (Z.of_nat (List.length s))) with 0%Z by lia.
  rewrite Z.min_id, Z.sub_0_r, Nat2Z.id. simpl. apply firstn_all.
Qed.

Lemma slice_from_cons (x : N) (s : JSString) (k : Z) :
  (0 <= k)%Z -> slice_from (x :: s) (k + 1) = slice_from s k.
Proof.
  intros Hk. unfold slice_from, slice, clamp_index. simpl List.length.
  nonneg_ltb. rewrite !Z.min_id.
  replace (Z.to_nat (Z.min (k + 1) (Z.of_nat (Datatypes.S (List.length s)))))
    with (Datatypes.S (Z.to_nat (Z.min k (Z.of_nat (List.length s))))) by lia.
  simpl skipn. f_equal. lia.
Qed.

Lemma slice_from_1 (x : N) (s : JSString) : slice_from (x :: s) 1 = s.
Proof.
  change 1%Z with (0 + 1)%Z. rewrite slice_from_cons by lia.
  apply slice_from_0.
Qed.

(** ** Lemmas on the frame decoder *)

Lemma cut_no_newline (s : JSString) :
  (indexOf s LF < 0)%Z -> cut s = ([], s).
Proof.
  induction s as [|x s IH]; simpl; [reflexivity|].
  destruct (x =? LF) eqn:E; [lia|].
  destruct (0 <=? indexOf s LF)%Z eqn:E'; [apply Z.leb_le in E'; lia|].
  intros _. rewrite IH by (apply Z.leb_gt in E'; lia). reflexivity.
Qed.

Lemma cut_at_newline (s : JSString) :
  (0 <= indexOf s LF)%Z ->
  cut s = (slice s 0 (indexOf s LF)
             :: fst (cut (slice_from s (indexOf s LF + 1))),
           snd (cut (slice_from s (indexOf s LF + 1)))).
Proof.
  induction s as [|x s IH]; simpl; [lia|].
  destruct (x =? LF) eqn:E.
  - intros _. rewrite slice_0_0. change (0 + 1)%Z with 1%Z.
    rewrite slice_from_1. destruct (cut s); reflexivity.
  - destruct (0 <=? indexOf s LF)%Z eqn:E'; [|lia].
    apply Z.leb_le in E'. intros _.
    rewrite IH by assumption.
    rewrite slice_0_cons by assumption.
    rewrite slice_from_cons by lia. reflexivity.
Qed.

Lemma cut_app (a b : JSString) :
  cut (a ++ b) =
  (fst (cut a) ++ fst (cut (snd (cut a) ++ b)), snd (cut (snd (cut a) ++ b))).
Proof.
  induction a as [|x a IH]; simpl.
  - destruct (cut b); reflexivity.
  - rewrite IH. destruct (cut a) as [la ra]. simpl.
    destruct (x =? LF) eqn:E; simpl.
    + reflexivity.
    + destruct la as [|l la']; simpl.
      * rewrite E. destruct (cut (ra ++ b)) as [[|l' ls'] r']; reflexivity.
      * reflexivity.
Qed.

Lemma complete_lines_app (a b : JSString) :
  complete_lines (a ++ b) =
  complete_lines a ++ complete_lines (snd (cut a) ++ b).
Proof.
  unfold complete_lines. rewrite cut_app. simpl.
  rewrite map_app, filter_app. reflexivity.
Qed.

Lemma cut_rest (s : JSString) : cut (snd (cut s)) = ([], snd (cut s)).
Proof.
  induction s as [|c s IH]; simpl; [reflexivity|].
  destruct (cut s) as [ls r]; simpl in *.
  destruct (c =? LF) eqn:E; simpl; [assumption|].
  destruct ls as [|l ls']; simpl; [|assumption].
  rewrite IH, E. reflexivity.
Qed.

Lemma cut_rest_fst (s : JSString) : fst (cut (snd (cut s))) = [].
Proof. rewrite cut_rest. reflexivity. Qed.

Lemma decode_app (d : TextDecoder) (a b : Chunk) :
  decode d (a ++ b) =
  (fst (decode (fst (decode d a)) b),
   snd (decode d a) ++ snd (decode (fst (decode d a)) b)).
Proof.
  revert d; induction a as [|x a IH]; intros d; simpl.
  - destruct (decode d b); reflexivity.
  - destruct (decode_byte d x) as [d1 out1]. rewrite IH.
    destruct (decode d1 a) as [d2 out2]. simpl.
    rewrite app_assoc. reflexivity.
Qed.

Lemma decode_app_fst (d : TextDecoder) (a b : Chunk) :
  fst (decode d (a ++ b)) = fst (decode (fst (decode d a)) b).
Proof. rewrite decode_app. reflexivity. Qed.

Lemma decode_app_snd (d : TextDecoder) (a b : Chunk) :
  snd (decode d (a ++ b)) = snd (decode d a) ++ snd (decode (fst (decode d a)) b).
Proof. rewrite decode_app. reflexivity. Qed.

Section FrameDecoderFacts.

Variable St : Type.
Variable on_line : St -> JSString -> St.

(** The inner loop hands exactly the complete lines of the buffer to
    the consumer and leaves the unterminated rest. *)
Lemma drain_spec (st : St) (buffer : JSString) :
  drain on_line st buffer =
  (fold_left on_line (complete_lines buffer) st, snd (cut buffer)).
Proof.
  funelim (drain on_line st buffer).
  - pose proof (proj1 (Z.leb_gt _ _) e) as Hlt.
    unfold complete_lines. rewrite cut_no_newline by assumption. reflexivity.
  - rewrite H. pose proof (proj1 (Z.leb_le _ _) Hge) as Hle.
    unfold complete_lines at 2. rewrite (cut_at_newline buffer) by assumption.
    simpl. rewrite Heq. reflexivity.
  - rewrite H. pose proof (proj1 (Z.leb_le _ _) Hge) as Hle.
    unfold complete_lines at 2. rewrite (cut_at_newline buffer) by assumption.
    simpl. rewrite Heq. reflexivity.
Qed.

Lemma read_loop_spec (chunks : list Chunk) (fin : StreamEnd) :
  forall (decoder : TextDecoder) (buffer : JSString) (st : St),
    fst (cut buffer) = [] ->
    read_loop on_line chunks fin decoder buffer st =
    (fold_left on_line
       (complete_lines (buffer ++ snd (decode decoder (concat chunks)))) st,
     match fin with Done => None | ReadError e => Some e end).
Proof.
  induction chunks as [|value rest IH]; intros decoder buffer st Hbuf.
  - simpl. rewrite app_nil_r. unfold complete_lines. rewrite Hbuf.
    destruct fin; reflexivity.
  - simpl. rewrite decode_app_snd.
    destruct (decode decoder value) as [decoder' text] eqn:Hdec.
    rewrite drain_spec. simpl.
    rewrite IH by apply cut_rest_fst.
    rewrite (app_assoc buffer text).
    rewrite (complete_lines_app (buffer ++ text)), fold_left_app.
    reflexivity.
Qed.

End FrameDecoderFacts.

Lemma fold_left_snoc {A} (l acc : list A) :
  fold_left (fun a x => a ++ [x]) l acc = acc ++ l.
Proof.
  revert acc; induction l as [|x l IH]; intros acc; simpl.
  - symmetry; apply app_nil_r.
  - rewrite IH, <- app_assoc. reflexivity.
Qed.

(** The frame decoder depends on the bytes of the stream only. *)
Lemma frame_lines_spec (chunks : list Chunk) :
  frame_lines chunks = complete_lines (decoded_text (concat chunks)).
Proof.
  unfold frame_lines. rewrite read_loop_spec by reflexivity.
  simpl. apply fold_left_snoc.
Qed.

Lemma read_loop_lines {St} (on_line : St -> JSString -> St)
      (chunks : list Chunk) (fin : StreamEnd) (st : St) :
  read_loop on_line chunks fin new_TextDecoder [] st =
  (fold_left on_line (frame_lines chunks) st,
   match fin with Done => None | ReadError e => Some e end).
Proof.
  rewrite read_loop_spec by reflexivity. rewrite frame_lines_spec. reflexivity.
Qed.

(** ** Lemmas on the JSON parser: the fuel is enough *)

Lemma skip_ws_length (s : JSString) :
  (List.length (skip_ws s) <= List.length s)%nat.
Proof.
  induction s as [|c s IH]; simpl; [lia|].
  destruct (is_json_ws c); simpl; lia.
Qed.

Lemma parse_string_chars_length (n : nat) :
  forall s acc x r,
    (List.length s <= n)%nat ->
    parse_string_chars s acc = Some (x, r) ->
    (List.length r < List.length s)%nat.
Proof.
  induction n as [|n IH]; intros s acc x r Hn H.
  - destruct s; [discriminate | simpl in Hn; lia].
  - destruct s as [|c rest]; [discriminate|]. simpl in H, Hn.
    destruct (c =? 0x22); [injection H as _ <-; simpl; lia|].
    destruct (c =? 0x5C).
    + destruct rest as [|e rest']; [discriminate|]. simpl in Hn.
      repeat match type of H with
             | (if ?t then _ else _) = _ => destruct t
             end;
        try discriminate;
        try (apply IH in H; [simpl; lia | lia]).
      destruct rest' as [|h1 [|h2 [|h3 [|h4 rest'']]]]; try discriminate.
      destruct (hex4 h1 h2 h3 h4); [|discriminate].
      apply IH in H; simpl in *; lia.
    + destruct (c <? 0x20); [discriminate|].
      apply IH in H; [simpl; lia | lia].
Qed.

Lemma parse_string_length (s x r : JSString) :
  parse_string s = Some (x, r) -> (List.length r < List.length s)%nat.
Proof.
  destruct s as [|c rest]; [discriminate|]. simpl.
  destruct (c =? 0x22); [|discriminate].
  intros H. apply (@parse_string_chars_length (List.length rest)) in H; [lia|lia].
Qed.

Lemma take_digits_length (s : JSString) :
  (List.length (snd (take_digits s)) <= List.length s)%nat.
Proof.
  induction s as [|c s IH]; simpl; [lia|].
  destruct (is_digit c); [|simpl; lia].
  destruct (take_digits s); simpl in *; lia.
Qed.

Lemma parse_int_part_length (s : JSString) ds r :
  parse_int_part s = Some (ds, r) -> (List.length r <= List.length s)%nat.
Proof.
  destruct s as [|c rest]; [discriminate|]. unfold parse_int_part.
  destruct (c =? 0x30); [intros [= _ <-]; simpl; lia|].
  destruct (is_digit c); [|discriminate].
  intros H. pose proof (take_digits_length (c :: rest)) as L.
  assert (E : take_digits (c :: rest) = (ds, r)) by congruence.
  rewrite E in L. exact L.
Qed.

Lemma parse_frac_part_length (s : JSString) ds r :
  parse_frac_part s = Some (ds, r) -> (List.length r <= List.length s)%nat.
Proof.
  destruct s as [|c rest]; [intros [= _ <-]; lia|]. unfold parse_frac_part.
  destruct (c =? 0x2E); [|intros [= _ <-]; lia].
  pose proof (take_digits_length rest) as L.
  destruct (take_digits rest) as [[|d ds'] r']; [discriminate|].
  intros [= _ <-]. simpl in *. lia.
Qed.

Lemma parse_exp_digits_length (neg : bool) (s : JSString) e r :
  parse_exp_digits neg s = Some (e, r) -> (List.length r <= List.length s)%nat.
Proof.
  unfold parse_exp_digits. pose proof (take_digits_length s) as L.
  destruct (take_digits s) as [[|d ds'] r']; [discriminate|].
  intros [= _ <-]. exact L.
Qed.

Lemma parse_exp_part_length (s : JSString) e r :
  parse_exp_part s = Some (e, r) -> (List.length r <= List.length s)%nat.
Proof.
  destruct s as [|c rest]; [intros [= _ <-]; lia|]. unfold parse_exp_part.
  destruct ((c =? 0x65) || (c =? 0x45)); [|intros [= _ <-]; lia].
  destruct rest as [|sign rest']; [discriminate|].
  destruct (sign =? 0x2B); [|destruct (sign =? 0x2D)];
    intros H; apply parse_exp_digits_length in H; simpl in *; lia.
Qed.

Lemma parse_number_length (s : JSString) n r :
  parse_number s = Some (n, r) -> (List.length r <= List.length s)%nat.
Proof.
  unfold parse_number.
  assert (L : forall neg s1,
             match s with
             | c :: rest => if c =? 0x2D then (true, rest) else (false, s)
             | [] => (false, s)
             end = (neg, s1) -> (List.length s1 <= List.length s)%nat).
  { intros neg s1. destruct s as [|c rest]; [intros [= _ <-]; lia|].
    destruct (c =? 0x2D); intros [= _ <-]; simpl; lia. }
  destruct (match s with
            | c :: rest => if c =? 0x2D then (true, rest) else (false, s)
            | [] => (false, s)
            end) as [neg s1].
  specialize (L neg s1 eq_refl).
  destruct (parse_int_part s1) as [[int s2]|] eqn:E1; [|discriminate].
  destruct (parse_frac_part s2) as [[frac s3]|] eqn:E2; [|discriminate].
  destruct (parse_exp_part s3) as [[e s4]|] eqn:E3; [|discriminate].
  intros [= _ <-].
  apply parse_int_part_length in E1. apply parse_frac_part_length in E2.
  apply parse_exp_part_length in E3. lia.
Qed.

Lemma expect_prefix_length (lit s r : JSString) :
  expect_prefix lit s = Some r -> (List.length r <= List.length s)%nat.
Proof.
  unfold expect_prefix.
  destruct (jsstring_eqb (firstn (List.length lit) s) lit); [|discriminate].
  intros [= <-]. rewrite length_skipn. lia.
Qed.

Lemma value_body_shrinks (pe : ElementsParser) (pm : MembersParser) :
  elements_shrink pe -> members_shrink pm -> value_shrinks (value_body pe pm).
Proof.
  intros He Hm s v r. unfold value_body.
  destruct s as [|c rest]; [discriminate|].
  pose proof (skip_ws_length rest) as W.
  destruct (c =? 0x7B).
  { destruct (skip_ws rest) as [|c' rest'] eqn:K; [discriminate|].
    destruct (c' =? 0x7D); [intros [= _ <-]; simpl in *; lia|].
    destruct (pm [] (c' :: rest')) as [[props r']|] eqn:P; [|discriminate].
    intros [= _ <-]. apply Hm in P. simpl in *. lia. }
  destruct (c =? 0x5B).
  { destruct (skip_ws rest) as [|c' rest'] eqn:K; [discriminate|].
    destruct (c' =? 0x5D); [intros [= _ <-]; simpl in *; lia|].
    destruct (pe [] (c' :: rest')) as [[elems r']|] eqn:P; [|discriminate].
    intros [= _ <-]. apply He in P. simpl in *. lia. }
  destruct (c =? 0x22).
  { destruct (parse_string (c :: rest)) as [[lit r']|] eqn:P; [|discriminate].
    intros [= _ <-]. apply parse_string_length in P. lia. }
  destruct (c =? 0x74).
  { destruct (expect_prefix (str "true") (c :: rest)) as [r'|] eqn:P; [|discriminate].
    intros [= _ <-]. now apply expect_prefix_length in P. }
  destruct (c =? 0x66).
  { destruct (expect_prefix (str "false") (c :: rest)) as [r'|] eqn:P; [|discriminate].
    intros [= _ <-]. now apply expect_prefix_length in P. }
  destruct (c =? 0x6E).
  { destruct (expect_prefix (str "null") (c :: rest)) as [r'|] eqn:P; [|discriminate].
    intros [= _ <-]. now apply expect_prefix_length in P. }
  destruct (parse_number (c :: rest)) as [[n r']|] eqn:P; [|discriminate].
  intros [= _ <-]. now apply parse_number_length in P.
Qed.

Lemma elements_body_shrinks (pv : ValueParser) (pe : ElementsParser) :
  value_shrinks pv -> elements_shrink pe -> elements_shrink (elements_body pv pe).
Proof.
  intros Hv He acc s l r. unfold elements_body.
  destruct (pv s) as [[v r0]|] eqn:P; [|discriminate]. apply Hv in P.
  pose proof (skip_ws_length r0) as W.
  destruct (skip_ws r0) as [|c r'] eqn:K; [discriminate|].
  destruct (c =? 0x2C).
  { intros H. apply He in H. pose proof (skip_ws_length r'). simpl in *. lia. }
  destruct (c =? 0x5D); [|discriminate].
  intros [= _ <-]. simpl in *. lia.
Qed.

Lemma members_body_shrinks (pv : ValueParser) (pm : MembersParser) :
  value_shrinks pv -> members_shrink pm -> members_shrink (members_body pv pm).
Proof.
  intros Hv Hm acc s l r. unfold members_body.
  destruct (parse_string s) as [[k r0]|] eqn:P; [|discriminate].
  apply parse_string_length in P.
  pose proof (skip_ws_length r0) as W.
  destruct (skip_ws r0) as [|c r1] eqn:K; [discriminate|].
  destruct (c =? 0x3A); [|discriminate].
  pose proof (skip_ws_length r1) as W1.
  destruct (pv (skip_ws r1)) as [[v r2]|] eqn:V; [|discriminate]. apply Hv in V.
  pose proof (skip_ws_length r2) as W2.
  destruct (skip_ws r2) as [|c' r3] eqn:K2; [discriminate|].
  destruct (c' =? 0x2C).
  { intros H. apply Hm in H. pose proof (skip_ws_length r3). simpl in *. lia. }
  destruct (c' =? 0x7D); [|discriminate].
  intros [= _ <-]. simpl in *. lia.
Qed.

Lemma parsers_shrink (fuel : nat) :
  value_shrinks (parse_value fuel)
  /\ elements_shrink (parse_elements fuel)
  /\ members_shrink (parse_members fuel).
Proof.
  induction fuel as [|fuel (IHv & IHe & IHm)].
  - repeat split; red; intros; discriminate.
  - split; [|split].
    + apply (value_body_shrinks IHe IHm).
    + apply (elements_body_shrinks IHv IHe).
    + apply (members_body_shrinks IHv IHm).
Qed.

Lemma value_body_ext (pe pe' : ElementsParser) (pm pm' : MembersParser) (s : JSString) :
  (forall acc x, (List.length x < List.length s)%nat -> pe acc x = pe' acc x) ->
  (forall acc x, (List.length x < List.length s)%nat -> pm acc x = pm' acc x) ->
  value_body pe pm s = value_body pe' pm' s.
Proof.
  intros He Hm. unfold value_body.
  destruct s as [|c rest]; [reflexivity|].
  pose proof (skip_ws_length rest) as W.
  destruct (skip_ws rest) as [|c' rest'] eqn:K; [reflexivity|].
  rewrite He, Hm by (simpl in *; lia). reflexivity.
Qed.

Lemma elements_body_ext (pv pv' : ValueParser) (pe pe' : ElementsParser)
      (acc : list JSValue) (s : JSString) :
  value_shrinks pv ->
  pv s = pv' s ->
  (forall a x, (List.length x < List.length s)%nat -> pe a x = pe' a x) ->
  elements_body pv pe acc s = elements_body pv' pe' acc s.
Proof.
  intros Hv Hs He. unfold elements_body. rewrite <- Hs.
  destruct (pv s) as [[v r]|] eqn:P; [|reflexivity]. apply Hv in P.
  pose proof (skip_ws_length r) as W.
  destruct (skip_ws r) as [|c r'] eqn:K; [reflexivity|].
  pose proof (skip_ws_length r') as W'.
  rewrite He by (simpl in *; lia). reflexivity.
Qed.

Lemma members_body_ext (pv pv' : ValueParser) (pm pm' : MembersParser)
      (acc : list (JSString * JSValue)) (s : JSString) :
  value_shrinks pv ->
  (forall x, (List.length x < List.length s)%nat -> pv x = pv' x) ->
  (forall a x, (List.length x < List.length s)%nat -> pm a x = pm' a x) ->
  members_body pv pm acc s = members_body pv' pm' acc s.
Proof.
  intros Hv Hs Hm. unfold members_body.
  destruct (parse_string s) as [[k r]|] eqn:P; [|reflexivity].
  apply parse_string_length in P.
  pose proof (skip_ws_length r) as W.
  destruct (skip_ws r) as [|c r1] eqn:K; [reflexivity|].
  pose proof (skip_ws_length r1) as W1.
  rewrite <- Hs by (simpl in *; lia).
  destruct (pv (skip_ws r1)) as [[v r2]|] eqn:V; [|reflexivity]. apply Hv in V.
  pose proof (skip_ws_length r2) as W2.
  destruct (skip_ws r2) as [|c' r3] eqn:K2; [reflexivity|].
  pose proof (skip_ws_length r3) as W3.
  rewrite Hm by (simpl in *; lia). reflexivity.
Qed.

Lemma parse_value_S (fuel : nat) (s : JSString) :
  parse_value (S fuel) s
  = value_body (parse_elements fuel) (parse_members fuel) s.
Proof. reflexivity. Qed.

Lemma parse_elements_S (fuel : nat) (acc : list JSValue) (s : JSString) :
  parse_elements (S fuel) acc s
  = elements_body (parse_value fuel) (parse_elements fuel) acc s.
Proof. reflexivity. Qed.

Lemma parse_members_S (fuel : nat) (acc : list (JSString * JSValue)) (s : JSString) :
  parse_members (S fuel) acc s
  = members_body (parse_value fuel) (parse_members fuel) acc s.
Proof. reflexivity. Qed.

(** One more unit of fuel changes nothing once there is enough of it. *)
Lemma parsers_stable (fuel : nat) :
  (forall s, (2 * List.length s + 1 <= fuel)%nat ->
             parse_value fuel s = parse_value (S fuel) s)
  /\ (forall acc s, (2 * List.length s + 2 <= fuel)%nat ->
                    parse_elements fuel acc s = parse_elements (S fuel) acc s)
  /\ (forall acc s, (2 * List.length s + 2 <= fuel)%nat ->
                    parse_members fuel acc s = parse_members (S fuel) acc s).
Proof.
  induction fuel as [|fuel (IHv & IHe & IHm)].
  - repeat split; intros; lia.
  - destruct (parsers_shrink fuel) as (Sv & Se & Sm).
    split; [|split].
    + intros s Hs. rewrite (parse_value_S (S fuel)), (parse_value_S fuel).
      apply value_body_ext; intros acc x Hx; [apply IHe | apply IHm]; lia.
    + intros acc s Hs. rewrite (parse_elements_S (S fuel)), (parse_elements_S fuel).
      apply elements_body_ext; [exact Sv | apply IHv; lia |].
      intros a x Hx. apply IHe. lia.
    + intros acc s Hs. rewrite (parse_members_S (S fuel)), (parse_members_S fuel).
      apply members_body_ext; [exact Sv | |].
      * intros x Hx. apply IHv. lia.
      * intros a x Hx. apply IHm. lia.
Qed.

Lemma parse_value_enough (s : JSString) (fuel extra : nat) :
  (2 * List.length s + 1 <= fuel)%nat ->
  parse_value (fuel + extra) s = parse_value fuel s.
Proof.
  intros Hs. induction extra as [|extra IH].
  - rewrite Nat.add_0_r. reflexivity.
  - rewrite Nat.add_succ_r, <- IH. symmetry. apply parsers_stable. lia.
Qed.

(** [JSON_parse] never fails for want of fuel: with any larger supply the
    outcome is the same. *)
Lemma JSON_parse_fuel (text : JSString) (extra : nat) :
  match parse_value (parse_fuel text + extra) (skip_ws text) with
  | Some (v, r) => match skip_ws r with [] => Some v | _ => None end
  | None => None
  end = JSON_parse text.
Proof.
  unfold JSON_parse. rewrite parse_value_enough; [reflexivity|].
  pose proof (skip_ws_length text). unfold parse_fuel. lia.
Qed.

(** ** Lemmas on the dispatcher *)

Lemma strict_eq_str_true (v : JSValue) (lit : JSString) :
  strict_eq_str v lit = true -> v = JString lit.
Proof.
  destruct v; simpl; try discriminate.
  intros H. apply jsstring_eqb_eq in H. congruence.
Qed.

Lemma Get_throws (v : JSValue) (k : JSString) :
  Get v k = None -> forall k', Get v k' = None.
Proof.
  destruct v; simpl; try discriminate; try reflexivity.
  destruct (get_own_property props k); discriminate.
Qed.

Ltac known_type E :=
  apply strict_eq_str_true in E; subst; reflexivity.

Lemma dispatch_effect (st : AppState) (p' : Page) (evt : JSValue) :
  dispatch (mkPage st true) evt = Some p' -> effect st evt p'.
Proof.
  unfold dispatch.
  assert (Hterm : is_terminal_event evt =
                  match Get evt (str "type") with
                  | Some type => strict_eq_str type (str "final")
                                 || strict_eq_str type (str "error")
                  | None => false
                  end) by reflexivity.
  assert (Hun : unmounts evt =
                match Get evt (str "type") with
                | Some type =>
                    strict_eq_str type (str "error")
                    && match (error <- Get evt (str "error") ;; ToString error) with
                       | Some _ => false
                       | None => true
                       end
                | None => false
                end) by reflexivity.
  destruct (Get evt (str "type")) as [type|]; [|discriminate].
  destruct (strict_eq_str type (str "stage")) eqn:E1.
  { assert (is_terminal_event evt = false) by (rewrite Hterm; known_type E1).
    assert (unmounts evt = false) by (rewrite Hun; known_type E1).
    destruct (Get evt (str "stage")) as [stage|]; [|discriminate].
    match goal with
    | |- match ?l with Some _ => _ | None => _ end = _ -> _ =>
        destruct l as [label|]; [|discriminate]
    end.
    intros [= <-]. now apply effect_status. }
  destruct (strict_eq_str type (str "tool_call")) eqn:E2.
  { assert (is_terminal_event evt = false) by (rewrite Hterm; known_type E2).
    assert (unmounts evt = false) by (rewrite Hun; known_type E2).
    destruct (Get evt (str "name")) as [name|]; [|discriminate].
    destruct (ToString name); [|discriminate].
    intros [= <-]. now apply effect_status. }
  destruct (strict_eq_str type (str "tool_result")) eqn:E3.
  { assert (is_terminal_event evt = false) by (rewrite Hterm; known_type E3).
    assert (unmounts evt = false) by (rewrite Hun; known_type E3).
    destruct (Get evt (str "name")) as [name|]; [|discriminate].
    destruct (ToString name); [|discriminate].
    intros [= <-]. now apply effect_status. }
  destruct (strict_eq_str type (str "final")) eqn:E4.
  { assert (is_terminal_event evt = true) by (rewrite Hterm; reflexivity).
    assert (unmounts evt = false) by (rewrite Hun; known_type E4).
    destruct (Get evt (str "message")) as [message|]; [|discriminate].
    intros [= <-]. now apply effect_terminal. }
  destruct (strict_eq_str type (str "error")) eqn:E5.
  { assert (is_terminal_event evt = true) by (rewrite Hterm; reflexivity).
    unfold call, update. cbn [mounted cells].
    destruct (Get evt (str "error")) as [error|].
    - destruct (ToString error) as [t|].
      + intros [= <-]. now apply effect_terminal.
      + intros [= <-]. now apply effect_unmount.
    - intros [= <-]. now apply effect_unmount. }
  intros [= <-]. apply effect_none; [rewrite Hterm | rewrite Hun]; reflexivity.
Qed.

(** An exception the inner [catch] logs does not come from an updater. *)
Lemma dispatch_throws (p : Page) (evt : JSValue) :
  dispatch p evt = None -> unmounts evt = false.
Proof.
  unfold dispatch, unmounts.
  destruct (Get evt (str "type")) as [type|]; [|reflexivity].
  destruct (strict_eq_str type (str "stage")) eqn:E1; [intros _; known_type E1|].
  destruct (strict_eq_str type (str "tool_call")) eqn:E2; [intros _; known_type E2|].
  destruct (strict_eq_str type (str "tool_result")) eqn:E3; [intros _; known_type E3|].
  destruct (strict_eq_str type (str "final")) eqn:E4; [intros _; known_type E4|].
  destruct (strict_eq_str type (str "error")); discriminate.
Qed.

(** Nothing happens on an unmounted page. *)
Lemma update_unmounted (f : AppState -> option AppState) (st : AppState) :
  update f (mkPage st false) = mkPage st false.
Proof. reflexivity. Qed.

Lemma dispatch_unmounted (st : AppState) (evt : JSValue) (p' : Page) :
  dispatch (mkPage st false) evt = Some p' -> p' = mkPage st false.
Proof.
  unfold dispatch.
  destruct (Get evt (str "type")) as [type|]; [|discriminate].
  destruct (strict_eq_str type (str "stage")).
  { destruct (Get evt (str "stage")) as [stage|]; [|discriminate].
    match goal with
    | |- match ?l with Some _ => _ | None => _ end = _ -> _ =>
        destruct l as [label|]; [|discriminate]
    end.
    intros [= <-]. reflexivity. }
  destruct (strict_eq_str type (str "tool_call")).
  { destruct (Get evt (str "name")) as [name|]; [|discriminate].
    destruct (ToString name); [|discriminate].
    intros [= <-]. reflexivity. }
  destruct (strict_eq_str type (str "tool_result")).
  { destruct (Get evt (str "name")) as [name|]; [|discriminate].
    destruct (ToString name); [|discriminate].
    intros [= <-]. reflexivity. }
  destruct (strict_eq_str type (str "final")).
  { destruct (Get evt (str "message")) as [message|]; [|discriminate].
    intros [= <-]. reflexivity. }
  destruct (strict_eq_str type (str "error")); intros [= <-]; reflexivity.
Qed.

Lemma handle_line_on_unmounted (st : AppState) (line : JSString) :
  handle_line_on (mkPage st false) line = mkPage st false.
Proof.
  unfold handle_line_on.
  destruct (JSON_parse line) as [evt|]; [|reflexivity].
  destruct (dispatch (mkPage st false) evt) as [p'|] eqn:D; [|reflexivity].
  eapply dispatch_unmounted; eassumption.
Qed.

(** On a mounted page a line leaves the cells [handle_line] gives, and
    the page mounted unless the line breaks it. *)
Lemma handle_line_on_mounted (st : AppState) (line : JSString) :
  handle_line_on (mkPage st true) line =
  mkPage (handle_line st line) (negb (breaks_page line)).
Proof.
  unfold handle_line, breaks_page, handle_line_on.
  destruct (JSON_parse line) as [evt|]; [|reflexivity].
  destruct (dispatch (mkPage st true) evt) as [p'|] eqn:D.
  - destruct (@dispatch_effect _ _ _ D) as [_ U|label _ U|text label _ U|_ U];
      rewrite U; reflexivity.
  - rewrite (@dispatch_throws _ _ D). reflexivity.
Qed.

Lemma handle_line_breaks (st : AppState) (line : JSString) :
  breaks_page line = true -> handle_line st line = st.
Proof.
  unfold handle_line, breaks_page, handle_line_on.
  destruct (JSON_parse line) as [evt|]; [|discriminate].
  destruct (dispatch (mkPage st true) evt) as [p'|] eqn:D.
  - destruct (@dispatch_effect _ _ _ D) as [_ U|label _ U|text label _ U|_ U];
      rewrite U; (discriminate || reflexivity).
  - rewrite (@dispatch_throws _ _ D). discriminate.
Qed.

Lemma handle_line_event (st : AppState) (line : JSString) (evt : JSValue) :
  JSON_parse line = Some evt ->
  handle_line st line = match dispatch (mkPage st true) evt with
                        | Some p' => p'.(cells)
                        | None => st
                        end.
Proof.
  intros H. unfold handle_line, handle_line_on. rewrite H.
  destruct (dispatch (mkPage st true) evt); reflexivity.
Qed.

Lemma handle_line_unparsed (st : AppState) (line : JSString) :
  JSON_parse line = None -> handle_line st line = st.
Proof. intros H. unfold handle_line, handle_line_on. rewrite H. reflexivity. Qed.


Lemma lines_on_unmounted (lines : list JSString) (st : AppState) :
  fold_left handle_line_on lines (mkPage st false) = mkPage st false.
Proof.
  induction lines as [|line rest IH]; simpl; [reflexivity|].
  rewrite handle_line_on_unmounted. apply IH.
Qed.

(** A sequence of lines on a mounted page: the lines up to the first
    that breaks the page take effect. *)
Lemma lines_on_mounted (lines : list JSString) :
  forall st,
    fold_left handle_line_on lines (mkPage st true) =
    mkPage (fold_left handle_line (live lines) st) (harmless lines).
Proof.
  induction lines as [|line rest IH]; intros st; simpl; [reflexivity|].
  rewrite handle_line_on_mounted.
  destruct (breaks_page line) eqn:B; simpl.
  - rewrite lines_on_unmounted, handle_line_breaks by assumption. reflexivity.
  - apply IH.
Qed.

Lemma process_lines_live (lines : list JSString) (st : AppState) :
  process_lines lines st = fold_left handle_line (live lines) st.
Proof. unfold process_lines. rewrite lines_on_mounted. reflexivity. Qed.

Lemma live_harmless (lines : list JSString) :
  harmless lines = true -> live lines = lines.
Proof.
  induction lines as [|line rest IH]; simpl; [reflexivity|].
  destruct (breaks_page line); simpl; [discriminate|].
  intros H. rewrite IH by assumption. reflexivity.
Qed.

Lemma process_lines_harmless (lines : list JSString) (st : AppState) :
  harmless lines = true -> process_lines lines st = fold_left handle_line lines st.
Proof. intros H. rewrite process_lines_live, live_harmless by assumption. reflexivity. Qed.

Lemma process_lines_cons (line : JSString) (lines : list JSString) (st : AppState) :
  breaks_page line = false ->
  process_lines (line :: lines) st = process_lines lines (handle_line st line).
Proof. intros B. rewrite !process_lines_live. simpl. rewrite B. reflexivity. Qed.

Lemma live_terminal (lines : list JSString) :
  (List.length (filter is_terminal_line (live lines))
   <= List.length (filter is_terminal_line lines))%nat.
Proof.
  induction lines as [|line rest IH]; simpl; [lia|].
  destruct (breaks_page line); simpl; [lia|].
  destruct (is_terminal_line line); simpl; lia.
Qed.


(** One line adds nothing to the transcript, or one assistant message if
    it is a terminal line. *)
Lemma handle_line_messages (st : AppState) (line : JSString) :
  exists ms,
    (handle_line st line).(messages) = st.(messages) ++ ms
    /\ (List.length ms <= if is_terminal_line line then 1 else 0)%nat
    /\ Forall is_assistant ms.
Proof.
  unfold handle_line, handle_line_on, is_terminal_line.
  destruct (JSON_parse line) as [evt|].
  - destruct (dispatch (mkPage st true) evt) as [p'|] eqn:D.
    + destruct (@dispatch_effect _ _ _ D) as [Ht _|label Ht _|text label Ht _|Ht _];
        rewrite Ht.
      * exists []. simpl. rewrite app_nil_r. auto.
      * exists []. simpl. rewrite app_nil_r. auto.
      * exists [mkMessage assistant text]. simpl.
        repeat split; auto. constructor; [reflexivity|constructor].
      * exists []. simpl. rewrite app_nil_r. auto.
    + exists []. simpl. rewrite app_nil_r. repeat split; auto.
      destruct (is_terminal_event evt); lia.
  - exists []. simpl. rewrite app_nil_r. auto.
Qed.

Lemma handle_line_frame (st : AppState) (line : JSString) :
  (handle_line st line).(provider) = st.(provider)
  /\ (handle_line st line).(input) = st.(input)
  /\ (handle_line st line).(loading) = st.(loading).
Proof.
  unfold handle_line, handle_line_on.
  destruct (JSON_parse line) as [evt|]; [|auto].
  destruct (dispatch (mkPage st true) evt) as [p'|] eqn:D; [|auto].
  destruct (@dispatch_effect _ _ _ D); auto.
Qed.

Lemma fold_lines_messages (lines : list JSString) :
  forall st, exists ms,
    (fold_left handle_line lines st).(messages) = st.(messages) ++ ms
    /\ (List.length ms <= List.length (filter is_terminal_line lines))%nat
    /\ Forall is_assistant ms.
Proof.
  induction lines as [|line rest IH]; intros st; simpl.
  - exists []. rewrite app_nil_r. auto.
  - destruct (handle_line_messages st line) as (ms1 & E1 & L1 & A1).
    destruct (IH (handle_line st line)) as (ms2 & E2 & L2 & A2).
    exists (ms1 ++ ms2). rewrite E2, E1, app_assoc.
    repeat split; [|apply Forall_app; auto].
    rewrite length_app.
    destruct (is_terminal_line line); simpl; lia.
Qed.

Lemma fold_lines_frame (lines : list JSString) :
  forall st,
    (fold_left handle_line lines st).(provider) = st.(provider)
    /\ (fold_left handle_line lines st).(input) = st.(input)
    /\ (fold_left handle_line lines st).(loading) = st.(loading).
Proof.
  induction lines as [|line rest IH]; intros st; simpl; [auto|].
  destruct (IH (handle_line st line)) as (P & I & L).
  destruct (handle_line_frame st line) as (P' & I' & L').
  rewrite P, I, L. auto.
Qed.

Lemma process_lines_messages (lines : list JSString) :
  forall st, exists ms,
    (process_lines lines st).(messages) = st.(messages) ++ ms
    /\ (List.length ms <= List.length (filter is_terminal_line lines))%nat
    /\ Forall is_assistant ms.
Proof.
  intros st. rewrite process_lines_live.
  destruct (fold_lines_messages (live lines) st) as (ms & E & L & A).
  exists ms. pose proof (live_terminal lines). repeat split; auto. lia.
Qed.

Lemma process_lines_frame (lines : list JSString) :
  forall st,
    (process_lines lines st).(provider) = st.(provider)
    /\ (process_lines lines st).(input) = st.(input)
    /\ (process_lines lines st).(loading) = st.(loading).
Proof. intros st. rewrite process_lines_live. apply fold_lines_frame. Qed.

(** [sendMessage] as prologue, dispatch of the framed lines, epilogue. *)
Lemma sendMessage_on_cycle (st : AppState) (res : Response) :
  is_empty (trim st.(input)) = false ->
  sendMessage_on (mkPage st true) res =
  call (setLoading false)
    (match thrown res with
     | Some e =>
         call (on_failure e)
              (fold_left handle_line_on (lines_of res) (mkPage (queued st) true))
     | None => fold_left handle_line_on (lines_of res) (mkPage (queued st) true)
     end).
Proof.
  intros Hin. unfold sendMessage_on. cbn [cells]. rewrite Hin.
  destruct res as [e| |chunks fin]; try reflexivity.
  unfold call at 2 3 4 5. unfold update. cbn [mounted cells].
  fold (queued st). rewrite read_loop_lines.
  destruct fin; reflexivity.
Qed.

(** A cycle none of whose lines breaks the page. *)
Lemma sendMessage_cycle (st : AppState) (res : Response) :
  is_empty (trim st.(input)) = false ->
  harmless (lines_of res) = true ->
  sendMessage st res =
  setLoading false
    (match thrown res with
     | Some e => on_failure e (process_lines (lines_of res) (queued st))
     | None => process_lines (lines_of res) (queued st)
     end).
Proof.
  intros Hin Hh. unfold sendMessage, process_lines.
  rewrite sendMessage_on_cycle by assumption.
  rewrite lines_on_mounted, Hh.
  destruct (thrown res); reflexivity.
Qed.

(** A cycle one of whose lines breaks the page: the epilogue has no
    effect. *)
Lemma sendMessage_broken (st : AppState) (res : Response) :
  is_empty (trim st.(input)) = false ->
  harmless (lines_of res) = false ->
  sendMessage st res = process_lines (lines_of res) (queued st).
Proof.
  intros Hin Hh. unfold sendMessage, process_lines.
  rewrite sendMessage_on_cycle by assumption.
  rewrite lines_on_mounted, Hh.
  destruct (thrown res); reflexivity.
Qed.

Lemma survives_spec (st : AppState) (res : Response) :
  is_empty (trim st.(input)) = false ->
  survives st res = harmless (lines_of res).
Proof.
  intros Hin. unfold survives.
  rewrite sendMessage_on_cycle by assumption.
  rewrite lines_on_mounted.
  destruct (thrown res), (harmless (lines_of res)); reflexivity.
Qed.

(** The transcript after a cycle: what it was, the user's message, what
    the dispatcher added, and the failure message if the transport
    failed while the page was mounted. *)
Lemma sendMessage_messages (st : AppState) (res : Response) :
  is_empty (trim st.(input)) = false ->
  exists ms,
    (process_lines (lines_of res) (queued st)).(messages)
      = (st.(messages) ++ [mkMessage user st.(input)]) ++ ms
    /\ (List.length ms <= List.length (filter is_terminal_line (lines_of res)))%nat
    /\ Forall is_assistant ms
    /\ (sendMessage st res).(messages)
       = st.(messages) ++ [mkMessage user st.(input)] ++ ms
           ++ (if harmless (lines_of res) then
                 match thrown res with
                 | Some e => [mkMessage assistant (str "Error: " ++ failure_text e)]
                 | None => []
                 end
               else []).
Proof.
  intros Hin.
  destruct (process_lines_messages (lines_of res) (queued st)) as (ms & E & L & A).
  exists ms. simpl in E. repeat split; auto.
  destruct (harmless (lines_of res)) eqn:Hh.
  - rewrite sendMessage_cycle by assumption.
    destruct (thrown res); simpl; rewrite E.
    + rewrite <- !app_assoc. reflexivity.
    + rewrite app_nil_r, <- !app_assoc. reflexivity.
  - rewrite sendMessage_broken by assumption.
    rewrite E, app_nil_r, <- !app_assoc. reflexivity.
Qed.

Lemma skipn_app_exact {A} (l1 l2 : list A) (n : nat) :
  n = List.length l1 -> skipn n (l1 ++ l2) = l2.
Proof.
  intros ->. rewrite skipn_app, skipn_all, Nat.sub_diag. reflexivity.
Qed.

Lemma appended_spec (st : AppState) (res : Response) :
  is_empty (trim st.(input)) = false ->
  exists ms,
    (List.length ms <= List.length (filter is_terminal_line (lines_of res)))%nat
    /\ Forall is_assistant ms
    /\ appended st res
       = ms ++ (if harmless (lines_of res) then
                  match thrown res with
                  | Some e => [mkMessage assistant (str "Error: " ++ failure_text e)]
                  | None => []
                  end
                else []).
Proof.
  intros Hin.
  destruct (sendMessage_messages st res Hin) as (ms & _ & L & A & E).
  exists ms. split; [assumption|]. split; [assumption|].
  unfold appended. rewrite E.
  change (st.(messages) ++ [mkMessage user st.(input)] ++ ?x)
    with (st.(messages) ++ [mkMessage user st.(input)] ++ x).
  rewrite (app_assoc st.(messages)).
  apply skipn_app_exact. rewrite length_app. reflexivity.
Qed.

Lemma sendMessage_blank (st : AppState) (res : Response) :
  is_empty (trim st.(input)) = true -> sendMessage st res = st.
Proof.
  intros Hin. unfold sendMessage, sendMessage_on. cbn [cells]. rewrite Hin.
  reflexivity.
Qed.

Lemma appended_blank (st : AppState) (res : Response) :
  is_empty (trim st.(input)) = true -> appended st res = [].
Proof.
  intros Hin. unfold appended. rewrite sendMessage_blank by assumption.
  apply skipn_all2. lia.
Qed.

(** The terminal appends of a cycle never outnumber the terminal events
    of its response. *)
Lemma terminal_appends_le_events (st : AppState) (res : Response) :
  (terminal_appends st res <= terminal_events res)%nat.
Proof.
  unfold terminal_appends, terminal_events.
  destruct (is_empty (trim st.(input))) eqn:Hin.
  - rewrite appended_blank by assumption. simpl. lia.
  - destruct (appended_spec st res Hin) as (ms & L & _ & ->).
    rewrite length_app.
    destruct (harmless (lines_of res)), (thrown res); simpl; lia.
Qed.

(** ** Lemmas on the text decoder *)

Lemma lead_bits (b : byte) :
  (in_range 0xC2 0xDF (Byte.to_N b) = true -> N.land (Byte.to_N b) 0x1F <> 0)
  /\ (in_range 0xE0 0xEF (Byte.to_N b) = true ->
      (Byte.to_N b =? 0xE0) = false -> N.land (Byte.to_N b) 0xF <> 0)
  /\ (in_range 0xF0 0xF4 (Byte.to_N b) = true ->
      (Byte.to_N b =? 0xF0) = false -> N.land (Byte.to_N b) 0x7 <> 0)
  /\ (in_range 0x90 0xBF (Byte.to_N b) = true -> N.land (Byte.to_N b) 0x3F <> 0).
Proof.
  destruct b; vm_compute; repeat split; intros; discriminate.
Qed.

Lemma shifted_in (cp y : N) :
  cp <> 0 -> N.shiftr (N.lor (N.shiftl cp 6) y) 6 <> 0.
Proof.
  intros Hcp H. rewrite N.shiftr_lor, N.shiftr_shiftl_l in H by reflexivity.
  change (6 - 6) with 0 in H. rewrite N.shiftl_0_r in H.
  apply N.lor_eq_0_l in H. contradiction.
Qed.

Lemma shifted_not_lf (v : N) : N.shiftr v 6 <> 0 -> v <> LF /\ v <> 0.
Proof. intros H; split; intros ->; apply H; reflexivity. Qed.

Lemma utf16_encode_no_lf (cp : N) : cp <> LF -> ~ In LF (utf16_encode cp).
Proof.
  intros Hcp. unfold utf16_encode. destruct (cp <=? 0xFFFF).
  - intros [H|[]]. congruence.
  - intros [H|[H|[]]]; unfold LF in H; lia.
Qed.

Lemma serialize_output_no_lf (cps : list N) :
  forall seen, Forall (fun cp => cp <> LF) cps ->
               ~ In LF (snd (serialize_output seen cps)).
Proof.
  induction cps as [|cp rest IH]; intros seen Hall; simpl; [tauto|].
  inversion Hall as [|? ? Hcp Hrest]; subst.
  destruct (negb seen && (cp =? 0xFEFF)); [now apply IH|].
  specialize (IH true Hrest). destruct (serialize_output true rest) as [s' out].
  simpl in *. intros Hin. apply in_app_or in Hin as [Hin|Hin]; [|tauto].
  revert Hin. now apply utf16_encode_no_lf.
Qed.

Lemma byte_not_lf (b : byte) : b <> x0a -> Byte.to_N b <> LF.
Proof.
  intros Hb H. apply Hb.
  pose proof (Byte.of_to_N b) as E. rewrite H in E.
  change (Byte.of_N LF) with (Some x0a) in E. congruence.
Qed.

Lemma in_range_bounds (lo hi b : N) :
  in_range lo hi b = true -> lo <= b /\ b <= hi.
Proof.
  unfold in_range. rewrite andb_true_iff, !N.leb_le. tauto.
Qed.

Lemma in_range_widen (lo hi lo' hi' b : N) :
  in_range lo hi b = true -> lo' <= lo -> hi <= hi' -> in_range lo' hi' b = true.
Proof.
  intros H Hlo Hhi. apply in_range_bounds in H.
  unfold in_range. rewrite andb_true_iff, !N.leb_le. lia.
Qed.

Lemma utf8_lead_bom (d : TextDecoder) (n : N) :
  (fst (utf8_lead d n)).(bom_seen) = d.(bom_seen).
Proof.
  unfold utf8_lead.
  repeat match goal with
         | |- context [if in_range ?lo ?hi n then _ else _] =>
             destruct (in_range lo hi n)
         end; reflexivity.
Qed.

(** A lead byte taken in the idle state. *)
Lemma utf8_lead_ok (cp lower upper : N) (bom : bool) (b : byte) :
  upper <= 0xBF ->
  decoder_ok (fst (utf8_lead (mkDecoder cp 0 0 lower upper bom) (Byte.to_N b)))
  /\ (b <> x0a ->
      Forall (fun c => c <> LF)
             (snd (utf8_lead (mkDecoder cp 0 0 lower upper bom) (Byte.to_N b)))).
Proof.
  intros Hup. unfold utf8_lead.
  destruct (lead_bits b) as (B2 & B3 & B4 & _).
  destruct (in_range 0x00 0x7F (Byte.to_N b)) eqn:R1.
  { split.
    - split; [assumption|]. left. split; reflexivity.
    - intros Hb. constructor; [now apply byte_not_lf | constructor]. }
  destruct (in_range 0xC2 0xDF (Byte.to_N b)) eqn:R2.
  { split; [|constructor].
    split; [assumption|]. right. split; [discriminate|]. left. now apply B2. }
  destruct (in_range 0xE0 0xEF (Byte.to_N b)) eqn:R3.
  { split; [|constructor]. simpl.
    split; [destruct (Byte.to_N b =? 0xED); [discriminate | assumption]|].
    right. split; [discriminate|]. simpl.
    destruct (Byte.to_N b =? 0xE0) eqn:E.
    - right. split; discriminate.
    - left. now apply B3. }
  destruct (in_range 0xF0 0xF4 (Byte.to_N b)) eqn:R4.
  { split; [|constructor]. simpl.
    split; [destruct (Byte.to_N b =? 0xF4); [discriminate | assumption]|].
    right. split; [discriminate|]. simpl.
    destruct (Byte.to_N b =? 0xF0) eqn:E.
    - right. split; discriminate.
    - left. now apply B4. }
  split.
  - split; [assumption|]. left. split; reflexivity.
  - intros _. constructor; [discriminate | constructor].
Qed.

Lemma utf8_handler_ok (d : TextDecoder) (b : byte) :
  decoder_ok d ->
  decoder_ok (fst (utf8_handler d (Byte.to_N b)))
  /\ (b <> x0a -> Forall (fun c => c <> LF) (snd (utf8_handler d (Byte.to_N b))))
  /\ (fst (utf8_handler d (Byte.to_N b))).(bom_seen) = d.(bom_seen).
Proof.
  destruct d as [cp seen needed lower upper bom].
  intros [Hup Hst]. simpl in Hup, Hst. unfold utf8_handler. simpl.
  destruct (needed =? 0) eqn:N0.
  { apply N.eqb_eq in N0. destruct Hst as [[_ ->]|[Hne _]]; [|contradiction].
    subst needed.
    destruct (@utf8_lead_ok cp lower upper bom b Hup) as [A B].
    split; [exact A|]. split; [exact B|]. apply utf8_lead_bom. }
  apply N.eqb_neq in N0.
  destruct Hst as [[-> _]|[_ Hcp]]; [contradiction|].
  destruct (in_range lower upper (Byte.to_N b)) eqn:R; simpl.
  - assert (Hnew : N.lor (N.shiftl cp 6) (N.land (Byte.to_N b) 0x3F) <> 0
                   /\ (cp <> 0 ->
                       N.lor (N.shiftl cp 6) (N.land (Byte.to_N b) 0x3F) <> LF)).
    { split.
      - destruct Hcp as [Hcp|[_ Hlow]].
        + apply (@shifted_not_lf _ (@shifted_in cp _ Hcp)).
        + intros H. apply N.lor_eq_0_iff in H as [_ H].
          destruct (lead_bits b) as (_ & _ & _ & B5).
          apply B5; [|assumption].
          eapply in_range_widen; eauto.
      - intros Hcp'. apply (@shifted_not_lf _ (@shifted_in cp _ Hcp')). }
    destruct Hnew as [Hnz Hlf].
    destruct (seen + 1 =? needed) eqn:Hfin; simpl.
    + apply N.eqb_eq in Hfin.
      split; [|split; [|reflexivity]].
      * split; [discriminate|]. left. split; reflexivity.
      * intros _. constructor; [|constructor].
        apply Hlf. destruct Hcp as [Hcp|[Hcp _]]; [assumption|contradiction].
    + split; [|split; [constructor|reflexivity]].
      split; [discriminate|]. right. split; [assumption|]. left. assumption.
  - destruct (@utf8_lead_ok 0 0x80 0xBF bom b) as [A B]; [discriminate|].
    pose proof (utf8_lead_bom (mkDecoder 0 0 0 0x80 0xBF bom) (Byte.to_N b)) as C.
    destruct (utf8_lead (mkDecoder 0 0 0 0x80 0xBF bom) (Byte.to_N b))
      as [d1 out] eqn:L.
    simpl in *. split; [exact A|]. split; [|exact C].
    intros Hb. constructor; [discriminate | now apply B].
Qed.

Lemma decode_byte_ok (d : TextDecoder) (b : byte) :
  decoder_ok d ->
  decoder_ok (fst (decode_byte d b))
  /\ (b <> x0a -> ~ In LF (snd (decode_byte d b))).
Proof.
  intros Hd. destruct (@utf8_handler_ok d b Hd) as (A & B & _).
  unfold decode_byte.
  destruct (utf8_handler d (Byte.to_N b)) as [d1 cps]. simpl in A, B.
  pose proof (@serialize_output_no_lf cps (bom_seen d1)) as C.
  destruct (serialize_output (bom_seen d1) cps) as [seen out]. simpl in *.
  split; [|intros Hb; apply C, B, Hb].
  destruct d1; exact A.
Qed.

Lemma decode_ok (bytes : Chunk) :
  forall d, decoder_ok d ->
            decoder_ok (fst (decode d bytes))
            /\ (~ In x0a bytes -> ~ In LF (snd (decode d bytes))).
Proof.
  induction bytes as [|b rest IH]; intros d Hd; simpl; [tauto|].
  destruct (@decode_byte_ok d b Hd) as [A B].
  destruct (decode_byte d b) as [d1 out1]. simpl in A, B.
  destruct (IH d1 A) as [A' B'].
  destruct (decode d1 rest) as [d2 out2]. simpl in *.
  split; [exact A'|].
  intros Hno Hin. apply in_app_or in Hin as [Hin|Hin].
  - apply B in Hin; [assumption|]. intros ->. apply Hno. now left.
  - apply B' in Hin; [assumption|]. intros H. apply Hno. now right.
Qed.

Lemma new_TextDecoder_ok : decoder_ok new_TextDecoder.
Proof. split; [discriminate|]. left. split; reflexivity. Qed.

Lemma cut_no_lf (s : JSString) : ~ In LF s -> cut s = ([], s).
Proof.
  induction s as [|c s IH]; simpl; [reflexivity|].
  intros Hno. rewrite IH by tauto.
  destruct (c =? LF) eqn:E; [|reflexivity].
  apply N.eqb_eq in E. tauto.
Qed.

Lemma cut_rest_no_lf (s : JSString) : ~ In LF (snd (cut s)).
Proof.
  induction s as [|c s IH]; simpl; [tauto|].
  destruct (cut s) as [ls r]. simpl in IH.
  destruct (c =? LF) eqn:E; simpl; [assumption|].
  destruct ls; simpl; [|assumption].
  apply N.eqb_neq in E. intros [H|H]; [congruence | tauto].
Qed.

(** Text without a newline, appended to a text, adds no line. *)
Lemma complete_lines_tail (s t : JSString) :
  ~ In LF t -> complete_lines (s ++ t) = complete_lines s.
Proof.
  intros Ht. rewrite complete_lines_app.
  unfold complete_lines at 2. rewrite cut_no_lf.
  - simpl. apply app_nil_r.
  - intros Hin. apply in_app_or in Hin as [Hin|Hin]; [|tauto].
    revert Hin. apply cut_rest_no_lf.
Qed.

(** Bytes without a newline, appended to a stream, add no line. *)
Lemma frame_lines_tail (chunks chunks' : list Chunk) (rest : Chunk) :
  concat chunks' = concat chunks ++ rest ->
  ~ In x0a rest ->
  frame_lines chunks' = frame_lines chunks.
Proof.
  intros Hcat Hno. rewrite !frame_lines_spec, Hcat.
  unfold decoded_text. rewrite decode_app_snd.
  apply complete_lines_tail.
  apply decode_ok; [|assumption].
  apply decode_ok, new_TextDecoder_ok.
Qed.

(** ** Lemmas on the JSON parser: string literals *)

Lemma hex_value_digit (n : N) : n < 16 -> hex_value (hex_digit n) = Some n.
Proof.
  intros Hn. unfold hex_digit, hex_value, in_range.
  destruct (n <? 10) eqn:E.
  - apply N.ltb_lt in E.
    replace (0x30 <=? 0x30 + n) with true by (symmetry; apply N.leb_le; lia).
    replace (0x30 + n <=? 0x39) with true by (symmetry; apply N.leb_le; lia).
    cbn [andb]. f_equal. lia.
  - apply N.ltb_ge in E.
    replace (0x61 + (n - 10) <=? 0x39) with false by (symmetry; apply N.leb_gt; lia).
    replace (0x61 + (n - 10) <=? 0x46) with false by (symmetry; apply N.leb_gt; lia).
    rewrite !andb_false_r.
    replace (0x61 <=? 0x61 + (n - 10)) with true by (symmetry; apply N.leb_le; lia).
    replace (0x61 + (n - 10) <=? 0x66) with true by (symmetry; apply N.leb_le; lia).
    cbn [andb]. f_equal. lia.
Qed.

Lemma hex4_escape (c : N) :
  c < 65536 ->
  hex4 (hex_digit (N.shiftr c 12 mod 16)) (hex_digit (N.shiftr c 8 mod 16))
       (hex_digit (N.shiftr c 4 mod 16)) (hex_digit (c mod 16)) = Some c.
Proof.
  intros Hc. unfold hex4.
  rewrite !hex_value_digit by (apply N.mod_lt; discriminate).
  f_equal. rewrite !N.shiftr_div_pow2.
  change (2 ^ 12) with 4096. change (2 ^ 8) with 256. change (2 ^ 4) with 16.
  pose proof (N.div_mod c 16 ltac:(discriminate)) as D0.
  pose proof (N.div_mod (c / 16) 16 ltac:(discriminate)) as D1.
  pose proof (N.div_mod (c / 256) 16 ltac:(discriminate)) as D2.
  pose proof (N.div_mod (c / 4096) 16 ltac:(discriminate)) as D3.
  rewrite N.Div0.div_div in D1. change (16 * 16) with 256 in D1.
  replace (c / 256 / 16) with (c / 4096) in D2
    by (rewrite N.Div0.div_div; reflexivity).
  assert (Z : c / 4096 / 16 = 0).
  { rewrite N.Div0.div_div. apply N.div_small. exact Hc. }
  rewrite Z in D3. lia.
Qed.

Lemma parse_plain_char (c : N) (s acc : JSString) :
  (c =? 0x22) = false -> (c =? 0x5C) = false -> (c <? 0x20) = false ->
  parse_string_chars (c :: s) acc = parse_string_chars s (c :: acc).
Proof. intros H1 H2 H3. simpl. rewrite H1, H2, H3. reflexivity. Qed.

Lemma parse_unicode_escape (c : N) (s acc : JSString) :
  c < 65536 ->
  parse_string_chars (unicode_escape c ++ s) acc = parse_string_chars s (c :: acc).
Proof.
  intros Hc. unfold unicode_escape.
  cbn [app parse_string_chars].
  change (0x5C =? 0x22) with false. change (0x5C =? 0x5C) with true.
  change (0x75 =? 0x22) with false. change (0x75 =? 0x5C) with false.
  change (0x75 =? 0x2F) with false. change (0x75 =? 0x62) with false.
  change (0x75 =? 0x66) with false. change (0x75 =? 0x6E) with false.
  change (0x75 =? 0x72) with false. change (0x75 =? 0x74) with false.
  change (0x75 =? 0x75) with true. cbv iota.
  rewrite hex4_escape by assumption. reflexivity.
Qed.

Lemma parse_surrogate_verbatim (c : N) (s acc : JSString) :
  0xD800 <= c ->
  parse_string_chars (c :: s) acc = parse_string_chars s (c :: acc).
Proof.
  intros Hc. apply parse_plain_char.
  - apply N.eqb_neq. lia.
  - apply N.eqb_neq. lia.
  - apply N.ltb_ge. lia.
Qed.

Lemma parse_quoted_code_unit (c : N) (s acc : JSString) :
  parse_string_chars (quote_code_unit c ++ s) acc = parse_string_chars s (c :: acc).
Proof.
  unfold quote_code_unit.
  destruct (c =? 0x08) eqn:E1; [apply N.eqb_eq in E1; subst; reflexivity|].
  destruct (c =? 0x09) eqn:E2; [apply N.eqb_eq in E2; subst; reflexivity|].
  destruct (c =? 0x0A) eqn:E3; [apply N.eqb_eq in E3; subst; reflexivity|].
  destruct (c =? 0x0C) eqn:E4; [apply N.eqb_eq in E4; subst; reflexivity|].
  destruct (c =? 0x0D) eqn:E5; [apply N.eqb_eq in E5; subst; reflexivity|].
  destruct (c =? 0x22) eqn:E6; [apply N.eqb_eq in E6; subst; reflexivity|].
  destruct (c =? 0x5C) eqn:E7; [apply N.eqb_eq in E7; subst; reflexivity|].
  destruct (c <? 0x20) eqn:E8.
  - apply parse_unicode_escape. apply N.ltb_lt in E8. lia.
  - apply parse_plain_char; assumption.
Qed.

(** Parsing undoes [quote_chars]: the code units of a string, read back
    from its JSON literal, are the string's. *)
Lemma parse_quote_chars (n : nat) :
  forall m acc rest,
    (List.length m <= n)%nat ->
    parse_string_chars (quote_chars m ++ 0x22 :: rest) acc = Some (rev acc ++ m, rest).
Proof.
  induction n as [|n IH]; intros m acc rest Hn.
  - destruct m; [|simpl in Hn; lia]. simpl. rewrite app_nil_r. reflexivity.
  - destruct m as [|c tl]; [simpl; rewrite app_nil_r; reflexivity|].
    simpl in Hn. cbn [quote_chars].
    assert (Step : forall x (r : JSString), Some (rev (c :: acc) ++ x, r)
                               = Some (rev acc ++ c :: x, r))
      by (intros x r; simpl; rewrite <- app_assoc; reflexivity).
    destruct (is_high_surrogate c) eqn:Hh.
    + apply in_range_bounds in Hh as [Hlo Hhi].
      destruct tl as [|c2 tl'].
      * rewrite parse_unicode_escape by lia. reflexivity.
      * destruct (is_low_surrogate c2) eqn:Hl.
        -- apply in_range_bounds in Hl as [Hlo2 Hhi2].
           cbn [app]. rewrite !parse_surrogate_verbatim by lia.
           rewrite IH by (simpl in *; lia).
           simpl. rewrite <- !app_assoc. reflexivity.
        -- rewrite <- app_assoc, parse_unicode_escape by lia.
           rewrite IH by (simpl in *; lia). apply Step.
    + destruct (is_low_surrogate c) eqn:Hl.
      * apply in_range_bounds in Hl as [Hlo Hhi].
        rewrite <- app_assoc, parse_unicode_escape by lia.
        rewrite IH by lia. apply Step.
      * rewrite <- app_assoc, parse_quoted_code_unit.
        rewrite IH by lia. apply Step.
Qed.

Lemma parse_string_quote (m rest : JSString) :
  parse_string (quote m ++ rest) = Some (m, rest).
Proof.
  unfold quote. cbn [app parse_string].
  change (0x22 =? 0x22) with true. cbv iota.
  rewrite <- app_assoc. cbn [app].
  apply (@parse_quote_chars (List.length m)). lia.
Qed.

Lemma skip_ws_quote (m rest : JSString) : skip_ws (quote m ++ rest) = quote m ++ rest.
Proof. reflexivity. Qed.

Lemma parse_value_quote (fuel : nat) (m rest : JSString) :
  parse_value (S fuel) (quote m ++ rest) = Some (JString m, rest).
Proof.
  rewrite parse_value_S. unfold value_body.
  change (quote m ++ rest) with (0x22 :: (quote_chars m ++ [0x22]) ++ rest) at 1.
  change (0x22 =? 0x7B) with false. change (0x22 =? 0x5B) with false.
  change (0x22 =? 0x22) with true. cbv iota.
  change (0x22 :: (quote_chars m ++ [0x22]) ++ rest) with (quote m ++ rest).
  rewrite parse_string_quote. reflexivity.
Qed.

(** The members of an object of strings, parsed from their JSON text. *)
Lemma parse_string_members (fields : list (JSString * JSString)) :
  forall acc fuel rest,
    fields <> [] ->
    (List.length fields < fuel)%nat ->
    parse_members fuel acc
      (join (str ",") (map string_member fields) ++ 0x7D :: rest)
    = Some (fold_left (fun a kv => create_data_property a (fst kv) (JString (snd kv)))
                      fields acc,
            rest).
Proof.
  induction fields as [|[k v] tl IH]; intros acc fuel rest Hne Hfuel;
    [contradiction|].
  destruct fuel as [|[|fuel]]; simpl in Hfuel; try lia.
  rewrite parse_members_S. unfold members_body.
  assert (Shape : exists tail,
             join (str ",") (map string_member ((k, v) :: tl)) ++ 0x7D :: rest
             = quote k ++ 0x3A :: quote v ++ tail
             /\ (tl = [] -> tail = 0x7D :: rest)
             /\ (tl <> [] ->
                 tail = 0x2C :: join (str ",") (map string_member tl) ++ 0x7D :: rest)).
  { destruct tl as [|kv2 tl'].
    - exists (0x7D :: rest). split; [|split; [reflexivity | intros H; contradiction]].
      cbn [map join]. unfold string_member. cbn [fst snd].
      rewrite <- !app_assoc. reflexivity.
    - eexists. split; [|split; [discriminate | intros _; reflexivity]].
      cbn [map join]. unfold string_member at 1. cbn [fst snd].
      rewrite <- !app_assoc. reflexivity. }
  destruct Shape as (tail & -> & Hnil & Hcons).
  rewrite parse_string_quote.
  change (skip_ws (0x3A :: quote v ++ tail)) with (0x3A :: quote v ++ tail).
  change (0x3A =? 0x3A) with true. cbv iota.
  rewrite skip_ws_quote, parse_value_quote.
  destruct tl as [|kv2 tl'].
  - rewrite Hnil by reflexivity. reflexivity.
  - rewrite Hcons by discriminate.
    change (skip_ws (0x2C :: ?x)) with (0x2C :: x).
    cbn [skip_ws is_json_ws]. 
    change (0x2C =? 0x2C) with true.
    cbv iota.
    assert (Q : forall x, skip_ws (join (str ",") (map string_member (kv2 :: tl')) ++ x)
                          = join (str ",") (map string_member (kv2 :: tl')) ++ x).
    { intros x. destruct tl'; reflexivity. }
    rewrite Q. rewrite IH by (simpl in *; (discriminate || lia)).
    reflexivity.
Qed.

Lemma string_members_length (fields : list (JSString * JSString)) :
  (List.length fields <= List.length (join (str ",") (map string_member fields)))%nat.
Proof.
  induction fields as [|kv [|kv2 tl] IH]; [simpl; lia | |].
  - cbn [map join]. unfold string_member, quote. rewrite !length_app. simpl. lia.
  - change (join (str ",") (map string_member (kv :: kv2 :: tl)))
      with (string_member kv ++ str "," ++ join (str ",") (map string_member (kv2 :: tl))).
    rewrite !length_app. simpl in *. lia.
Qed.

Lemma value_body_object (pe : ElementsParser) (pm : MembersParser) (b : JSString) :
  value_body pe pm (0x7B :: 0x22 :: b)
  = match pm [] (0x22 :: b) with
    | Some (props, r) => Some (JObject props, r)
    | None => None
    end.
Proof. reflexivity. Qed.

(** [JSON.parse] reads the JSON text of an object of strings back as
    that object. *)
Lemma JSON_parse_string_object (fields : list (JSString * JSString)) :
  fields <> [] ->
  JSON_parse (string_object fields)
  = Some (JObject (fold_left (fun a kv => create_data_property a (fst kv) (JString (snd kv)))
                             fields [])).
Proof.
  intros Hne. unfold JSON_parse.
  pose proof (string_members_length fields) as L.
  assert (F : exists fuel, parse_fuel (string_object fields) = S fuel
                           /\ (List.length fields < fuel)%nat).
  { exists (2 * List.length (string_object fields) + 1)%nat.
    unfold parse_fuel. split; [lia|].
    unfold string_object. rewrite !length_app. simpl. lia. }
  destruct F as (fuel & -> & Hfuel).
  assert (Q : exists b, join (str ",") (map string_member fields) = 0x22 :: b).
  { destruct fields as [|kv [|kv2 tl]]; [contradiction| |]; eexists; reflexivity. }
  destruct Q as (b & Hb).
  unfold string_object. rewrite Hb.
  change (str "{" ++ (0x22 :: b) ++ str "}") with (0x7B :: 0x22 :: b ++ [0x7D]).
  change (skip_ws (0x7B :: 0x22 :: b ++ [0x7D])) with (0x7B :: 0x22 :: b ++ [0x7D]).
  rewrite parse_value_S, value_body_object.
  change (0x22 :: b ++ [0x7D]) with ((0x22 :: b) ++ [0x7D]).
  rewrite <- Hb, parse_string_members by assumption.
  reflexivity.
Qed.

(** ** Lemmas on reading back *)

Lemma need_array (elems : list JSValue) :
  need (JArray elems) = S (S (need_all elems)).
Proof. reflexivity. Qed.

Lemma need_object (props : list (JSString * JSValue)) :
  need (JObject props) = S (S (need_props props)).
Proof.
  cbn [need]. do 2 f_equal. induction props as [|[k e] l IH]; [reflexivity|].
  cbn [need_props fold_right snd]. f_equal. f_equal. exact IH.
Qed.

Lemma plain_object (props : list (JSString * JSValue)) :
  plain (JObject props) = plain_props props && distinct_keys props.
Proof.
  cbn [plain]. f_equal. induction props as [|[k e] l IH]; [reflexivity|].
  cbn [plain_props forallb fst snd]. f_equal. exact IH.
Qed.

Lemma number_eqb_eq (a b : Number) : number_eqb a b = true -> a = b.
Proof.
  destruct a as [n1 d1 p1|n1], b as [n2 d2 p2|n2]; simpl; try discriminate.
  - rewrite !andb_true_iff. intros [[H1 H2] H3].
    apply Bool.eqb_prop in H1. apply jsstring_eqb_eq in H2. apply Z.eqb_eq in H3.
    congruence.
  - intros H. apply Bool.eqb_prop in H. congruence.
Qed.

(** *** Numbers *)

Lemma delimited_ends_number (rest : JSString) : delimited rest -> ends_number rest.
Proof.
  destruct rest as [|c r]; simpl; [auto|].
  intros [-> | [-> | ->]]; repeat split.
Qed.

Lemma take_digits_app (s rest : JSString) :
  ends_number rest ->
  take_digits (s ++ rest) = (fst (take_digits s), snd (take_digits s) ++ rest).
Proof.
  intros Hr. induction s as [|c s IH]; simpl.
  - destruct rest as [|c r]; [reflexivity|]. simpl in *.
    destruct Hr as (-> & _). reflexivity.
  - destruct (is_digit c); [|reflexivity].
    rewrite IH. destruct (take_digits s); reflexivity.
Qed.

Lemma parse_int_part_app (s rest : JSString) ds r :
  ends_number rest ->
  parse_int_part s = Some (ds, r) ->
  parse_int_part (s ++ rest) = Some (ds, r ++ rest).
Proof.
  intros Hr. destruct s as [|c s]; [discriminate|].
  unfold parse_int_part. cbn [app].
  destruct (c =? 0x30); [intros [= <- <-]; reflexivity|].
  destruct (is_digit c); [|discriminate].
  intros H. assert (E : take_digits (c :: s) = (ds, r)) by congruence.
  change (c :: s ++ rest) with ((c :: s) ++ rest).
  rewrite take_digits_app, E by assumption. reflexivity.
Qed.

Lemma parse_frac_part_app (s rest : JSString) ds r :
  ends_number rest ->
  parse_frac_part s = Some (ds, r) ->
  parse_frac_part (s ++ rest) = Some (ds, r ++ rest).
Proof.
  intros Hr. destruct s as [|c s].
  - intros [= <- <-]. destruct rest as [|c r]; [reflexivity|].
    simpl in *. destruct Hr as (_ & -> & _). reflexivity.
  - unfold parse_frac_part. cbn [app].
    destruct (c =? 0x2E); [|intros [= <- <-]; reflexivity].
    rewrite take_digits_app by assumption.
    destruct (take_digits s) as [[|d ds'] r']; [discriminate|].
    intros [= <- <-]. reflexivity.
Qed.

Lemma parse_exp_digits_app (neg : bool) (s rest : JSString) e r :
  ends_number rest ->
  parse_exp_digits neg s = Some (e, r) ->
  parse_exp_digits neg (s ++ rest) = Some (e, r ++ rest).
Proof.
  intros Hr. unfold parse_exp_digits.
  rewrite take_digits_app by assumption.
  destruct (take_digits s) as [[|d ds'] r']; [discriminate|].
  intros [= <- <-]. reflexivity.
Qed.

Lemma parse_exp_part_app (s rest : JSString) e r :
  ends_number rest ->
  parse_exp_part s = Some (e, r) ->
  parse_exp_part (s ++ rest) = Some (e, r ++ rest).
Proof.
  intros Hr. destruct s as [|c s].
  - intros [= <- <-]. destruct rest as [|c r]; [reflexivity|].
    simpl in *. destruct Hr as (_ & _ & -> & ->). reflexivity.
  - unfold parse_exp_part. cbn [app].
    destruct ((c =? 0x65) || (c =? 0x45)); [|intros [= <- <-]; reflexivity].
    destruct s as [|sign s']; [discriminate|]. cbn [app].
    destruct (sign =? 0x2B); [apply parse_exp_digits_app; assumption|].
    destruct (sign =? 0x2D); [apply parse_exp_digits_app; assumption|].
    change (sign :: s' ++ rest) with ((sign :: s') ++ rest).
    apply parse_exp_digits_app; assumption.
Qed.

Lemma parse_number_app (s rest : JSString) n r :
  ends_number rest ->
  parse_number s = Some (n, r) ->
  parse_number (s ++ rest) = Some (n, r ++ rest).
Proof.
  intros Hr. unfold parse_number.
  destruct s as [|c s]; [discriminate|]. cbn [app].
  destruct (c =? 0x2D).
  - destruct (parse_int_part s) as [[int s2]|] eqn:E1; [|discriminate].
    destruct (parse_frac_part s2) as [[frac s3]|] eqn:E2; [|discriminate].
    destruct (parse_exp_part s3) as [[e s4]|] eqn:E3; [|discriminate].
    intros [= <- <-].
    rewrite (@parse_int_part_app _ _ _ _ Hr E1), (@parse_frac_part_app _ _ _ _ Hr E2),
      (@parse_exp_part_app _ _ _ _ Hr E3).
    reflexivity.
  - destruct (parse_int_part (c :: s)) as [[int s2]|] eqn:E1; [|discriminate].
    destruct (parse_frac_part s2) as [[frac s3]|] eqn:E2; [|discriminate].
    destruct (parse_exp_part s3) as [[e s4]|] eqn:E3; [|discriminate].
    intros [= <- <-].
    change (c :: s ++ rest) with ((c :: s) ++ rest).
    rewrite (@parse_int_part_app _ _ _ _ Hr E1), (@parse_frac_part_app _ _ _ _ Hr E2),
      (@parse_exp_part_app _ _ _ _ Hr E3).
    reflexivity.
Qed.

(** A number starts with a minus sign or a digit. *)
Lemma parse_number_first (c : N) (s : JSString) r :
  parse_number (c :: s) = Some r -> c = 0x2D \/ is_digit c = true.
Proof.
  unfold parse_number. destruct (c =? 0x2D) eqn:E.
  - intros _. left. apply N.eqb_eq. exact E.
  - unfold parse_int_part. destruct (c =? 0x30) eqn:E0.
    + intros _. right. apply N.eqb_eq in E0. subst. reflexivity.
    + destruct (is_digit c); [auto | discriminate].
Qed.

Lemma value_body_number (pe : ElementsParser) (pm : MembersParser)
      (c : N) (s : JSString) :
  c = 0x2D \/ is_digit c = true ->
  value_body pe pm (c :: s)
  = match parse_number (c :: s) with
    | Some (n, r) => Some (JNumber n, r)
    | None => None
    end.
Proof.
  intros H. unfold value_body.
  assert (E : (c =? 0x7B) = false /\ (c =? 0x5B) = false /\ (c =? 0x22) = false
              /\ (c =? 0x74) = false /\ (c =? 0x66) = false /\ (c =? 0x6E) = false).
  { destruct H as [->|H]; [repeat split|].
    unfold is_digit, in_range in H. apply andb_true_iff in H.
    destruct H as [H1 H2]. apply N.leb_le in H1, H2.
    repeat split; apply N.eqb_neq; lia. }
  destruct E as (-> & -> & -> & -> & -> & ->). reflexivity.
Qed.

Lemma number_roundtrip (n : Number) (fuel : nat) (rest : JSString) :
  reads_back n = true -> delimited rest ->
  parse_value (S fuel) (number_to_string n ++ rest) = Some (JNumber n, rest).
Proof.
  unfold reads_back. intros H Hr.
  destruct (parse_number (number_to_string n)) as [[n' [|x r]]|] eqn:P;
    try discriminate.
  apply number_eqb_eq in H. subst n'.
  destruct (number_to_string n) as [|c s] eqn:T; [discriminate|].
  rewrite parse_value_S. cbn [app].
  rewrite value_body_number by (eapply parse_number_first; exact P).
  change (c :: s ++ rest) with ((c :: s) ++ rest).
  rewrite (@parse_number_app _ _ _ _ (@delimited_ends_number _ Hr) P). reflexivity.
Qed.

(** *** Objects *)

Lemma own_properties_plain {A} (props : list (JSString * A)) :
  forallb (fun kv => negb (is_index (fst kv))) props = true ->
  own_properties props = props.
Proof.
  intros H. unfold own_properties.
  assert (F : forall acc,
             fold_left (fun acc kv => match array_index (fst kv) with
                                      | Some i => insert_by_index i kv acc
                                      | None => acc
                                      end) props acc = acc).
  { induction props as [|kv l IH]; intros acc; [reflexivity|].
    simpl in H. apply andb_true_iff in H. destruct H as [H1 H2].
    simpl. unfold is_index in H1.
    destruct (array_index (fst kv)); [discriminate|]. apply IH. exact H2. }
  rewrite F. clear F. simpl.
  induction props as [|kv l IH]; [reflexivity|].
  simpl in H. apply andb_true_iff in H. destruct H as [H1 H2].
  simpl. unfold is_index in H1.
  destruct (array_index (fst kv)); [discriminate|].
  rewrite IH by assumption. reflexivity.
Qed.

Lemma create_fresh (acc : list (JSString * JSValue)) (k : JSString) (v : JSValue) :
  has_key acc k = false -> create_data_property acc k v = acc ++ [(k, v)].
Proof.
  induction acc as [|[k' v'] l IH]; [reflexivity|].
  simpl. destruct (jsstring_eqb k' k); [discriminate|].
  intros H. rewrite IH by assumption. reflexivity.
Qed.

Lemma has_key_app {A} (a b : list (JSString * A)) (k : JSString) :
  has_key (a ++ b) k = has_key a k || has_key b k.
Proof. unfold has_key. apply existsb_app. Qed.

Lemma distinct_keys_snoc (acc : list (JSString * JSValue)) (k : JSString)
      (v : JSValue) (rest : list (JSString * JSValue)) :
  distinct_keys (acc ++ (k, v) :: rest) = true ->
  has_key acc k = false /\ distinct_keys ((acc ++ [(k, v)]) ++ rest) = true.
Proof.
  rewrite <- app_assoc. cbn [app]. intros H. split; [|exact H].
  induction acc as [|[k' v'] l IH]; [reflexivity|].
  simpl in H. apply andb_true_iff in H. destruct H as [H1 H2].
  apply negb_true_iff in H1. rewrite has_key_app in H1.
  apply orb_false_iff in H1. destruct H1 as [_ H1].
  simpl in H1. apply orb_false_iff in H1. destruct H1 as [H1 _].
  simpl. destruct (jsstring_eqb k' k) eqn:E.
  - apply jsstring_eqb_eq in E. subst. rewrite jsstring_eqb_refl in H1. discriminate.
  - apply IH. exact H2.
Qed.

(** *** The text of a value *)

Lemma stringify_array (elems : list JSValue) :
  JSON_stringify (JArray elems)
  = Some (str "[" ++ join (str ",") (map ser elems) ++ str "]").
Proof. reflexivity. Qed.

Lemma stringify_object (props : list (JSString * JSValue)) :
  JSON_stringify (JObject props)
  = Some (str "{"
            ++ join (str ",")
                 (flat_map render_member
                    (own_properties
                       (map (fun kv => (fst kv, JSON_stringify (snd kv))) props)))
            ++ str "}").
Proof.
  cbn [JSON_stringify]. do 6 f_equal.
  induction props as [|[k e] l IH]; [reflexivity|].
  cbn [map fst snd]. f_equal. exact IH.
Qed.

Lemma plain_stringify (v : JSValue) :
  plain v = true -> JSON_stringify v = Some (ser v).
Proof.
  unfold ser. destruct (JSON_stringify v) eqn:E; [reflexivity|].
  destruct v; try discriminate; try (destruct b; discriminate).
  destruct n as [neg [|d ds] p|neg]; discriminate.
Qed.

Lemma stringify_plain_object (props : list (JSString * JSValue)) :
  plain_props props = true ->
  JSON_stringify (JObject props)
  = Some (str "{" ++ join (str ",") (map member_text props) ++ str "}").
Proof.
  intros H. rewrite stringify_object.
  rewrite own_properties_plain.
  - assert (L : flat_map render_member
                  (map (fun kv => (fst kv, JSON_stringify (snd kv))) props)
                = map member_text props).
    { induction props as [|[k e] l IH]; [reflexivity|].
      cbn [plain_props forallb fst snd] in H.
      apply andb_true_iff in H. destruct H as [H1 H2].
      apply andb_true_iff in H1. destruct H1 as [_ H1].
      cbn [map flat_map fst snd]. unfold render_member at 1. cbn [fst snd].
      rewrite (@plain_stringify _ H1). cbn [app].
      f_equal. apply IH. exact H2. }
    rewrite L. reflexivity.
  - clear - H. induction props as [|[k e] l IH]; [reflexivity|].
    cbn [plain_props forallb fst snd] in H.
    apply andb_true_iff in H. destruct H as [H1 H2].
    apply andb_true_iff in H1. destruct H1 as [H1 _].
    cbn [map forallb fst snd]. rewrite H1. apply IH. exact H2.
Qed.

Lemma ser_starts (v : JSValue) :
  plain v = true -> exists c t, ser v = c :: t /\ opens_value c.
Proof.
  intros H. destruct v; try discriminate.
  - do 2 eexists. split; [reflexivity|repeat split].
  - destruct b; do 2 eexists; (split; [reflexivity|repeat split]).
  - cbn [plain] in H. unfold reads_back in H.
    destruct (parse_number (number_to_string n)) as [[n' r]|] eqn:P; [|discriminate].
    assert (E : ser (JNumber n) = number_to_string n).
    { unfold ser. destruct n as [neg ds p|neg]; [reflexivity|].
      destruct neg; discriminate P. }
    rewrite E. destruct (number_to_string n) as [|c s]; [discriminate|].
    exists c, s. split; [reflexivity|].
    destruct (@parse_number_first _ _ _ P) as [->|D]; [repeat split|].
    unfold is_digit, in_range in D. apply andb_true_iff in D.
    destruct D as [D1 D2]. apply N.leb_le in D1, D2.
    unfold opens_value, is_json_ws.
    repeat split; repeat (apply orb_false_iff; split); apply N.eqb_neq; lia.
  - do 2 eexists. split; [reflexivity|repeat split].
  - do 2 eexists. split; [reflexivity|repeat split].
  - do 2 eexists. split; [reflexivity|repeat split].
Qed.

Lemma skip_ws_opens (c : N) (s : JSString) :
  opens_value c -> skip_ws (c :: s) = c :: s.
Proof. intros (H & _). simpl. rewrite H. reflexivity. Qed.

Lemma need_pos (v : JSValue) : (1 <= need v)%nat.
Proof. destruct v; simpl; lia. Qed.

Lemma join_cons (sep p : JSString) (q : JSString) (rest : list JSString) :
  join sep (p :: q :: rest) = p ++ sep ++ join sep (q :: rest).
Proof. reflexivity. Qed.

(** *** Arrays and objects, given the values inside *)

Lemma elements_body_last (pv : ValueParser) (pe : ElementsParser)
      (acc : list JSValue) (s : JSString) (v : JSValue) (rest : JSString) :
  pv s = Some (v, 0x5D :: rest) ->
  elements_body pv pe acc s = Some (rev acc ++ [v], rest).
Proof. intros H. unfold elements_body. rewrite H. reflexivity. Qed.

Lemma elements_body_more (pv : ValueParser) (pe : ElementsParser)
      (acc : list JSValue) (s : JSString) (v : JSValue) (x : JSString) :
  pv s = Some (v, 0x2C :: x) ->
  elements_body pv pe acc s = pe (v :: acc) (skip_ws x).
Proof. intros H. unfold elements_body. rewrite H. reflexivity. Qed.

Lemma members_body_last (pv : ValueParser) (pm : MembersParser)
      (acc : list (JSString * JSValue)) (k x : JSString) (v : JSValue)
      (rest : JSString) :
  pv (skip_ws x) = Some (v, 0x7D :: rest) ->
  members_body pv pm acc (quote k ++ 0x3A :: x)
  = Some (create_data_property acc k v, rest).
Proof.
  intros H. unfold members_body. rewrite parse_string_quote.
  change (skip_ws (0x3A :: x)) with (0x3A :: x).
  change (0x3A =? 0x3A) with true. cbv iota. rewrite H. reflexivity.
Qed.

Lemma members_body_more (pv : ValueParser) (pm : MembersParser)
      (acc : list (JSString * JSValue)) (k x : JSString) (v : JSValue)
      (y : JSString) :
  pv (skip_ws x) = Some (v, 0x2C :: y) ->
  members_body pv pm acc (quote k ++ 0x3A :: x)
  = pm (create_data_property acc k v) (skip_ws y).
Proof.
  intros H. unfold members_body. rewrite parse_string_quote.
  change (skip_ws (0x3A :: x)) with (0x3A :: x).
  change (0x3A =? 0x3A) with true. cbv iota. rewrite H. reflexivity.
Qed.

Lemma skip_ws_ser (v : JSValue) (x : JSString) :
  plain v = true -> skip_ws (ser v ++ x) = ser v ++ x.
Proof.
  intros H. destruct (ser_starts v H) as (c & t & -> & Ho).
  apply (skip_ws_opens (t ++ x) Ho).
Qed.

Lemma skip_ws_elements (e : JSValue) (es : list JSValue) (x : JSString) :
  plain e = true ->
  skip_ws (join (str ",") (map ser (e :: es)) ++ x)
  = join (str ",") (map ser (e :: es)) ++ x.
Proof.
  intros H. destruct es as [|e2 es'].
  - cbn [map join]. apply skip_ws_ser. exact H.
  - rewrite map_cons, (map_cons ser e2 es'), join_cons, <- app_assoc.
    apply skip_ws_ser. exact H.
Qed.

Lemma skip_ws_members (kv : JSString * JSValue) (ps : list (JSString * JSValue))
      (x : JSString) :
  skip_ws (join (str ",") (map member_text (kv :: ps)) ++ x)
  = join (str ",") (map member_text (kv :: ps)) ++ x.
Proof. destruct ps; reflexivity. Qed.

Section Inside.

Variable n : nat.
Hypothesis values_read_back :
  forall v, (need v <= n)%nat -> plain v = true ->
            forall fuel rest, (need v <= fuel)%nat -> delimited rest ->
                              parse_value fuel (ser v ++ rest) = Some (v, rest).

Lemma elements_read_back (elems : list JSValue) :
  elems <> [] ->
  forallb plain elems = true ->
  (need_all elems <= n)%nat ->
  forall acc fuel rest,
    (need_all elems <= fuel)%nat ->
    parse_elements fuel acc (join (str ",") (map ser elems) ++ 0x5D :: rest)
    = Some (rev acc ++ elems, rest).
Proof.
  induction elems as [|e es IH]; intros Hne Hp Hn acc fuel rest Hf;
    [contradiction|].
  cbn [forallb] in Hp. apply andb_true_iff in Hp. destruct Hp as [He Hes].
  cbn [need_all fold_right] in Hn, Hf. fold (need_all es) in Hn, Hf.
  destruct fuel as [|fuel]; [lia|].
  rewrite parse_elements_S.
  destruct es as [|e2 es'].
  - cbn [map join].
    apply elements_body_last.
    apply values_read_back; [lia|assumption|lia|simpl; auto].
  - rewrite map_cons, (map_cons ser e2 es'), join_cons, <- !app_assoc.
    rewrite <- (map_cons ser e2 es').
    change (str "," ++ ?x) with (0x2C :: x).
    erewrite elements_body_more
      by (apply values_read_back; [lia|assumption|lia|simpl; auto]).
    cbn [forallb] in Hes. apply andb_true_iff in Hes.
    rewrite skip_ws_elements by tauto.
    rewrite IH; [|discriminate|cbn [forallb]; apply andb_true_iff; tauto|lia|lia].
    cbn [rev]. rewrite <- app_assoc. reflexivity.
Qed.

Lemma members_read_back (props : list (JSString * JSValue)) :
  props <> [] ->
  plain_props props = true ->
  (need_props props <= n)%nat ->
  forall acc fuel rest,
    distinct_keys (acc ++ props) = true ->
    (need_props props <= fuel)%nat ->
    parse_members fuel acc (join (str ",") (map member_text props) ++ 0x7D :: rest)
    = Some (acc ++ props, rest).
Proof.
  induction props as [|[k e] ps IH]; intros Hne Hp Hn acc fuel rest Hd Hf;
    [contradiction|].
  cbn [plain_props forallb fst snd] in Hp.
  apply andb_true_iff in Hp. destruct Hp as [He Hps].
  apply andb_true_iff in He. destruct He as [_ He].
  cbn [need_props fold_right snd] in Hn, Hf. fold (need_props ps) in Hn, Hf.
  destruct fuel as [|fuel]; [lia|].
  destruct (@distinct_keys_snoc _ _ _ _ Hd) as [Hk Hd'].
  rewrite parse_members_S.
  destruct ps as [|kv2 ps'].
  - cbn [map join]. unfold member_text. cbn [fst snd].
    rewrite <- !app_assoc. change (str ":" ++ ?x) with (0x3A :: x).
    erewrite members_body_last
      by (rewrite skip_ws_ser by assumption;
          apply values_read_back; [lia|assumption|lia|simpl; auto]).
    rewrite create_fresh by assumption. reflexivity.
  - rewrite map_cons, (map_cons member_text kv2 ps'), join_cons.
    rewrite <- (map_cons member_text kv2 ps').
    unfold member_text at 1. cbn [fst snd].
    rewrite <- !app_assoc. change (str ":" ++ ?x) with (0x3A :: x).
    change (str "," ++ ?x) with (0x2C :: x).
    erewrite members_body_more
      by (rewrite skip_ws_ser by assumption;
          apply values_read_back; [lia|assumption|lia|simpl; auto]).
    rewrite skip_ws_members, create_fresh by assumption.
    rewrite IH; [|discriminate|assumption|lia|assumption|lia].
    rewrite <- app_assoc. reflexivity.
Qed.

End Inside.

(** *** Values *)

Lemma value_body_array (pe : ElementsParser) (pm : MembersParser)
      (c : N) (x : JSString) :
  opens_value c ->
  value_body pe pm (0x5B :: c :: x)
  = match pe [] (c :: x) with
    | Some (elems, r) => Some (JArray elems, r)
    | None => None
    end.
Proof.
  intros (Hw & H & _). unfold value_body.
  change (0x5B =? 0x7B) with false. change (0x5B =? 0x5B) with true. cbv iota.
  cbn [skip_ws]. rewrite Hw, H. reflexivity.
Qed.

Lemma values_read_back (n : nat) :
  forall v, (need v <= n)%nat -> plain v = true ->
            forall fuel rest, (need v <= fuel)%nat -> delimited rest ->
                              parse_value fuel (ser v ++ rest) = Some (v, rest).
Proof.
  induction n as [|n IH]; intros v Hn Hp fuel rest Hf Hr.
  { pose proof (need_pos v). lia. }
  destruct fuel as [|fuel]; [pose proof (need_pos v); lia|].
  destruct v as [| |b|x|s|elems|props]; try discriminate.
  - reflexivity.
  - destruct b; reflexivity.
  - assert (E : ser (JNumber x) = number_to_string x).
    { unfold ser. destruct x as [neg ds p|neg]; [reflexivity|].
      destruct neg; discriminate Hp. }
    rewrite E. apply number_roundtrip; assumption.
  - apply parse_value_quote.
  - rewrite need_array in Hn, Hf. cbn [plain] in Hp.
    unfold ser. rewrite stringify_array. rewrite parse_value_S.
    destruct elems as [|e es]; [reflexivity|].
    destruct (@ser_starts e) as (c & t & Hc & Ho).
    { cbn [forallb] in Hp. apply andb_true_iff in Hp. tauto. }
    assert (Shape : exists x, join (str ",") (map ser (e :: es)) = c :: x).
    { destruct es as [|e2 es'].
      - cbn [map join]. rewrite Hc. eexists. reflexivity.
      - rewrite map_cons, (map_cons ser e2 es'), join_cons, Hc.
        eexists. reflexivity. }
    destruct Shape as (x & Hx).
    rewrite <- !app_assoc.
    change (str "[" ++ ?a) with (0x5B :: a).
    change (str "]" ++ rest) with (0x5D :: rest).
    rewrite Hx. cbn [app]. rewrite value_body_array by assumption.
    change (c :: x ++ 0x5D :: rest) with ((c :: x) ++ 0x5D :: rest).
    rewrite <- Hx.
    rewrite (@elements_read_back n IH (e :: es)); [reflexivity|discriminate|assumption|lia|lia].
  - rewrite need_object in Hn, Hf. rewrite plain_object in Hp.
    apply andb_true_iff in Hp. destruct Hp as [Hp Hd].
    unfold ser. rewrite stringify_plain_object by assumption.
    rewrite parse_value_S.
    destruct props as [|kv ps]; [reflexivity|].
    assert (Shape : exists x, join (str ",") (map member_text (kv :: ps)) = 0x22 :: x).
    { destruct ps as [|kv2 ps']; eexists; reflexivity. }
    destruct Shape as (x & Hx).
    rewrite <- !app_assoc.
    change (str "{" ++ ?a) with (0x7B :: a).
    change (str "}" ++ rest) with (0x7D :: rest).
    rewrite Hx. cbn [app]. rewrite value_body_object.
    change (0x22 :: x ++ 0x7D :: rest) with ((0x22 :: x) ++ 0x7D :: rest).
    rewrite <- Hx.
    rewrite (@members_read_back n IH (kv :: ps));
      [reflexivity|discriminate|assumption|lia|exact Hd|lia].
Qed.

(** [JSON.parse] reads the text [JSON.stringify] writes for a plain
    value back as that value. *)
Lemma JSON_parse_stringify (v : JSValue) (text : JSString) :
  plain v = true -> JSON_stringify v = Some text -> JSON_parse text = Some v.
Proof.
  intros Hp Hs.
  assert (E : text = ser v) by (unfold ser; rewrite Hs; reflexivity).
  subst text.
  rewrite <- (JSON_parse_fuel (ser v) (need v)).
  rewrite <- (app_nil_r (ser v)) at 2.
  rewrite skip_ws_ser by assumption.
  rewrite (@values_read_back (need v) v); [reflexivity|lia|assumption|lia|exact I].
Qed.

(** ** The runtime model on sample inputs *)

Example read_back_nested :
  plain (JObject [(str "city", JString (str "Paris"));
                  (str "tags", JArray [JBool true; JNull;
                                       JNumber (mkNumber false [1; 5] 1)])])
  = true.
Proof. vm_compute. reflexivity. Qed.

Example decode_drops_bom_and_pairs_surrogates :
  snd (decode new_TextDecoder [xef; xbb; xbf; x41; xe2; x82; xac; xf0; x9f; x98; x80])
  = [0x41; 0x20AC; 0xD83D; 0xDE00].
Proof. reflexivity. Qed.

Example decode_replaces_malformed :
  snd (decode new_TextDecoder [xc3; x41; xff]) = [0xFFFD; 0x41; 0xFFFD].
Proof. reflexivity. Qed.

Example trim_strips_both_ends : trim (str "  a b  ") = str "a b".
Proof. reflexivity. Qed.

Example parse_rejects_leading_zero : JSON_parse (str "01") = None.
Proof. reflexivity. Qed.

Example parse_rejects_trailing_comma : JSON_parse (str "[1,]") = None.
Proof. reflexivity. Qed.

Example parse_null_then_read_type :
  option_map (fun evt => Get evt (str "type")) (JSON_parse (str "null")) = Some None.
Proof. reflexivity. Qed.

Example stringify_numbers :
  option_map JSON_stringify (JSON_parse (str "[1, 2.50, -0, 1e3, 1.5e-7, 1e21]"))
  = Some (Some (str "[1,2.5,0,1000,1.5e-7,1e+21]")).
Proof. reflexivity. Qed.

Example numbers_are_doubles :
  option_map JSON_stringify
    (JSON_parse (str "[1e400, -1e-400, 9007199254740993, 0.1234567890123456789, 5e-324]"))
  = Some (Some (str "[null,0,9007199254740992,0.12345678901234568,5e-324]")).
Proof. vm_compute. reflexivity. Qed.

Example to_string_of_numbers :
  option_map ToString (JSON_parse (str "[1e400, -1e400, 123456789012345678901234, 1e-7]"))
  = Some (Some (str "Infinity,-Infinity,1.2345678901234569e+23,1e-7")).
Proof. vm_compute. reflexivity. Qed.

Example stringify_orders_index_keys_first :
  option_map JSON_stringify
    (JSON_parse (jobject [jmember "b" (str "1"); jmember "2" (str "2");
                          jmember "b" (str "3"); jmember "1" (str "4")]))
  = Some (Some (jobject [jmember "1" (str "4"); jmember "2" (str "2");
                         jmember "b" (str "3")])).
Proof. reflexivity. Qed.

Example to_string_of_array :
  option_map ToString (JSON_parse (str "[1,[2,null],{},true]"))
  = Some (Some (str "1,2,,[object Object],true")).
Proof. reflexivity. Qed.

(** * The claims *)

(** ** Chunk-boundary invariance *)

(** C2. However the bytes of a stream are split into chunks, the frame
    decoder hands over the same lines as for the whole stream delivered
    in one chunk, and so the cycle ends in the same state. *)
Theorem frame_lines_chunking (chunks : list Chunk) :
  frame_lines chunks = frame_lines [concat chunks]
  /\ forall st fin,
       sendMessage st (Body chunks fin) = sendMessage st (Body [concat chunks] fin).
Proof.
  assert (E : frame_lines chunks = frame_lines [concat chunks]).
  { rewrite !frame_lines_spec. simpl. rewrite app_nil_r. reflexivity. }
  split; [exact E|].
  intros st fin. unfold sendMessage, sendMessage_on. cbn [cells].
  destruct (is_empty (trim st.(input))); [reflexivity|].
  rewrite !read_loop_lines, E. reflexivity.
Qed.

(** A line with a two-byte character, cut between the two bytes. *)
Example split_inside_character :
  frame_lines [[x22; x63; x61; x66; xc3]; [xa9; x22; x0a]]
  = [[0x22; 0x63; 0x61; 0x66; 0xE9; 0x22]].
Proof. reflexivity. Qed.

(** ** Scenarios *)

(** C5. The four lines registry_loaded, tool_call search, tool_result
    search, final "Paris is the capital.", however chunked, are framed as
    sent, drive the status through "Loaded tool registry", "Calling
    search", "search done", "Completed", and leave the transcript with the
    user's message and exactly one assistant message, "Paris is the
    capital.". *)
Theorem scenario_progress_then_final (st : AppState) (chunks : list Chunk) :
  concat chunks = wire scenario_lines ->
  is_empty (trim st.(input)) = false ->
  frame_lines chunks = scenario_lines
  /\ status_trace scenario_lines (queued st)
     = [JString (str "Loaded tool registry"); JString (str "Calling search");
        JString (str "search done"); JString (str "Completed")]
  /\ sendMessage st (Body chunks Done)
     = mkApp st.(provider)
             (st.(messages) ++ [mkMessage user st.(input);
                                mkMessage assistant (str "Paris is the capital.")])
             [] false (JString (str "Completed")).
Proof.
  intros Hbytes Hin.
  assert (E : frame_lines chunks = scenario_lines).
  { rewrite frame_lines_spec, Hbytes. reflexivity. }
  split; [exact E|]. split; [vm_compute; reflexivity|].
  rewrite sendMessage_cycle;
    [|assumption|simpl lines_of; rewrite E; vm_compute; reflexivity].
  simpl thrown. simpl lines_of. rewrite E.
  assert (P : forall s, process_lines scenario_lines s
                        = setCurrent (JString (str "Completed"))
                            (setMessages
                               (fun m => m ++ [mkMessage assistant
                                                 (str "Paris is the capital.")]) s))
    by (intros s; vm_compute; reflexivity).
  rewrite P. unfold queued, setLoading, setCurrent, setMessages, setInput. simpl.
  rewrite <- app_assoc. reflexivity.
Qed.

Lemma scenario_progress_then_final_witness :
  frame_lines scenario_chunks = scenario_lines
  /\ status_trace scenario_lines (queued scenario_state)
     = [JString (str "Loaded tool registry"); JString (str "Calling search");
        JString (str "search done"); JString (str "Completed")]
  /\ sendMessage scenario_state (Body scenario_chunks Done)
     = mkApp gpt
             [mkMessage user (str "What is the capital of France?");
              mkMessage assistant (str "Paris is the capital.")]
             [] false (JString (str "Completed")).
Proof.
  apply (scenario_progress_then_final scenario_state scenario_chunks);
    reflexivity.
Defined.

(** C7. The single line {"type":"error","error":"rate limited"}, however
    chunked, is framed as sent; dispatching it appends exactly one
    assistant message, "Error: rate limited", and sets the status to
    "Error", so the cycle ends with the user's message, that one
    assistant message and the status "Error". *)
Theorem scenario_error_event (st : AppState) (chunks : list Chunk) :
  concat chunks = wire [line_error] ->
  is_empty (trim st.(input)) = false ->
  frame_lines chunks = [line_error]
  /\ (forall s,
         handle_line s line_error
         = setCurrent (JString (str "Error"))
             (setMessages
                (fun m => m ++ [mkMessage assistant (str "Error: rate limited")]) s))
  /\ sendMessage st (Body chunks Done)
     = mkApp st.(provider)
             (st.(messages) ++ [mkMessage user st.(input);
                                mkMessage assistant (str "Error: rate limited")])
             [] false (JString (str "Error")).
Proof.
  intros Hbytes Hin.
  assert (E : frame_lines chunks = [line_error]).
  { rewrite frame_lines_spec, Hbytes. reflexivity. }
  assert (P : forall s,
             handle_line s line_error
             = setCurrent (JString (str "Error"))
                 (setMessages
                    (fun m => m ++ [mkMessage assistant (str "Error: rate limited")]) s))
    by (intros s; vm_compute; reflexivity).
  split; [exact E|]. split; [exact P|].
  rewrite sendMessage_cycle;
    [|assumption|simpl lines_of; rewrite E; vm_compute; reflexivity].
  simpl thrown. simpl lines_of. rewrite E.
  assert (P' : forall s, process_lines [line_error] s = handle_line s line_error)
    by reflexivity.
  rewrite P', P.
  unfold queued, setLoading, setCurrent, setMessages, setInput. simpl.
  rewrite <- app_assoc. reflexivity.
Qed.

Lemma scenario_error_event_witness :
  frame_lines [wire [line_error]] = [line_error]
  /\ (forall s,
         handle_line s line_error
         = setCurrent (JString (str "Error"))
             (setMessages
                (fun m => m ++ [mkMessage assistant (str "Error: rate limited")]) s))
  /\ sendMessage (fresh "hi") (Body [wire [line_error]] Done)
     = mkApp gpt
             [mkMessage user (str "hi");
              mkMessage assistant (str "Error: rate limited")]
             [] false (JString (str "Error")).
Proof.
  apply (scenario_error_event (fresh "hi") [wire [line_error]]); reflexivity.
Defined.

Lemma handle_model_invoked (st : AppState) (line : JSString) (t : Number) :
  model_invoked_line line t ->
  handle_line_on (mkPage st true) line = mkPage (setCurrent (turn_label t) st) true.
Proof.
  intros (evt & Hparse & Htype & Hstage & Hturn).
  unfold handle_line_on. rewrite Hparse.
  unfold dispatch. rewrite Htype.
  change (strict_eq_str (JString (str "stage")) (str "stage")) with true.
  cbv iota. rewrite Hstage.
  change (strict_eq_str (JString (str "model_invoked")) (str "registry_loaded"))
    with false.
  change (strict_eq_str (JString (str "model_invoked")) (str "model_invoked"))
    with true.
  cbv iota. rewrite Hturn. reflexivity.
Qed.

(** C8. The status is overwritten, not accumulated: two model_invoked
    stage lines, of any two turn numbers, set the status to the label of
    the first and then to the label of the second; the status after both
    is "Invoking model (turn N)" for the second number alone, the
    transcript is untouched, and the whole state is what the second line
    alone would have left. *)
Theorem status_last_write_wins (st : AppState) (line1 line2 : JSString)
        (t1 t2 : Number) :
  model_invoked_line line1 t1 ->
  model_invoked_line line2 t2 ->
  status_trace [line1; line2] st = [turn_label t1; turn_label t2]
  /\ (process_lines [line1; line2] st).(current) = turn_label t2
  /\ (process_lines [line1; line2] st).(messages) = st.(messages)
  /\ process_lines [line1; line2] st = process_lines [line2] st.
Proof.
  intros H1 H2.
  unfold status_trace, process_lines. simpl page_trace. simpl fold_left.
  rewrite (handle_model_invoked st H1).
  rewrite (handle_model_invoked (setCurrent (turn_label t1) st) H2).
  rewrite (handle_model_invoked st H2).
  repeat split.
Qed.

Lemma status_last_write_wins_witness :
  status_trace [line_model_invoked "1"; line_model_invoked "2"] (fresh "hi")
  = [JString (str "Invoking model (turn 1)"); JString (str "Invoking model (turn 2)")]
  /\ (process_lines [line_model_invoked "1"; line_model_invoked "2"] (fresh "hi")).(current)
     = JString (str "Invoking model (turn 2)")
  /\ (process_lines [line_model_invoked "1"; line_model_invoked "2"] (fresh "hi")).(messages)
     = []
  /\ process_lines [line_model_invoked "1"; line_model_invoked "2"] (fresh "hi")
     = process_lines [line_model_invoked "2"] (fresh "hi").
Proof.
  apply (@status_last_write_wins (fresh "hi")
           (line_model_invoked "1") (line_model_invoked "2")
           (mkNumber false [1] 1) (mkNumber false [2] 1)).
  - eexists. split; [vm_compute; reflexivity|]. repeat split.
  - eexists. split; [vm_compute; reflexivity|]. repeat split.
Defined.

(** ** Transcript invariants *)

(** C10. The transcript only grows at its end: a dispatched line leaves
    it as it was or adds one assistant message, the failure handler adds
    exactly one, and after a whole cycle the earlier messages are still
    there, in place, followed by the user's message and the assistant
    messages of the cycle. *)
Theorem transcript_append_only :
  (forall st line,
      (handle_line st line).(messages) = st.(messages)
      \/ exists text,
          (handle_line st line).(messages)
          = st.(messages) ++ [mkMessage assistant text])
  /\ (forall st e,
         exists text,
           (on_failure e st).(messages) = st.(messages) ++ [mkMessage assistant text])
  /\ (forall st res,
         exists added,
           (sendMessage st res).(messages) = st.(messages) ++ added).
Proof.
  split; [|split].
  - intros st line. unfold handle_line, handle_line_on.
    destruct (JSON_parse line) as [evt|]; [|now left].
    destruct (dispatch (mkPage st true) evt) as [p'|] eqn:D; [|now left].
    destruct (@dispatch_effect _ _ _ D) as [Ht U|label Ht U|text label Ht U|Ht U].
    + now left.
    + now left.
    + right. exists text. reflexivity.
    + now left.
  - intros st e. eexists. reflexivity.
  - intros st res. destruct (is_empty (trim st.(input))) eqn:Hin.
    + exists []. rewrite sendMessage_blank, app_nil_r by assumption. reflexivity.
    + destruct (sendMessage_messages st res Hin) as (ms & _ & _ & _ & E).
      eexists. exact E.
Qed.

(** ** Terminal appends *)

(** C1, as stated, fails: a stream with two [final] lines appends two
    assistant messages in one cycle. *)
Lemma two_finals_append_twice :
  ~ (terminal_appends (fresh "hi") (Body [wire [line_final; line_final]] Done) <= 1)%nat.
Proof. vm_compute. intros H. lia. Qed.

(** C1, amended. A cycle whose response carries at most one terminal
    event (a [final] line, an [error] line or a transport failure)
    appends at most one assistant message, whatever status events come
    with it. *)
Theorem terminal_appends_at_most_one (st : AppState) (res : Response) :
  (terminal_events res <= 1)%nat -> (terminal_appends st res <= 1)%nat.
Proof.
  intros H. pose proof (terminal_appends_le_events st res). lia.
Qed.

Lemma terminal_appends_at_most_one_witness :
  (terminal_events (Body scenario_chunks Done) <= 1)%nat
  /\ (terminal_appends scenario_state (Body scenario_chunks Done) <= 1)%nat.
Proof.
  split.
  - vm_compute. lia.
  - apply (terminal_appends_at_most_one scenario_state (Body scenario_chunks Done)).
    vm_compute. lia.
Defined.






(** ** Malformed lines *)

(** C4. A line that is not valid JSON changes nothing and stops nothing:
    followed by a valid [final] line, the outcome is that of the [final]
    line alone, one assistant message and the status "Completed". *)
Theorem malformed_line_then_final (st : AppState) (bad good : JSString) (evt : JSValue) :
  JSON_parse bad = None ->
  JSON_parse good = Some evt ->
  Get evt (str "type") = Some (JString (str "final")) ->
  handle_line st bad = st
  /\ process_lines [bad; good] st = process_lines [good] st
  /\ exists text,
      process_lines [bad; good] st
      = setCurrent (JString (str "Completed"))
          (setMessages (fun m => m ++ [mkMessage assistant text]) st).
Proof.
  intros Hbad Hgood Htype.
  assert (B : handle_line st bad = st) by (apply handle_line_unparsed; assumption).
  assert (P : process_lines [bad; good] st = process_lines [good] st).
  { rewrite process_lines_cons, B; [reflexivity|].
    unfold breaks_page. rewrite Hbad. reflexivity. }
  split; [exact B|]. split; [exact P|]. rewrite P.
  change (process_lines [good] st) with (handle_line st good).
  rewrite (@handle_line_event st _ _ Hgood). unfold dispatch. rewrite Htype.
  change (strict_eq_str (JString (str "final")) (str "stage")) with false.
  change (strict_eq_str (JString (str "final")) (str "tool_call")) with false.
  change (strict_eq_str (JString (str "final")) (str "tool_result")) with false.
  change (strict_eq_str (JString (str "final")) (str "final")) with true.
  cbv iota.
  destruct (Get evt (str "message")) as [message|] eqn:M.
  - eexists. reflexivity.
  - rewrite (Get_throws _ _ M (str "type")) in Htype. discriminate.
Qed.

Lemma malformed_line_then_final_witness :
  JSON_parse (str "{oops") = None
  /\ handle_line (fresh "hi") (str "{oops") = fresh "hi"
  /\ process_lines [str "{oops"; line_final] (fresh "hi")
     = process_lines [line_final] (fresh "hi")
  /\ exists text,
      process_lines [str "{oops"; line_final] (fresh "hi")
      = setCurrent (JString (str "Completed"))
          (setMessages (fun m => m ++ [mkMessage assistant text]) (fresh "hi")).
Proof.
  split; [reflexivity|].
  apply (malformed_line_then_final (fresh "hi") (str "{oops") line_final
           (evt := JObject [(str "type", JString (str "final"));
                            (str "message", JString (str "Paris is the capital."))]));
    reflexivity.
Defined.

(** ** Structured final messages *)

Lemma or_empty_some (s : JSString) : or_empty (Some s) = s.
Proof. destruct s; reflexivity. Qed.

(** C6. When the [message] of a [final] event is an object or an array,
    the assistant message appended carries its JSON serialisation
    ([JSON.stringify]), which for an object is never the text
    "[object Object]" a plain string conversion would give, and which
    [JSON.parse] reads back as the message itself when the message is
    plain: no key that is an array index, no number beyond the doubles
    and no minus zero. *)
Theorem final_structured_message (st : AppState) (line : JSString)
        (evt message : JSValue) :
  JSON_parse line = Some evt ->
  Get evt (str "type") = Some (JString (str "final")) ->
  Get evt (str "message") = Some message ->
  is_structured message = true ->
  exists text,
    JSON_stringify message = Some text
    /\ handle_line st line
       = setCurrent (JString (str "Completed"))
           (setMessages (fun m => m ++ [mkMessage assistant text]) st)
    /\ (forall props, message = JObject props -> text <> str "[object Object]")
    /\ (plain message = true -> JSON_parse text = Some message).
Proof.
  intros Hparse Htype Hmsg Hstruct.
  assert (S : exists text, JSON_stringify message = Some text
                           /\ (forall props, message = JObject props ->
                                             text <> str "[object Object]")).
  { destruct message; try discriminate; simpl; eexists; split;
      try reflexivity; intros ? E; (discriminate E || discriminate). }
  destruct S as (text & Htext & Hraw).
  exists text. split; [assumption|]. split; [|split; [assumption|]].
  - rewrite (@handle_line_event st _ _ Hparse). unfold dispatch. rewrite Htype.
    change (strict_eq_str (JString (str "final")) (str "stage")) with false.
    change (strict_eq_str (JString (str "final")) (str "tool_call")) with false.
    change (strict_eq_str (JString (str "final")) (str "tool_result")) with false.
    change (strict_eq_str (JString (str "final")) (str "final")) with true.
    cbv iota. rewrite Hmsg.
    destruct message; try discriminate; rewrite Htext, or_empty_some; reflexivity.
  - intros Hp. apply JSON_parse_stringify with (v := message); assumption.
Qed.

(** The line {"type":"final","message":{"city":"Paris","rank":1}}: the
    content appended is the text {"city":"Paris","rank":1}. *)
Lemma final_structured_message_witness :
  JSON_stringify (JObject [(str "city", JString (str "Paris"));
                           (str "rank", JNumber (mkNumber false [1] 1))])
  = Some (jobject [jmember "city" (jq "Paris"); jmember "rank" (str "1")])
  /\ handle_line (fresh "hi") line_final_object
     = setCurrent (JString (str "Completed"))
         (setMessages
            (fun m => m ++ [mkMessage assistant
                              (jobject [jmember "city" (jq "Paris");
                                        jmember "rank" (str "1")])])
            (fresh "hi"))
  /\ jobject [jmember "city" (jq "Paris"); jmember "rank" (str "1")]
     <> str "[object Object]"
  /\ JSON_parse (jobject [jmember "city" (jq "Paris"); jmember "rank" (str "1")])
     = Some (JObject [(str "city", JString (str "Paris"));
                      (str "rank", JNumber (mkNumber false [1] 1))]).
Proof.
  destruct (@final_structured_message (fresh "hi") line_final_object
              (JObject [(str "type", JString (str "final"));
                        (str "message",
                         JObject [(str "city", JString (str "Paris"));
                                  (str "rank", JNumber (mkNumber false [1] 1))])])
              (JObject [(str "city", JString (str "Paris"));
                        (str "rank", JNumber (mkNumber false [1] 1))]))
    as (text & Htext & Hline & Hraw & Hback); try (vm_compute; reflexivity).
  assert (E : text = jobject [jmember "city" (jq "Paris"); jmember "rank" (str "1")]).
  { vm_compute in Htext. injection Htext as <-. vm_compute. reflexivity. }
  subst text. split; [exact Htext|]. split; [exact Hline|].
  split; [eapply Hraw; reflexivity|].
  apply Hback. vm_compute. reflexivity.
Defined.

(** ** End of stream *)

(** C9. Bytes that follow the last newline of a stream are dropped when
    the stream ends: whatever they are and however they are chunked, they
    add no line, and the cycle ends in the state it would have reached
    without them. *)
Theorem trailing_remainder_discarded (chunks chunks' : list Chunk) (rest : Chunk) :
  concat chunks' = concat chunks ++ rest ->
  ~ In x0a rest ->
  frame_lines chunks' = frame_lines chunks
  /\ forall st fin,
       sendMessage st (Body chunks' fin) = sendMessage st (Body chunks fin).
Proof.
  intros Hcat Hno.
  assert (E : frame_lines chunks' = frame_lines chunks)
    by (eapply frame_lines_tail; eauto).
  split; [exact E|].
  intros st fin. unfold sendMessage, sendMessage_on. cbn [cells].
  destruct (is_empty (trim st.(input))); [reflexivity|].
  rewrite !read_loop_lines, E. reflexivity.
Qed.

(** An [error] event that arrives without its newline is never
    dispatched. *)
Lemma trailing_remainder_discarded_witness :
  ~ In x0a (ascii_bytes line_error)
  /\ frame_lines [wire [line_registry_loaded]; ascii_bytes line_error]
     = frame_lines [wire [line_registry_loaded]]
  /\ forall st fin,
       sendMessage st (Body [wire [line_registry_loaded]; ascii_bytes line_error] fin)
       = sendMessage st (Body [wire [line_registry_loaded]] fin).
Proof.
  assert (Hno : ~ In x0a (ascii_bytes line_error))
    by (vm_compute; intuition discriminate).
  split; [exact Hno|].
  apply (@trailing_remainder_discarded
           [wire [line_registry_loaded]]
           [wire [line_registry_loaded]; ascii_bytes line_error]
           (ascii_bytes line_error)); [reflexivity | exact Hno].
Defined.

(** * Further properties of the streaming client *)

(** ** Lemmas *)


Lemma trimStart_all_whitespace (s : JSString) :
  all_whitespace s -> trimStart s = [].
Proof.
  induction 1 as [|c s Hc _ IH]; simpl; [reflexivity|].
  rewrite Hc. exact IH.
Qed.

Lemma trim_all_whitespace (s : JSString) : all_whitespace s -> trim s = [].
Proof.
  intros H. unfold trim. rewrite trimStart_all_whitespace by assumption.
  reflexivity.
Qed.

(** ** Properties of [sendMessage] *)

(** X1. A cycle that starts on a response that leaves the page standing
    ends with the busy flag released and the input box cleared, the page
    mounted and the provider untouched, however the response ends:
    stream closed, read failed, fetch rejected or body missing. *)
Theorem cycle_releases_busy_flag (st : AppState) (res : Response) :
  is_empty (trim st.(input)) = false ->
  keeps_page (queued st) res = true ->
  (sendMessage st res).(loading) = false
  /\ (sendMessage st res).(input) = []
  /\ (sendMessage st res).(provider) = st.(provider)
  /\ survives st res = true.
Proof.
  intros Hin Hk. apply andb_true_iff in Hk. destruct Hk as [Hh _].
  rewrite survives_spec, sendMessage_cycle by assumption.
  destruct (process_lines_frame (lines_of res) (queued st)) as (P & I & L).
  destruct (thrown res); simpl; rewrite ?P, ?I; auto.
Qed.

Lemma cycle_releases_busy_flag_witness :
  is_empty (trim (mkApp gemini [] (str "hi") true JNull).(input)) = false
  /\ keeps_page (queued (mkApp gemini [] (str "hi") true JNull))
       (Body [wire scenario_lines] (ReadError network_error)) = true
  /\ (sendMessage (mkApp gemini [] (str "hi") true JNull)
        (Body [wire scenario_lines] (ReadError network_error))).(loading) = false
  /\ (sendMessage (mkApp gemini [] (str "hi") true JNull)
        (Body [wire scenario_lines] (ReadError network_error))).(input) = []
  /\ (sendMessage (mkApp gemini [] (str "hi") true JNull)
        (Body [wire scenario_lines] (ReadError network_error))).(provider) = gemini
  /\ survives (mkApp gemini [] (str "hi") true JNull)
       (Body [wire scenario_lines] (ReadError network_error)) = true.
Proof.
  split; [reflexivity|]. split; [vm_compute; reflexivity|].
  apply (@cycle_releases_busy_flag (mkApp gemini [] (str "hi") true JNull)
           (Body [wire scenario_lines] (ReadError network_error)));
    vm_compute; reflexivity.
Defined.

(** X2. With an input that is empty or white space only, [sendMessage]
    does nothing at all: no message, no status, no request. *)
Theorem blank_input_is_ignored (st : AppState) (res : Response) :
  all_whitespace st.(input) -> sendMessage st res = st.
Proof.
  intros H. apply sendMessage_blank.
  rewrite trim_all_whitespace by assumption. reflexivity.
Qed.

Lemma blank_input_is_ignored_witness :
  all_whitespace (fresh "  ").(input)
  /\ sendMessage (fresh "  ") (Body [wire scenario_lines] Done) = fresh "  ".
Proof.
  assert (H : all_whitespace (fresh "  ").(input))
    by (repeat constructor).
  split; [exact H|].
  apply (@blank_input_is_ignored (fresh "  ") (Body [wire scenario_lines] Done) H).
Defined.

(** X3. A cycle that starts records the user's text as typed, not
    trimmed, once, right after the earlier messages; everything after it
    is an assistant message. *)
Theorem user_message_recorded_first (st : AppState) (res : Response) :
  is_empty (trim st.(input)) = false ->
  exists replies,
    (sendMessage st res).(messages)
    = st.(messages) ++ mkMessage user st.(input) :: replies
    /\ Forall is_assistant replies.
Proof.
  intros Hin.
  destruct (sendMessage_messages st res Hin) as (ms & _ & _ & A & E).
  eexists. split; [exact E|].
  apply Forall_app. split; [exact A|].
  destruct (harmless (lines_of res)), (thrown res); repeat constructor.
Qed.

Lemma user_message_recorded_first_witness :
  is_empty (trim (fresh " hi ").(input)) = false
  /\ exists replies,
      (sendMessage (fresh " hi ") (Body [wire scenario_lines] Done)).(messages)
      = (fresh " hi ").(messages) ++ mkMessage user (str " hi ") :: replies
      /\ Forall is_assistant replies.
Proof.
  split; [reflexivity|].
  apply (@user_message_recorded_first (fresh " hi ") (Body [wire scenario_lines] Done)).
  reflexivity.
Defined.

(** X4. Lines that are not [final] or [error] events - status events,
    unknown events, malformed lines - never change the transcript, however
    many of them are dispatched. *)
Theorem status_lines_keep_transcript (lines : list JSString) (st : AppState) :
  Forall (fun line => is_terminal_line line = false) lines ->
  (process_lines lines st).(messages) = st.(messages).
Proof.
  intros H.
  destruct (process_lines_messages lines st) as (ms & E & L & _).
  assert (F : filter is_terminal_line lines = []).
  { clear - H. induction H as [|l ls Hl _ IH]; simpl; [reflexivity|].
    rewrite Hl. exact IH. }
  rewrite F in L. destruct ms; [|simpl in L; lia].
  rewrite E. apply app_nil_r.
Qed.

Lemma status_lines_keep_transcript_witness :
  Forall (fun line => is_terminal_line line = false)
         [line_registry_loaded; str "{oops"; line_tool_call; line_tool_result]
  /\ (process_lines [line_registry_loaded; str "{oops"; line_tool_call; line_tool_result]
        scenario_state).(messages) = scenario_state.(messages).
Proof.
  assert (H : Forall (fun line => is_terminal_line line = false)
                     [line_registry_loaded; str "{oops"; line_tool_call; line_tool_result])
    by (repeat constructor).
  split; [exact H|].
  apply (@status_lines_keep_transcript _ scenario_state H).
Defined.

(** X5. A line that parses to anything but an object - a number, a
    string, an array, a boolean, or [null], where reading [type] throws -
    changes nothing. *)
Theorem non_object_line_is_ignored (st : AppState) (line : JSString) (evt : JSValue) :
  JSON_parse line = Some evt ->
  (forall props, evt <> JObject props) ->
  handle_line st line = st.
Proof.
  intros Hparse Hobj. rewrite (@handle_line_event st _ _ Hparse).
  destruct evt; try reflexivity.
  exfalso. eapply Hobj. reflexivity.
Qed.

Lemma non_object_line_is_ignored_witness :
  JSON_parse (str "[1,2]") = Some (JArray [JNumber (mkNumber false [1] 1);
                                           JNumber (mkNumber false [2] 1)])
  /\ handle_line scenario_state (str "[1,2]") = scenario_state.
Proof.
  split; [reflexivity|].
  apply (@non_object_line_is_ignored scenario_state (str "[1,2]")
           (JArray [JNumber (mkNumber false [1] 1); JNumber (mkNumber false [2] 1)]));
    [reflexivity | intros props H; discriminate H].
Defined.

(** X6. On a stream that leaves the page standing, a read that fails
    adds exactly one message, "Error: " and the failure's text, to what
    the same chunks followed by a clean close would have left, and
    changes nothing else: the status keeps the last label the stream
    set. *)
Theorem read_failure_adds_one_message (st : AppState) (chunks : list Chunk) (e : JSError) :
  is_empty (trim st.(input)) = false ->
  keeps_page (queued st) (Body chunks Done) = true ->
  sendMessage st (Body chunks (ReadError e))
  = setMessages
      (fun m => m ++ [mkMessage assistant (str "Error: " ++ failure_text e)])
      (sendMessage st (Body chunks Done)).
Proof.
  intros Hin Hk. apply andb_true_iff in Hk. destruct Hk as [Hh _].
  rewrite !sendMessage_cycle by assumption. reflexivity.
Qed.

Lemma read_failure_adds_one_message_witness :
  is_empty (trim scenario_state.(input)) = false
  /\ keeps_page (queued scenario_state) (Body scenario_chunks Done) = true
  /\ sendMessage scenario_state (Body scenario_chunks (ReadError network_error))
     = setMessages
         (fun m => m ++ [mkMessage assistant (str "Error: " ++ failure_text network_error)])
         (sendMessage scenario_state (Body scenario_chunks Done)).
Proof.
  split; [reflexivity|]. split; [vm_compute; reflexivity|].
  apply (@read_failure_adds_one_message scenario_state scenario_chunks network_error);
    vm_compute; reflexivity.
Defined.

(** X7. When no stream can be read - the fetch is rejected, or the
    response has no body - the cycle ends with the user's message, one
    "Error: ..." message ("Error: No stream" for a missing body) and the
    status still at "Queued". *)
Theorem failure_before_stream (st : AppState) (e : JSError) :
  is_empty (trim st.(input)) = false ->
  sendMessage st (FetchRejected e)
  = mkApp st.(provider)
          (st.(messages) ++ [mkMessage user st.(input);
                             mkMessage assistant (str "Error: " ++ failure_text e)])
          [] false (JString (str "Queued"))
  /\ sendMessage st NoBody
     = mkApp st.(provider)
             (st.(messages) ++ [mkMessage user st.(input);
                                mkMessage assistant (str "Error: No stream")])
             [] false (JString (str "Queued")).
Proof.
  intros Hin. unfold sendMessage, sendMessage_on. cbn [cells]. rewrite Hin.
  unfold call, update, setLoading, setCurrent, setMessages, setInput. simpl.
  rewrite <- !app_assoc. split; reflexivity.
Qed.

Lemma failure_before_stream_witness :
  is_empty (trim scenario_state.(input)) = false
  /\ sendMessage scenario_state (FetchRejected network_error)
     = mkApp gpt
             [mkMessage user (str "What is the capital of France?");
              mkMessage assistant (str "Error: network error")]
             [] false (JString (str "Queued"))
  /\ sendMessage scenario_state NoBody
     = mkApp gpt
             [mkMessage user (str "What is the capital of France?");
              mkMessage assistant (str "Error: No stream")]
             [] false (JString (str "Queued")).
Proof.
  split; [reflexivity|].
  apply (@failure_before_stream scenario_state network_error). reflexivity.
Defined.

Lemma live_break (before after : list JSString) (bad : JSString) :
  harmless before = true -> breaks_page bad = true ->
  live (before ++ bad :: after) = before
  /\ harmless (before ++ bad :: after) = false.
Proof.
  intros Hb Hbad. induction before as [|l ls IH]; simpl.
  - rewrite Hbad. auto.
  - simpl in Hb. destruct (breaks_page l); [discriminate|]. simpl in Hb.
    destruct (IH Hb) as [-> ->]. auto.
Qed.

(** X24. An [error] event whose value has no string form takes the page
    down: the cells stay as the lines before it left them, no message is
    appended for it, the lines after it and the failure handler have no
    effect, and the busy flag is never released. *)
Theorem error_without_text_unmounts (st : AppState) (chunks : list Chunk)
        (fin : StreamEnd) (before after : list JSString) (bad : JSString) :
  is_empty (trim st.(input)) = false ->
  frame_lines chunks = before ++ bad :: after ->
  harmless before = true ->
  breaks_page bad = true ->
  survives st (Body chunks fin) = false
  /\ sendMessage st (Body chunks fin) = process_lines before (queued st)
  /\ (sendMessage st (Body chunks fin)).(loading) = true.
Proof.
  intros Hin Hlines Hb Hbad.
  destruct (live_break before after bad Hb Hbad) as [Hl Hh].
  assert (E : sendMessage st (Body chunks fin) = process_lines before (queued st)).
  { rewrite sendMessage_broken; [|assumption|simpl; rewrite Hlines; exact Hh].
    simpl lines_of. rewrite Hlines, !process_lines_live, Hl, live_harmless by assumption.
    reflexivity. }
  split; [|split].
  - rewrite survives_spec by assumption. simpl. rewrite Hlines. exact Hh.
  - exact E.
  - rewrite E. destruct (process_lines_frame before (queued st)) as (_ & _ & L).
    rewrite L. reflexivity.
Qed.

Lemma error_without_text_unmounts_witness :
  is_empty (trim (fresh "hi").(input)) = false
  /\ frame_lines [wire [line_registry_loaded; line_error_object; line_final]]
     = [line_registry_loaded] ++ line_error_object :: [line_final]
  /\ harmless [line_registry_loaded] = true
  /\ breaks_page line_error_object = true
  /\ survives (fresh "hi")
       (Body [wire [line_registry_loaded; line_error_object; line_final]] Done)
     = false
  /\ sendMessage (fresh "hi")
       (Body [wire [line_registry_loaded; line_error_object; line_final]] Done)
     = mkApp gpt [mkMessage user (str "hi")] [] true
             (JString (str "Loaded tool registry")).
Proof.
  split; [reflexivity|]. split; [vm_compute; reflexivity|].
  split; [vm_compute; reflexivity|]. split; [vm_compute; reflexivity|].
  destruct (@error_without_text_unmounts (fresh "hi")
              [wire [line_registry_loaded; line_error_object; line_final]] Done
              [line_registry_loaded] [line_final] line_error_object)
    as (S & E & _); try (vm_compute; reflexivity).
  split; [exact S|]. rewrite E. vm_compute. reflexivity.
Defined.
(** ** Events with arbitrary text *)

Lemma or_empty_text (s : JSString) : or_empty (Some s) = s.
Proof. destruct s; reflexivity. Qed.

Lemma JSON_parse_event_line (type field : String.string) (text : JSString) :
  jsstring_eqb (str "type") (str field) = false ->
  JSON_parse (event_line type field text)
  = Some (JObject [(str "type", JString (str type)); (str field, JString text)]).
Proof.
  intros Hfield. unfold event_line.
  rewrite JSON_parse_string_object by discriminate.
  cbn [fold_left fst snd create_data_property]. rewrite Hfield. reflexivity.
Qed.

Lemma handle_event_line (st : AppState) (type field : String.string) (text : JSString) :
  jsstring_eqb (str "type") (str field) = false ->
  handle_line st (event_line type field text)
  = match dispatch (mkPage st true)
            (JObject [(str "type", JString (str type)); (str field, JString text)]) with
    | Some p' => p'.(cells)
    | None => st
    end.
Proof.
  intros Hfield. apply handle_line_event. apply JSON_parse_event_line. exact Hfield.
Qed.

Lemma final_line_harmless (text : JSString) :
  breaks_page (event_line "final" "message" text) = false.
Proof.
  unfold breaks_page. rewrite JSON_parse_event_line by reflexivity.
  vm_compute. reflexivity.
Qed.

Lemma messages_after_reply (label : JSValue) (reply : ChatMessage) (st : AppState) :
  (setCurrent label (setMessages (fun m => m ++ [reply]) st)).(messages)
  = st.(messages) ++ [reply].
Proof. reflexivity. Qed.

Lemma handle_final_line (st : AppState) (text : JSString) :
  handle_line st (event_line "final" "message" text)
  = setCurrent (JString (str "Completed"))
      (setMessages (fun m => m ++ [mkMessage assistant text]) st).
Proof.
  rewrite handle_event_line by reflexivity.
  destruct text; vm_compute; reflexivity.
Qed.

(** X8. Whatever text a [final] event carries - quotes, backslashes,
    line breaks, control characters, unpaired surrogates, escaped as JSON
    requires - the assistant message appended holds exactly that text, and
    the status becomes "Completed". *)
Theorem final_text_survives (st : AppState) (text : JSString) :
  handle_line st (event_line "final" "message" text)
  = setCurrent (JString (str "Completed"))
      (setMessages (fun m => m ++ [mkMessage assistant text]) st).
Proof. apply handle_final_line. Qed.

(** X14. Every [final] line of a stream is appended, in order: after the
    [final] events of the texts t1 ... tn the transcript has grown by
    the n assistant messages t1 ... tn. *)
Theorem every_final_line_appends (texts : list JSString) (st : AppState) :
  (process_lines (map (event_line "final" "message") texts) st).(messages)
  = st.(messages) ++ map (mkMessage assistant) texts.
Proof.
  revert st. induction texts as [|t ts IH]; intros st.
  - symmetry. apply app_nil_r.
  - rewrite !map_cons, process_lines_cons, IH, handle_final_line
      by apply final_line_harmless.
    rewrite messages_after_reply, <- app_assoc. reflexivity.
Qed.

(** X9. Whatever text an [error] event carries, the assistant message
    appended is "Error: " followed by exactly that text, and the status
    becomes "Error". *)
Theorem error_text_prefixed (st : AppState) (text : JSString) :
  handle_line st (event_line "error" "error" text)
  = setCurrent (JString (str "Error"))
      (setMessages (fun m => m ++ [mkMessage assistant (str "Error: " ++ text)]) st).
Proof.
  rewrite handle_event_line by reflexivity.
  vm_compute. reflexivity.
Qed.

(** X10. For any tool name, a [tool_call] event sets the status to
    "Calling " and the name, a [tool_result] event to the name and
    " done"; neither touches anything else. *)
Theorem tool_events_label_status (st : AppState) (name : JSString) :
  handle_line st (event_line "tool_call" "name" name)
  = setCurrent (JString (str "Calling " ++ name)) st
  /\ handle_line st (event_line "tool_result" "name" name)
     = setCurrent (JString (name ++ str " done")) st.
Proof.
  rewrite !handle_event_line by reflexivity.
  split; vm_compute; reflexivity.
Qed.

(** X11. A [stage] event whose stage is neither "registry_loaded" nor
    "model_invoked" shows the stage identifier itself as the status. *)
Theorem unknown_stage_shown_verbatim (st : AppState) (stage : JSString) :
  stage <> str "registry_loaded" ->
  stage <> str "model_invoked" ->
  handle_line st (event_line "stage" "stage" stage) = setCurrent (JString stage) st.
Proof.
  intros H1 H2. rewrite handle_event_line by reflexivity.
  unfold dispatch.
  change (Get (JObject [(str "type", JString (str "stage")); (str "stage", JString stage)])
              (str "type")) with (Some (JString (str "stage"))).
  change (Get (JObject [(str "type", JString (str "stage")); (str "stage", JString stage)])
              (str "stage")) with (Some (JString stage)).
  change (strict_eq_str (JString (str "stage")) (str "stage")) with true.
  cbv iota. unfold strict_eq_str.
  destruct (jsstring_eqb stage (str "registry_loaded")) eqn:E1;
    [apply jsstring_eqb_eq in E1; contradiction|].
  destruct (jsstring_eqb stage (str "model_invoked")) eqn:E2;
    [apply jsstring_eqb_eq in E2; contradiction|].
  reflexivity.
Qed.

Lemma unknown_stage_shown_verbatim_witness :
  str "tools_ready" <> str "registry_loaded"
  /\ str "tools_ready" <> str "model_invoked"
  /\ handle_line scenario_state (event_line "stage" "stage" (str "tools_ready"))
     = setCurrent (JString (str "tools_ready")) scenario_state.
Proof.
  split; [discriminate|]. split; [discriminate|].
  apply (@unknown_stage_shown_verbatim scenario_state (str "tools_ready"));
    discriminate.
Defined.

(** The lines built here are the ones written out for the scenarios. *)
Example event_line_final :
  event_line "final" "message" (str "Paris is the capital.") = line_final.
Proof. reflexivity. Qed.

(** ** Lines on the wire *)

Lemma ascii_byte_to_N (c : N) :
  c < 256 ->
  Byte.to_N (match Byte.of_N c with Some b => b | None => x00 end) = c.
Proof.
  intros Hc. destruct (Byte.of_N c) as [b|] eqn:E.
  - apply Byte.to_of_N. exact E.
  - apply Byte.of_N_None_iff in E. lia.
Qed.

Lemma decode_byte_ascii (d : TextDecoder) (c : N) :
  c < 128 -> d.(bytes_needed) = 0 ->
  decode_byte d (match Byte.of_N c with Some b => b | None => x00 end)
  = (set_bom_seen d true, [c]).
Proof.
  intros Hc Hidle. unfold decode_byte.
  rewrite ascii_byte_to_N by lia.
  unfold utf8_handler, utf8_lead. rewrite Hidle.
  change (0 =? 0) with true. cbv iota.
  replace (in_range 0x00 0x7F c) with true
    by (symmetry; unfold in_range; apply andb_true_iff; rewrite !N.leb_le; lia).
  cbn [serialize_output].
  replace (c =? 0xFEFF) with false by (symmetry; apply N.eqb_neq; lia).
  rewrite andb_false_r. unfold utf16_encode.
  replace (c <=? 0xFFFF) with true by (symmetry; apply N.leb_le; lia).
  reflexivity.
Qed.

(** ASCII bytes decode to themselves. *)
Lemma decode_ascii (s : JSString) :
  forall d, Forall (fun c => c < 128) s -> d.(bytes_needed) = 0 ->
            snd (decode d (ascii_bytes s)) = s.
Proof.
  induction s as [|c s IH]; intros d Hs Hidle; [reflexivity|].
  inversion Hs as [|? ? Hc Hrest]; subst.
  cbn [ascii_bytes map decode]. rewrite decode_byte_ascii by assumption.
  specialize (IH (set_bom_seen d true) Hrest Hidle).
  unfold ascii_bytes in IH.
  destruct (decode (set_bom_seen d true) _) as [d2 out2].
  simpl in *. rewrite IH. reflexivity.
Qed.

Lemma cut_line (l rest : JSString) :
  ~ In LF l ->
  cut (l ++ LF :: rest) = (l :: fst (cut rest), snd (cut rest)).
Proof.
  induction l as [|c l IH]; intros Hno.
  - simpl. destruct (cut rest). reflexivity.
  - cbn [app cut]. rewrite IH by (simpl in Hno; tauto).
    destruct (c =? LF) eqn:E; [|reflexivity].
    apply N.eqb_eq in E. simpl in Hno. tauto.
Qed.

Lemma cut_terminated (lines : list JSString) :
  Forall (fun l => ~ In LF l) lines ->
  cut (concat (map (fun l => l ++ [LF]) lines)) = (lines, []).
Proof.
  induction 1 as [|l ls Hl _ IH]; [reflexivity|].
  cbn [map concat]. rewrite <- app_assoc. cbn [app].
  rewrite cut_line, IH by assumption. reflexivity.
Qed.

Lemma wire_ascii (lines : list JSString) :
  wire lines = ascii_bytes (concat (map (fun l => l ++ [LF]) lines)).
Proof.
  unfold wire, ascii_bytes. rewrite concat_map, map_map. reflexivity.
Qed.

Lemma plain_lines_ascii (lines : list JSString) :
  Forall plain_line lines ->
  Forall (fun c => c < 128) (concat (map (fun l => l ++ [LF]) lines))
  /\ Forall (fun l => ~ In LF l) lines.
Proof.
  induction 1 as [|l ls Hl _ [IH1 IH2]]; [split; constructor|].
  split.
  - cbn [map concat]. apply Forall_app. split; [|exact IH1].
    apply Forall_app. split.
    + eapply Forall_impl; [|exact Hl]. intros c [Hc _]. exact Hc.
    + constructor; [reflexivity|constructor].
  - constructor; [|exact IH2].
    intros Hin. unfold plain_line in Hl. rewrite Forall_forall in Hl.
    destruct (Hl _ Hin) as [_ Hne]. contradiction.
Qed.

Lemma frame_lines_wire (lines : list JSString) (chunks : list Chunk) :
  Forall plain_line lines ->
  concat chunks = wire lines ->
  frame_lines chunks = filter (fun l => negb (is_empty l)) (map trim lines).
Proof.
  intros Hplain Hbytes.
  destruct (@plain_lines_ascii _ Hplain) as [Hascii Hno].
  rewrite frame_lines_spec, Hbytes, wire_ascii.
  unfold decoded_text. rewrite decode_ascii by (assumption || reflexivity).
  unfold complete_lines. rewrite cut_terminated by assumption. reflexivity.
Qed.

Lemma trimStart_app (l t : JSString) :
  trimStart (l ++ t)
  = match trimStart l with
    | [] => trimStart t
    | x => x ++ t
    end.
Proof.
  induction l as [|c l IH]; [simpl; destruct (trimStart t); reflexivity|].
  simpl. destruct (is_js_whitespace c); [exact IH | reflexivity].
Qed.

Lemma trim_trailing_whitespace (l : JSString) (w : N) :
  is_js_whitespace w = true -> trim (l ++ [w]) = trim l.
Proof.
  intros Hw. unfold trim. rewrite trimStart_app.
  destruct (trimStart l) as [|x xs] eqn:E.
  - simpl. rewrite Hw. reflexivity.
  - unfold trimEnd. rewrite rev_app_distr. simpl rev at 1.
    cbn [app trimStart]. rewrite Hw. reflexivity.
Qed.

(** X12. Lines written to the wire come back from the frame decoder: for
    ASCII lines without a newline, each sent with a newline after it and
    the bytes chunked in any way, the decoder hands over those lines, in
    order, trimmed, the blank ones left out. *)
Theorem wire_round_trip (lines : list JSString) (chunks : list Chunk) :
  Forall plain_line lines ->
  concat chunks = wire lines ->
  frame_lines chunks = filter (fun l => negb (is_empty l)) (map trim lines).
Proof. apply frame_lines_wire. Qed.

Lemma wire_round_trip_witness :
  Forall plain_line [line_tool_call; str "  "; str " 42 "]
  /\ concat [ascii_bytes (line_tool_call ++ [LF] ++ str " "); ascii_bytes (str " " ++ [LF] ++ str " 42 " ++ [LF])]
     = wire [line_tool_call; str "  "; str " 42 "]
  /\ frame_lines [ascii_bytes (line_tool_call ++ [LF] ++ str " "); ascii_bytes (str " " ++ [LF] ++ str " 42 " ++ [LF])]
     = [line_tool_call; str "42"].
Proof.
  assert (H : Forall plain_line [line_tool_call; str "  "; str " 42 "]).
  { repeat constructor; (vm_compute; reflexivity) || discriminate. }
  split; [exact H|]. split; [reflexivity|].
  apply (@wire_round_trip [line_tool_call; str "  "; str " 42 "]
           [ascii_bytes (line_tool_call ++ [LF] ++ str " ");
            ascii_bytes (str " " ++ [LF] ++ str " 42 " ++ [LF])] H).
  reflexivity.
Defined.

(** ** Lemmas on carriage returns *)

Lemma with_cr_app (a b : JSString) : with_cr (a ++ b) = with_cr a ++ with_cr b.
Proof. unfold with_cr. apply flat_map_app. Qed.

Lemma with_cr_no_lf (s : JSString) : ~ In LF s -> with_cr s = s.
Proof.
  induction s as [|c s IH]; [reflexivity|].
  intros H. unfold with_cr in *. cbn [flat_map].
  destruct (c =? LF) eqn:E.
  - apply N.eqb_eq in E. exfalso. apply H. left. exact E.
  - rewrite IH by (intros Hin; apply H; right; exact Hin). reflexivity.
Qed.

Lemma cut_with_cr (s : JSString) :
  cut (with_cr s) = (map (fun l => l ++ [CR]) (fst (cut s)), snd (cut s)).
Proof.
  induction s as [|c s IH]; [reflexivity|].
  unfold with_cr in *. cbn [flat_map].
  destruct (c =? LF) eqn:E.
  - cbn [app]. cbn [cut]. rewrite IH. rewrite E.
    change (LF =? LF) with true. change (CR =? LF) with false. cbv iota.
    destruct (cut s) as [ls r]. reflexivity.
  - cbn [app]. cbn [cut]. rewrite IH, E.
    destruct (cut s) as [[|l ls] r]; reflexivity.
Qed.

Lemma complete_lines_with_cr (s : JSString) :
  complete_lines (with_cr s) = complete_lines s.
Proof.
  unfold complete_lines. rewrite cut_with_cr. cbn [fst].
  rewrite map_map. f_equal. apply map_ext.
  intros l. apply trim_trailing_whitespace. reflexivity.
Qed.

Lemma utf8_lead_high (d : TextDecoder) (n : N) :
  0x80 <= d.(lower_boundary) ->
  0x80 <= (fst (utf8_lead d n)).(lower_boundary).
Proof.
  intros H. unfold utf8_lead.
  repeat match goal with
         | |- context [if in_range ?lo ?hi n then _ else _] =>
             destruct (in_range lo hi n)
         end; cbn [fst lower_boundary]; try assumption.
  - destruct (n =? 0xE0); [discriminate | assumption].
  - destruct (n =? 0xF0); [discriminate | assumption].
Qed.

Lemma decode_byte_high (d : TextDecoder) (b : byte) :
  decoder_high d -> decoder_high (fst (decode_byte d b)).
Proof.
  intros [Hok Hlow]. split; [apply decode_byte_ok; assumption|].
  unfold decode_byte.
  assert (H : 0x80 <= (fst (utf8_handler d (Byte.to_N b))).(lower_boundary)).
  { unfold utf8_handler. destruct (bytes_needed d =? 0).
    - apply utf8_lead_high. exact Hlow.
    - destruct (negb (in_range (lower_boundary d) (upper_boundary d) (Byte.to_N b))).
      + pose proof (@utf8_lead_high (mkDecoder 0 0 0 0x80 0xBF (bom_seen d))
                      (Byte.to_N b)) as L.
        destruct (utf8_lead (mkDecoder 0 0 0 0x80 0xBF (bom_seen d)) (Byte.to_N b)).
        apply L. discriminate.
      + destruct (negb (bytes_seen d + 1 =? bytes_needed d)); discriminate. }
  destruct (utf8_handler d (Byte.to_N b)) as [d1 cps]. cbn [fst] in H.
  destruct (serialize_output (bom_seen d1) cps) as [seen out].
  exact H.
Qed.

(** A carriage return and a newline, against the newline alone. *)
Lemma decode_cr_lf (d : TextDecoder) :
  decoder_high d ->
  decode d [x0d; x0a]
  = (fst (decode_byte d x0a), with_cr (snd (decode_byte d x0a))).
Proof.
  intros [[Hup Hst] Hlow].
  destruct d as [cp seen needed lower upper bom].
  cbn [upper_boundary lower_boundary bytes_needed bytes_seen code_point] in *.
  cbn [decode]. unfold decode_byte, utf8_handler.
  cbn [bytes_needed lower_boundary upper_boundary bom_seen].
  destruct (needed =? 0) eqn:N0.
  - apply N.eqb_eq in N0. subst needed. destruct bom; reflexivity.
  - assert (R : forall n, n < 0x80 -> in_range lower upper n = false).
    { intros n Hn. unfold in_range. apply andb_false_iff. left.
      apply N.leb_gt. lia. }
    change (Byte.to_N x0d) with 13. change (Byte.to_N x0a) with 10.
    rewrite !R by reflexivity. cbn [negb].
    destruct bom; reflexivity.
Qed.

Lemma decode_crlf (bytes : Chunk) :
  forall d, decoder_high d ->
            decode d (crlf bytes)
            = (fst (decode d bytes), with_cr (snd (decode d bytes))).
Proof.
  induction bytes as [|b rest IH]; intros d Hd; [reflexivity|].
  unfold crlf in *. cbn [flat_map].
  pose proof (@decode_byte_high d b Hd) as Hd1.
  destruct (Byte.eqb b x0a) eqn:E.
  - apply Byte.byte_dec_bl in E. subst b.
    rewrite decode_app, decode_cr_lf by assumption. cbn [fst snd].
    rewrite IH by assumption.
    cbn [decode]. destruct (decode_byte d x0a) as [d1 out1]. cbn [fst snd].
    destruct (decode d1 rest) as [d2 out2]. cbn [fst snd].
    rewrite with_cr_app. reflexivity.
  - cbn [app decode].
    assert (Hb : b <> x0a).
    { intros ->. vm_compute in E. discriminate E. }
    destruct Hd as [Hok _].
    destruct (@decode_byte_ok d b Hok) as [_ Hno].
    destruct (decode_byte d b) as [d1 out1]. cbn [fst snd] in *.
    rewrite IH by assumption.
    destruct (decode d1 rest) as [d2 out2]. cbn [fst snd].
    rewrite with_cr_app, (@with_cr_no_lf out1 (Hno Hb)). reflexivity.
Qed.

Lemma new_TextDecoder_high : decoder_high new_TextDecoder.
Proof. split; [apply new_TextDecoder_ok | discriminate]. Qed.

Lemma frame_lines_crlf (chunks chunks' : list Chunk) :
  concat chunks' = crlf (concat chunks) ->
  frame_lines chunks' = frame_lines chunks.
Proof.
  intros H. rewrite !frame_lines_spec, H. unfold decoded_text.
  rewrite decode_crlf by apply new_TextDecoder_high. cbn [snd].
  apply complete_lines_with_cr.
Qed.

(** X13. A carriage return before the newline makes no difference:
    whatever the bytes of a stream, and however they are chunked, the
    stream with a carriage return put before every newline is framed
    into the same lines. *)
Theorem crlf_endings_accepted (chunks chunks' : list Chunk) :
  concat chunks' = crlf (concat chunks) ->
  frame_lines chunks' = frame_lines chunks.
Proof. apply frame_lines_crlf. Qed.

(** Two lines with an accented letter, the second chunk starting inside
    it. *)
Lemma crlf_endings_accepted_witness :
  concat [[x22; x63; x61; x66; xc3]; [xa9; x22; x0d; x0a; x31; x0d; x0a]]
  = crlf (concat [[x22; x63; x61; x66; xc3; xa9; x22; x0a; x31; x0a]])
  /\ frame_lines [[x22; x63; x61; x66; xc3]; [xa9; x22; x0d; x0a; x31; x0d; x0a]]
     = frame_lines [[x22; x63; x61; x66; xc3; xa9; x22; x0a; x31; x0a]].
Proof.
  split; [reflexivity|].
  apply (@crlf_endings_accepted
           [[x22; x63; x61; x66; xc3; xa9; x22; x0a; x31; x0a]]
           [[x22; x63; x61; x66; xc3]; [xa9; x22; x0d; x0a; x31; x0d; x0a]]).
  reflexivity.
Defined.

(** * Properties of the non-streaming chat client *)

Module NewChatFacts.
Import NewChat.

Lemma reply_of_any (data : JSValue) (m : list ChatMessage) :
  reply_of data [] <> None ->
  exists reply, reply_of data m = Some (m ++ [reply]) /\ reply.(role) = assistant.
Proof.
  unfold reply_of. destruct (Get data (str "message")) as [message|];
    [|intros H; contradiction H; reflexivity].
  intros _. eexists. split; reflexivity.
Qed.

Lemma refusal_of_any (data : JSValue) (m : list ChatMessage) :
  refusal_of data [] <> None ->
  exists t, refusal_of data m
            = Some (m ++ [mkMessage assistant (JString (str "Error: " ++ t))]).
Proof.
  unfold refusal_of. destruct (Get data (str "detail")) as [detail|];
    [|intros H; contradiction H; reflexivity].
  destruct (ToString _) as [t|]; [|intros H; contradiction H; reflexivity].
  intros _. eexists. reflexivity.
Qed.

Lemma updater_throws (data : JSValue) (ok : bool) (m : list ChatMessage) :
  (if ok then reply_of data [] else refusal_of data []) = None ->
  (if ok then reply_of data m else refusal_of data m) = None.
Proof.
  unfold reply_of, refusal_of. destruct ok.
  - destruct (Get data (str "message")); [discriminate | reflexivity].
  - destruct (Get data (str "detail")) as [detail|]; [|reflexivity].
    destruct (ToString _); [discriminate | reflexivity].
Qed.

(** X15. A cycle that starts on a reply that leaves the page standing
    ends with exactly two more messages, the user's text and one
    assistant reply, with the busy flag released, the input cleared and
    the page mounted - whether the request succeeds, the server refuses,
    the body is not JSON, or the fetch is rejected. *)
Theorem one_reply_per_cycle (st : AppState) (res : Reply) :
  is_empty (trim st.(input)) = false ->
  keeps_page res = true ->
  exists reply,
    sendMessage st res
    = mkPage (mkApp st.(provider)
                    (st.(messages) ++ [mkMessage user (JString st.(input)); reply])
                    [] false)
             true
    /\ reply.(role) = assistant.
Proof.
  intros Hin Hk. apply andb_true_iff in Hk. destruct Hk as [Hb _].
  apply negb_true_iff in Hb.
  unfold sendMessage. rewrite Hin.
  unfold on_failure, updateMessages, call, update. cbn [mounted cells].
  destruct res as [e|ok [e|data]].
  - eexists. split;
      [unfold setLoading, setMessages, setInput; simpl;
       rewrite <- app_assoc; reflexivity | reflexivity].
  - eexists. split;
      [unfold setLoading, setMessages, setInput; simpl;
       rewrite <- app_assoc; reflexivity | reflexivity].
  - unfold breaks_page in Hb. destruct ok.
    + destruct (@reply_of_any data
                  (st.(messages) ++ [mkMessage user (JString st.(input))]))
        as (reply & E & R).
      { destruct (reply_of data []); discriminate. }
      exists reply. split; [|exact R].
      unfold setLoading, setMessages, setInput. simpl. rewrite E. simpl.
      rewrite <- app_assoc. reflexivity.
    + destruct (@refusal_of_any data
                  (st.(messages) ++ [mkMessage user (JString st.(input))]))
        as (t & E).
      { destruct (refusal_of data []); discriminate. }
      eexists. split;
        [unfold setLoading, setMessages, setInput; simpl; rewrite E; simpl;
         rewrite <- app_assoc; reflexivity | reflexivity].
Qed.

(** X16. A failure is told to the user: when the fetch is rejected, the
    body is not JSON, or the status is not a success and the updater
    does not throw, the reply appended starts with "Error: ". *)
Theorem failure_is_reported (st : AppState) (res : Reply) :
  is_empty (trim st.(input)) = false ->
  failed res ->
  breaks_page res = false ->
  exists text,
    (sendMessage st res).(cells).(messages)
    = st.(messages) ++ [mkMessage user (JString st.(input));
                        mkMessage assistant (JString (str "Error: " ++ text))].
Proof.
  intros Hin Hfail Hb. unfold sendMessage. rewrite Hin.
  unfold on_failure, updateMessages, call, update. cbn [mounted cells].
  destruct res as [e|ok [e|data]].
  - eexists. simpl. rewrite <- app_assoc. reflexivity.
  - eexists. simpl. rewrite <- app_assoc. reflexivity.
  - simpl in Hfail. subst ok. unfold breaks_page in Hb.
    destruct (@refusal_of_any data
                (st.(messages) ++ [mkMessage user (JString st.(input))]))
      as (t & E).
    { destruct (refusal_of data []); discriminate. }
    exists t. unfold setLoading, setMessages, setInput. simpl. rewrite E. simpl.
    rewrite <- app_assoc. reflexivity.
Qed.

(** X25. A reply whose updater throws - a body that is [null], whatever
    the status, or a refusal whose [detail] has no string form - takes
    the page down: no reply is appended, no error is shown and the busy
    flag is never released. *)
Theorem throwing_reply_unmounts (st : AppState) (res : Reply) :
  is_empty (trim st.(input)) = false ->
  breaks_page res = true ->
  sendMessage st res
  = mkPage (mkApp st.(provider)
                  (st.(messages) ++ [mkMessage user (JString st.(input))])
                  [] true)
           false.
Proof.
  intros Hin Hb. unfold sendMessage. rewrite Hin.
  unfold on_failure, updateMessages, call, update. cbn [mounted cells].
  destruct res as [e|ok [e|data]]; try discriminate.
  unfold breaks_page in Hb.
  assert (E : (if ok then reply_of data [] else refusal_of data []) = None)
    by (destruct (if ok then reply_of data [] else refusal_of data []);
        [discriminate | reflexivity]).
  apply updater_throws
    with (m := st.(messages) ++ [mkMessage user (JString st.(input))]) in E.
  destruct ok; unfold setLoading, setMessages, setInput; simpl; rewrite E;
    reflexivity.
Qed.

Lemma one_reply_per_cycle_witness :
  is_empty (trim (mkApp gpt [] (str "hi") false).(input)) = false
  /\ keeps_page (Responded true
                   (JsonResolved (JObject [(str "message", JString (str "hello"))])))
     = true
  /\ exists reply,
      sendMessage (mkApp gpt [] (str "hi") false)
        (Responded true
           (JsonResolved (JObject [(str "message", JString (str "hello"))])))
      = mkPage (mkApp gpt [mkMessage user (JString (str "hi")); reply] [] false) true
      /\ reply.(role) = assistant.
Proof.
  split; [reflexivity|]. split; [reflexivity|].
  apply (@one_reply_per_cycle (mkApp gpt [] (str "hi") false)
           (Responded true
              (JsonResolved (JObject [(str "message", JString (str "hello"))]))));
    reflexivity.
Defined.

Lemma failure_is_reported_witness :
  is_empty (trim (mkApp gpt [] (str "hi") false).(input)) = false
  /\ failed (Responded false (JsonResolved (JObject [])))
  /\ breaks_page (Responded false (JsonResolved (JObject []))) = false
  /\ exists text,
      (sendMessage (mkApp gpt [] (str "hi") false)
         (Responded false (JsonResolved (JObject [])))).(cells).(messages)
      = [mkMessage user (JString (str "hi"));
         mkMessage assistant (JString (str "Error: " ++ text))].
Proof.
  split; [reflexivity|]. split; [reflexivity|]. split; [reflexivity|].
  apply (@failure_is_reported (mkApp gpt [] (str "hi") false)
           (Responded false (JsonResolved (JObject []))));
    reflexivity.
Defined.

Lemma throwing_reply_unmounts_witness :
  is_empty (trim (mkApp gpt [] (str "hi") false).(input)) = false
  /\ breaks_page (Responded true (JsonResolved JNull)) = true
  /\ sendMessage (mkApp gpt [] (str "hi") false) (Responded true (JsonResolved JNull))
     = mkPage (mkApp gpt [mkMessage user (JString (str "hi"))] [] true) false.
Proof.
  split; [reflexivity|]. split; [reflexivity|].
  apply (@throwing_reply_unmounts (mkApp gpt [] (str "hi") false)
           (Responded true (JsonResolved JNull)));
    reflexivity.
Defined.

End NewChatFacts.

(** * Properties of the todo application *)

Module TodosFacts.
Import Todos.

(** X17. The token survives a reload: after [save], a page load that
    reads [localStorage] again renders what is rendered now, the todo
    page with the same token or the login page; and only the "token" key
    of the storage is touched. *)
Theorem token_survives_reload (t : option JSString) (se : Session) (k : JSString) :
  k <> str "token" ->
  App (useToken (save t se).(localStorage)) = App (save t se)
  /\ getItem (save t se).(localStorage) k = getItem se.(localStorage) k.
Proof.
  intros Hk. split.
  - unfold App, useToken, save, getItem.
    destruct t as [[|c v]|]; reflexivity.
  - assert (E : jsstring_eqb k (str "token") = false).
    { destruct (jsstring_eqb k (str "token")) eqn:E; [|reflexivity].
      apply jsstring_eqb_eq in E. contradiction. }
    unfold save, getItem, setItem, removeItem.
    destruct t as [[|c v]|]; simpl; rewrite E; reflexivity.
Qed.

Lemma token_survives_reload_witness :
  str "theme" <> str "token"
  /\ App (useToken (save (Some (str "jwt"))
                      (useToken (setItem (fun _ => None) (str "theme") (str "dark"))))
            .(localStorage))
     = App (save (Some (str "jwt"))
              (useToken (setItem (fun _ => None) (str "theme") (str "dark"))))
  /\ getItem (save (Some (str "jwt"))
                (useToken (setItem (fun _ => None) (str "theme") (str "dark"))))
              .(localStorage) (str "theme")
     = getItem (useToken (setItem (fun _ => None) (str "theme") (str "dark")))
                 .(localStorage) (str "theme").
Proof.
  split; [discriminate|].
  apply (@token_survives_reload (Some (str "jwt"))
           (useToken (setItem (fun _ => None) (str "theme") (str "dark")))
           (str "theme")).
  discriminate.
Defined.

(** X18. A login that fails - fetch rejected, status not a success, body
    unreadable - leaves the token and the storage as they were, shows an
    error text that is never empty ("Invalid credentials" for a refusing
    status) and releases the busy flag. *)
Theorem failed_login_keeps_session (lp : LoginState) (se : Session)
        (res : Reply (option JSString)) :
  login_refused res ->
  snd (handleSubmit lp se res) = se
  /\ (fst (handleSubmit lp se res)).(login_loading) = false
  /\ (exists text, (fst (handleSubmit lp se res)).(error) = Some text /\ text <> [])
  /\ (forall body,
         (fst (handleSubmit lp se (Responded false body))).(error)
         = Some (str "Invalid credentials")).
Proof.
  intros Href.
  assert (N : forall e, login_error e <> []).
  { intros e. unfold login_error.
    destruct (is_empty (err_message e)) eqn:M; [discriminate|].
    intros H. rewrite H in M. discriminate M. }
  unfold handleSubmit.
  destruct res as [e|[|] [e|data]]; simpl in *; try contradiction;
    repeat split; try (eexists; split; [reflexivity | apply N]);
    try reflexivity.
Qed.

Lemma failed_login_keeps_session_witness :
  login_refused (Responded false (JsonResolved (Some (str "x"))))
  /\ snd (handleSubmit (mkLogin (str "a@b") (str "pw") false None)
            (useToken (fun _ => None))
            (Responded false (JsonResolved (Some (str "x")))))
     = useToken (fun _ => None).
Proof.
  split; [exact I|].
  apply (@failed_login_keeps_session (mkLogin (str "a@b") (str "pw") false None)
           (useToken (fun _ => None))
           (Responded false (JsonResolved (Some (str "x")))) I).
Defined.

(** X19. A login that succeeds with a non-empty token opens the todo page
    with that token, now and after a reload, with no error shown and the
    busy flag released. *)
Theorem login_opens_todo_page (lp : LoginState) (se : Session) (tok : JSString) :
  tok <> [] ->
  App (snd (handleSubmit lp se (Responded true (JsonResolved (Some tok)))))
  = TodoPage tok
  /\ App (useToken
            (snd (handleSubmit lp se (Responded true (JsonResolved (Some tok)))))
              .(localStorage))
     = TodoPage tok
  /\ (fst (handleSubmit lp se (Responded true (JsonResolved (Some tok))))).(error)
     = None
  /\ (fst (handleSubmit lp se (Responded true (JsonResolved (Some tok)))))
       .(login_loading) = false.
Proof.
  intros Hne. destruct tok as [|c v]; [contradiction|].
  repeat split.
Qed.

Lemma login_opens_todo_page_witness :
  str "jwt" <> []
  /\ App (snd (handleSubmit (mkLogin (str "a@b") (str "pw") false None)
                 (useToken (fun _ => None))
                 (Responded true (JsonResolved (Some (str "jwt"))))))
     = TodoPage (str "jwt").
Proof.
  split; [discriminate|].
  apply (@login_opens_todo_page (mkLogin (str "a@b") (str "pw") false None)
           (useToken (fun _ => None)) (str "jwt")).
  discriminate.
Defined.

Lemma toggle_map_ids (updated : Todo) (l : list Todo) :
  map id (map (fun t => if (t.(id) =? updated.(id))%Z then updated else t) l)
  = map id l.
Proof.
  induction l as [|t l IH]; [reflexivity|].
  simpl. rewrite IH. destruct (id t =? id updated)%Z eqn:E; [|reflexivity].
  apply Z.eqb_eq in E. rewrite E. reflexivity.
Qed.

(** X20. Toggling never adds, drops or reorders todos: whatever todo
    the server answers, and whether it answers at all, the list has the
    same ids in the same order afterwards, and title box and loading
    flag are as before.  The page is lost in one case, and in that case
    only: a success whose body is [null]. *)
Theorem toggle_keeps_ids (st : TodoState) (todo : Todo) (res : Reply (option Todo)) :
  match toggle st todo res with
  | Some st' =>
      map id st'.(todos) = map id st.(todos)
      /\ st'.(new_title) = st.(new_title)
      /\ st'.(loading) = st.(loading)
  | None => res = Responded true (JsonResolved None)
  end
  /\ toggle st todo (Responded true (JsonResolved None)) = None.
Proof.
  split; [|reflexivity].
  unfold toggle. destruct res as [e|[|] [e|[updated|]]]; auto.
  simpl. split; [apply toggle_map_ids | auto].
Qed.

Lemma replace_back (todo updated : Todo) (l : list Todo) :
  NoDup (map id l) -> In todo l -> updated.(id) = todo.(id) ->
  map (fun t => if (t.(id) =? todo.(id))%Z then todo else t)
      (map (fun t => if (t.(id) =? updated.(id))%Z then updated else t) l)
  = l.
Proof.
  intros Hnd Hin Hid. rewrite map_map, Hid.
  rewrite <- (map_id l) at 2. apply map_ext_in.
  intros t Ht. destruct (id t =? id todo)%Z eqn:E.
  - rewrite Hid, Z.eqb_refl. apply Z.eqb_eq in E.
    clear - Hnd Hin Ht E. induction l as [|x l IH]; [contradiction|].
    simpl in Hnd. inversion Hnd as [|? ? Hx Hl]; subst.
    destruct Hin as [->|Hin], Ht as [->|Ht]; auto.
    + exfalso. apply Hx. rewrite <- E. apply in_map. exact Ht.
    + exfalso. apply Hx. rewrite E. apply in_map. exact Hin.
  - rewrite E. reflexivity.
Qed.

(** X21. Toggling twice restores the list: when the ids are distinct and
    the server answers each PATCH with the todo it was asked to flip, two
    toggles of a todo of the list leave the state as it was. *)
Theorem toggle_twice_restores (st : TodoState) (todo : Todo) :
  NoDup (map id st.(todos)) ->
  In todo st.(todos) ->
  exists st1,
    toggle st todo (Responded true (JsonResolved (Some (flipped todo)))) = Some st1
    /\ toggle st1 (flipped todo)
              (Responded true (JsonResolved (Some (flipped (flipped todo)))))
       = Some st.
Proof.
  intros Hnd Hin.
  assert (F : flipped (flipped todo) = todo)
    by (destruct todo; unfold flipped; simpl; rewrite negb_involutive; reflexivity).
  rewrite F. unfold toggle. eexists. split; [reflexivity|]. simpl.
  pose proof (@replace_back todo (flipped todo) (todos st) Hnd Hin eq_refl) as R.
  simpl in R. rewrite R.
  destruct st; reflexivity.
Qed.

Lemma toggle_twice_restores_witness :
  exists st1,
    toggle (mkTodos [mkTodo 1 (str "Buy groceries") false (str "2024");
                     mkTodo 2 (str "Read a book") true (str "2024")] [] false)
           (mkTodo 2 (str "Read a book") true (str "2024"))
           (Responded true
              (JsonResolved
                 (Some (flipped (mkTodo 2 (str "Read a book") true (str "2024"))))))
    = Some st1
    /\ toggle st1
              (flipped (mkTodo 2 (str "Read a book") true (str "2024")))
              (Responded true
                 (JsonResolved
                    (Some (flipped
                             (flipped (mkTodo 2 (str "Read a book") true (str "2024")))))))
       = Some (mkTodos [mkTodo 1 (str "Buy groceries") false (str "2024");
                        mkTodo 2 (str "Read a book") true (str "2024")] [] false).
Proof.
  apply (@toggle_twice_restores
           (mkTodos [mkTodo 1 (str "Buy groceries") false (str "2024");
                     mkTodo 2 (str "Read a book") true (str "2024")] [] false)
           (mkTodo 2 (str "Read a book") true (str "2024"))).
  - simpl. repeat constructor; simpl; intuition discriminate.
  - simpl. right. left. reflexivity.
Defined.



(** X23. What the page shows after its first load: the items when the
    server sends some; "No items yet." when it sends none and also when
    it refuses the request; and "Loading..." for good when the fetch is
    rejected or the body cannot be read, since nothing clears the flag on
    that path. *)
Theorem first_load_view :
  (forall item items,
      list_view (loadTodos mounted (Responded true (JsonResolved (item :: items))))
      = ShowItems (item :: items))
  /\ list_view (loadTodos mounted (Responded true (JsonResolved []))) = ShowNoItems
  /\ (forall body, list_view (loadTodos mounted (Responded false body)) = ShowNoItems)
  /\ (forall e, list_view (loadTodos mounted (Rejected e)) = ShowLoading)
  /\ (forall e, list_view (loadTodos mounted (Responded true (JsonRejected e)))
                = ShowLoading).
Proof. repeat split. Qed.

End TodosFacts.
